(** * Webclaw: schema resolution, response introspection, composition
      confirmation and the live-update channel

    A shallow embedding of the TypeScript sources

      - [web/src/lib/response-introspection.ts]  (module [Introspection])
      - [web/src/lib/ui-yaml-to-form.ts]         (module [UiYamlToForm])
      - [lib/auto-form-spec.ts]                  (module [AutoFormSpec])
      - [resolveFormSpec] of the skill page      (module [SkillPage])
      - [web/src/components/confirmation-card.tsx] (module [ConfirmationCard])
      - the [EventsProvider] reconnect logic     (module [Events])

    Conventions of the embedding.

    - A JavaScript string is a [string]: a sequence of code units, here the
      code units below 256.  Case mapping is the one operation that leaves
      this range, so it is an interface ([CaseOps]) the model is parametric
      in; [ascii_case] is its instance on ASCII text.
    - A JSON number is a rational [Q] (every finite double is one); the model
      only compares numbers and copies them.
    - An optional property is an [option]; JavaScript truthiness is written
      out by the [truthy_*] helpers.
    - A plain object used as a record of entries ([Record<string, T>]) is the
      list of its own entries in [Object.entries] order.  A read [o[k]] by
      a key the object does not own finds the member of [Object.prototype]
      of that name ([Js.inherited]); where the type of a result cannot
      hold such a member, the statements leave the names
      [Js.Object_prototype_keys] out.
    - [Array.prototype.sort] is a stable sort; [Js.sort_by] is the stable
      insertion sort with the same comparator. *)

From Stdlib Require Import String Ascii List Bool ZArith QArith Lia.
From Stdlib Require Import Permutation Sorted.
From stdpp Require Import base option gmap strings.
Import ListNotations.

Local Open Scope string_scope.
Local Open Scope Z_scope.

(* ================================================================== *)
(** * JavaScript values and string primitives                          *)
(* ================================================================== *)

Module Js.

(** Values as far as the sources inspect them ([typeof], [===], [??]). *)
Inductive Value : Type :=
| VUndefined
| VNull
| VBoolean (b : bool)
| VNumber (q : Q)
| VString (s : string)
| VObject             (* any object or array; never looked into *)
| VFunction.          (* any function; never called *)

(** [typeof v] *)
Definition typeof (v : Value) : string :=
  match v with
  | VUndefined => "undefined"
  | VNull | VObject => "object"
  | VBoolean _ => "boolean"
  | VNumber _ => "number"
  | VString _ => "string"
  | VFunction => "function"
  end.

(** [String.prototype.toUpperCase] and [toLowerCase]. *)
Class CaseOps : Type := {
  toUpperCase : string -> string;
  toLowerCase : string -> string
}.

Definition ascii_upper_char (c : ascii) : ascii :=
  let n := nat_of_ascii c in
  if (Nat.leb 97 n && Nat.leb n 122)%bool then ascii_of_nat (n - 32) else c.

Definition ascii_lower_char (c : ascii) : ascii :=
  let n := nat_of_ascii c in
  if (Nat.leb 65 n && Nat.leb n 90)%bool then ascii_of_nat (n + 32) else c.

Fixpoint map_chars (f : ascii -> ascii) (s : string) : string :=
  match s with
  | EmptyString => EmptyString
  | String c r => String (f c) (map_chars f r)
  end.

(** Case mapping of ASCII text. *)
Definition ascii_case : CaseOps :=
  {| toUpperCase := map_chars ascii_upper_char;
     toLowerCase := map_chars ascii_lower_char |}.

(** ** Truthiness *)

Definition truthy_bool (o : option bool) : bool :=
  match o with Some true => true | _ => false end.

Definition truthy_str (o : option string) : bool :=
  match o with
  | Some EmptyString | None => false
  | Some _ => true
  end.

Definition truthy_num (o : option Q) : bool :=
  match o with
  | Some q => negb (Qeq_bool q 0)
  | None => false
  end.

(** [a || b] on optional strings and numbers. *)
Definition or_str (o : option string) (d : string) : string :=
  match o with
  | Some EmptyString | None => d
  | Some s => s
  end.

(** [o === "lit"] on an optional string *)
Definition str_is (o : option string) (lit : string) : bool :=
  match o with
  | Some s => String.eqb s lit
  | None => false
  end.

Definition or_num (o : option Q) (d : Q) : Q :=
  if truthy_num o then match o with Some q => q | None => d end else d.

(** ** Strings *)

Definition startsWith (s p : string) : bool := String.prefix p s.

Fixpoint rev_onto (s acc : string) : string :=
  match s with
  | EmptyString => acc
  | String c r => rev_onto r (String c acc)
  end.

Definition reverse (s : string) : string := rev_onto s EmptyString.

Definition endsWith (s p : string) : bool :=
  String.prefix (reverse p) (reverse s).

(** [s.includes(p)] *)
Fixpoint includes (s p : string) : bool :=
  String.prefix p s ||
  match s with
  | EmptyString => false
  | String _ r => includes r p
  end.

(** [s.replace(/c/g, d)] for single characters [c], [d]. *)
Definition replace_char (c d : ascii) (s : string) : string :=
  map_chars (fun x => if Ascii.eqb x c then d else x) s.

(** [s.slice(0, -1)] *)
Fixpoint drop_last (s : string) : string :=
  match s with
  | EmptyString => EmptyString
  | String c EmptyString => EmptyString
  | String c r => String c (drop_last r)
  end.

(** [s.slice(n)] *)
Fixpoint slice_from (n : nat) (s : string) : string :=
  match n, s with
  | O, _ => s
  | S m, EmptyString => EmptyString
  | S m, String _ r => slice_from m r
  end.

(** [s.charAt(0)] *)
Definition charAt0 (s : string) : string :=
  match s with
  | EmptyString => EmptyString
  | String c _ => String c EmptyString
  end.

(** [s.split(c)] for a one-character separator: never the empty list. *)
Fixpoint split (c : ascii) (s : string) : list string :=
  match s with
  | EmptyString => [EmptyString]
  | String x r =>
      if Ascii.eqb x c then EmptyString :: split c r
      else match split c r with
           | w :: ws => String x w :: ws
           | [] => [String x EmptyString]
           end
  end.

(** [l.join(sep)] *)
Fixpoint join (sep : string) (l : list string) : string :=
  match l with
  | [] => EmptyString
  | [w] => w
  | w :: ws => w +:+ sep +:+ join sep ws
  end.

(** White space and line terminators below code unit 256. *)
Definition is_space (c : ascii) : bool :=
  let n := nat_of_ascii c in
  (Nat.leb 9 n && Nat.leb n 13) || Nat.eqb n 32 || Nat.eqb n 160.

Fixpoint trimStart (s : string) : string :=
  match s with
  | EmptyString => EmptyString
  | String c r => if is_space c then trimStart r else s
  end.

(** [s.trim()] *)
Definition trim (s : string) : string :=
  reverse (trimStart (reverse (trimStart s))).

(** ** Entries of a record object *)

(** [o || {}] *)
Definition or_empty {A : Type} (o : option (list A)) : list A :=
  match o with
  | Some l => l
  | None => []
  end.

Fixpoint lookup {V : Type} (k : string) (o : list (string * V)) : option V :=
  match o with
  | [] => None
  | (k', v) :: r => if String.eqb k' k then Some v else lookup k r
  end.

Definition has (k : string) (l : list string) : bool :=
  existsb (String.eqb k) l.

(** ** Members every plain object inherits

    The names of the properties of [Object.prototype].  [lookup] and the
    finite maps give the entries of an object's own; a read [o[k]] of a
    key the object does not own finds the member of that name, if there
    is one: a function, or for [__proto__] the prototype itself. *)
Definition Object_prototype_keys : list string :=
  [ "constructor"; "__defineGetter__"; "__defineSetter__"; "hasOwnProperty";
    "__lookupGetter__"; "__lookupSetter__"; "isPrototypeOf";
    "propertyIsEnumerable"; "toString"; "valueOf"; "__proto__";
    "toLocaleString" ].

(** [o[k]] where [o] has no entry of its own for [k]. *)
Definition inherited (k : string) : option Value :=
  if String.eqb k "__proto__" then Some VObject
  else if has k Object_prototype_keys then Some VFunction
  else None.

(** ** [Array.prototype.sort]

    [gt a b] is [compare(a, b) > 0]: [a] has to come after [b].  Elements
    the comparator does not order keep their relative position. *)
Section Sort.
Context {A : Type} (gt : A -> A -> bool).

Fixpoint insert_by (x : A) (l : list A) : list A :=
  match l with
  | [] => [x]
  | y :: r => if gt x y then y :: insert_by x r else x :: l
  end.

Fixpoint sort_by (l : list A) : list A :=
  match l with
  | [] => []
  | x :: r => insert_by x (sort_by r)
  end.
End Sort.

End Js.

(* ================================================================== *)
(** * Response introspection                                           *)
(* ================================================================== *)

Module Introspection.
Import Js.

(** [IntrospectedColumn["type"]] *)
Inductive ColumnType : Type :=
| TText | TNumber | TCurrency | TDate | TDatetime | TBoolean | TBadge | TId.

Definition ColumnType_eqb (a b : ColumnType) : bool :=
  match a, b with
  | TText, TText | TNumber, TNumber | TCurrency, TCurrency | TDate, TDate
  | TDatetime, TDatetime | TBoolean, TBoolean | TBadge, TBadge | TId, TId => true
  | _, _ => false
  end.

Record IntrospectedColumn : Type := {
  key : string;
  label : string;
  type : ColumnType;
  hidden : bool
}.

Record IntrospectedSchema : Type := {
  entityKey : string;
  columns : list IntrospectedColumn;
  listColumns : list string;
  idColumn : string;
  statusColumn : option string;
  cachedAt : Z
}.

(** ** The four regular expressions, as matchers *)

Definition is_digit (c : ascii) : bool :=
  let n := nat_of_ascii c in Nat.leb 48 n && Nat.leb n 57.

(** [[0-9a-f]] under the [i] flag *)
Definition is_hex (c : ascii) : bool :=
  let n := nat_of_ascii c in
  is_digit c || (Nat.leb 97 n && Nat.leb n 102) || (Nat.leb 65 n && Nat.leb n 70).

(** [p{n}] at the head of [s]: the rest of the input after it. *)
Fixpoint times (p : ascii -> bool) (n : nat) (s : string) : option string :=
  match n with
  | O => Some s
  | S m =>
      match s with
      | String c r => if p c then times p m r else None
      | EmptyString => None
      end
  end.

Definition lit (c : ascii) (s : string) : option string :=
  times (Ascii.eqb c) 1 s.

(** [$] *)
Definition at_end (o : option string) : bool :=
  match o with Some EmptyString => true | _ => false end.

Definition matched (o : option string) : bool :=
  match o with Some _ => true | None => false end.

(** [/^[0-9a-f]{8}-[0-9a-f]{4}-[0-9a-f]{4}-[0-9a-f]{4}-[0-9a-f]{12}$/i] *)
Definition UUID_RE (s : string) : bool :=
  at_end (r ← times is_hex 8 s; r ← lit "-" r;
          r ← times is_hex 4 r; r ← lit "-" r;
          r ← times is_hex 4 r; r ← lit "-" r;
          r ← times is_hex 4 r; r ← lit "-" r;
          times is_hex 12 r).

Definition date_prefix (s : string) : option string :=
  r ← times is_digit 4 s; r ← lit "-" r;
  r ← times is_digit 2 r; r ← lit "-" r;
  times is_digit 2 r.

(** [/^\d{4}-\d{2}-\d{2}$/] *)
Definition ISO_DATE_RE (s : string) : bool := at_end (date_prefix s).

(** [/^\d{4}-\d{2}-\d{2}[T ]\d{2}:\d{2}/] *)
Definition ISO_DATETIME_RE (s : string) : bool :=
  matched (r ← date_prefix s;
           r ← times (fun c => Ascii.eqb c "T" || Ascii.eqb c " ") 1 r;
           r ← times is_digit 2 r; r ← lit ":" r;
           times is_digit 2 r).

(** [\d*] : the input after the longest run of digits *)
Fixpoint skip_digits (s : string) : string :=
  match s with
  | String c r => if is_digit c then skip_digits r else s
  | EmptyString => EmptyString
  end.

(** [/^-?\d+\.\d{2}$/] *)
Definition CURRENCY_RE (s : string) : bool :=
  let s1 := match s with
            | String c r => if Ascii.eqb c "-" then r else s
            | EmptyString => s
            end in
  at_end (r ← times is_digit 1 s1;
          r ← lit "." (skip_digits r);
          times is_digit 2 r).

Definition HIDDEN_COLUMNS : list string :=
  ["id"; "created_at"; "updated_at"; "created_by"; "updated_by";
   "modified_at"; "modified_by"; "company_id"; "docstatus"].

Definition ID_SUFFIXES : list string := ["_id"].

Definition STATUS_COLUMNS : list string :=
  ["status"; "docstatus"; "state"; "stage"].

Definition BADGE_COLUMNS : list string :=
  ["status"; "state"; "type"; "resource_type"; "category"; "purpose";
   "priority"; "severity"; "stage"].

Section WithCase.
Context `{CaseOps}.

Definition kebabToTitle (k : string) : string :=
  join " "
    (map (fun w => toUpperCase (charAt0 w) +:+ slice_from 1 w)
         (split " " (replace_char "-" " " (replace_char "_" " " k)))).
End WithCase.

(** [value === n] for a number literal [n] *)
Definition strict_eq_num (v : Value) (n : Q) : bool :=
  match v with
  | VNumber q => Qeq_bool q n
  | _ => false
  end.

(** The block run when [typeof value === "string"]; [None] when it falls
    out of the block without returning. *)
Definition inferStringType (key s : string) : option ColumnType :=
  if UUID_RE s then Some TId
  else if ISO_DATETIME_RE s then Some TDatetime
  else if ISO_DATE_RE s then Some TDate
  else if CURRENCY_RE s then Some TCurrency
  else if has key BADGE_COLUMNS && Nat.ltb (String.length s) 30
          && negb (includes s " ")
       then Some TBadge
  else None.

Definition inferColumnType (key : string) (value : Value) : ColumnType :=
  if String.eqb (typeof value) "number" then TNumber
  else if String.eqb (typeof value) "boolean" then TBoolean
  else
    match (match value with
           | VString s => inferStringType key s
           | _ => None
           end) with
    | Some t => t
    | None =>
        (* Integer 0/1 with boolean-like name *)
        if (strict_eq_num value 0 || strict_eq_num value 1)
           && (startsWith key "is_" || startsWith key "has_"
               || startsWith key "enable_")
        then TBoolean
        else TText
    end.

Definition shouldHideColumn (key : string) : bool :=
  if has key HIDDEN_COLUMNS then true
  else if existsb (fun suffix => endsWith key suffix) ID_SUFFIXES then true
  else false.

(** ** Smart list column selection *)

Definition score (col : IntrospectedColumn) : Z :=
  let s := 0 in
  let s := if String.eqb (key col) "name" || String.eqb (key col) "title"
           then s + 100 else s in
  let s := if has (key col) STATUS_COLUMNS then s + 90 else s in
  let s := if ColumnType_eqb (type col) TBadge then s + 70 else s in
  let s := if ColumnType_eqb (type col) TCurrency then s + 60 else s in
  let s := if ColumnType_eqb (type col) TNumber then s + 50 else s in
  let s := if ColumnType_eqb (type col) TDate then s + 40 else s in
  let s := if ColumnType_eqb (type col) TBoolean then s + 30 else s in
  let s := if ColumnType_eqb (type col) TText then s + 20 else s in
  s.

(** The comparator [(a, b) => b.score - a.score] is positive when [a]
    scores less than [b]. *)
Definition by_score_desc (a b : string * Z) : bool := snd a <? snd b.

Definition selectSmartColumns (columns : list IntrospectedColumn) : list string :=
  let visible := List.filter (fun c => negb (hidden c)) columns in
  match visible with
  | [] => []
  | _ =>
      let scored := map (fun col => (key col, score col)) visible in
      map fst (firstn 7 (sort_by by_score_desc scored))
  end.

(** ** The column loop of [_doIntrospect] over the first row *)

Section WithCase.
Context `{CaseOps}.

Definition columnOf (entry : string * Value) : IntrospectedColumn :=
  let '(k, value) := entry in
  let colType := inferColumnType k value in
  {| key := k;
     label := kebabToTitle k;
     type := colType;
     hidden := shouldHideColumn k || ColumnType_eqb colType TId |}.

Definition schemaOfRow (arrayKey : string) (now : Z)
    (firstRow : list (string * Value)) : IntrospectedSchema :=
  let columns := map columnOf firstRow in
  {| entityKey := arrayKey;
     columns := columns;
     listColumns := selectSmartColumns columns;
     idColumn := "id";
     statusColumn :=
       fold_left (fun acc e => if has (fst e) STATUS_COLUMNS then Some (fst e) else acc)
                 firstRow None;
     cachedAt := now |}.
End WithCase.

(** ** Auxiliary notions for the statements *)

(** The comparator of [selectSmartColumns], on the columns themselves. *)
Definition lower_score (a b : IntrospectedColumn) : bool := score a <? score b.

(** The weight the scoring adds for the column type. *)
Definition type_weight (t : ColumnType) : Z :=
  match t with
  | TBadge => 70 | TCurrency => 60 | TNumber => 50 | TDate => 40
  | TBoolean => 30 | TText => 20 | TDatetime => 0 | TId => 0
  end.

(** A UUID, for the examples. *)
Definition sample_uuid : string := "e4a1c2d3-5b6f-4a7e-8c9d-0123456789ab".

End Introspection.

(* ================================================================== *)
(** * Form specifications ([form-spec.ts])                             *)
(* ================================================================== *)

Module FormSpecTypes.
Import Js.

(** A numeric property of a field spec.  Conversions the sources apply
    ([Number(x)], [Math.pow(10, -p)]) are kept as written. *)
Inductive NumExpr : Type :=
| NumLit (q : Q)
| NumberOfString (s : string)      (* Number("...") *)
| Pow10Neg (precision : Q).        (* Math.pow(10, -precision) *)

(** [FieldType] is a string at run time. *)
Record FormFieldSpec : Type := {
  key : string;
  label : string;
  type : string;
  required : option bool;
  default : option Value;
  placeholder : option string;
  helpText : option string;
  description : option string;
  min : option NumExpr;
  max : option NumExpr;
  step : option NumExpr;
  options : option (list (string * string));   (* label, value *)
  entity_skill : option string;
  entity_action : option string;
  entity_value_field : option string;
  entity_display_field : option string
}.

Record FormSectionSpec : Type := {
  section_label : string;
  columns : option Q;
  section_type : option string;        (* "fields" | "repeatable" *)
  section_key : option string;
  min_rows : option Q;
  fields : list FormFieldSpec
}.

Record FormSpec : Type := {
  title : string;
  spec_description : option string;
  submit_action : string;
  submit_label : option string;
  sections : list FormSectionSpec
}.


Definition all_fields (spec : FormSpec) : list FormFieldSpec :=
  flat_map fields (sections spec).

End FormSpecTypes.

(* ================================================================== *)
(** * UI.yaml to FormSpec ([ui-yaml-to-form.ts])                       *)
(* ================================================================== *)

Module UiYamlToForm.
Import Js FormSpecTypes.

(** ** The parts of [ui-yaml-types.ts] the converter reads *)

Record FieldDef : Type := {
  fd_type : string;
  fd_label : string;
  fd_required : option bool;
  read_only : option bool;
  hidden : option bool;
  fd_default : option Value;
  fd_placeholder : option string;
  help_text : option string;
  fd_min : option (string + Q);
  fd_max : option (string + Q);
  precision : option Q;
  fd_options : option (list (string * string));
  link_entity : option string;
  link_display_field : option string;
  link_search_action : option string;
  param_name : option string;
  in_form_view : option bool;
  form_group : option string;
  form_order : option Q
}.

Record FormGroupDef : Type := {
  fg_label : string;
  fg_order : Q;
  fg_columns : option Q;
  fg_type : option string
}.

Record FormViewGroup : Type := {
  vg_label : string;
  vg_fields : option (list string);
  vg_columns : option Q;
  vg_type : option string;
  vg_child_entity : option string
}.

Record EntityDef : Type := {
  ent_label : string;
  label_plural : string;
  table : string;
  ent_fields : list (string * FieldDef);
  form_groups : option (list (string * FormGroupDef));
  views_form : option (list FormViewGroup)       (* views?.form.groups *)
}.

Record ChildEntityDef : Type := {
  parent_entity : string;
  child_param_name : option string;
  child_fields : list (string * FieldDef)
}.

Record ActionMapEntry : Type := {
  component : option string;
  am_entity : option string;
  mode : option string
}.

Record UIConfig : Type := {
  skill : string;
  entities : list (string * EntityDef);
  child_entities : option (list (string * ChildEntityDef));
  action_map : list (string * ActionMapEntry)
}.

Definition mapFieldType (uiType : string) : string :=
  if String.eqb uiType "link" then "entity-lookup"
  else if String.eqb uiType "currency" then "currency"
  else if String.eqb uiType "number" || String.eqb uiType "integer"
          || String.eqb uiType "quantity" || String.eqb uiType "percent"
       then "number"
  else if String.eqb uiType "date" || String.eqb uiType "datetime" then "date"
  else if String.eqb uiType "textarea" then "textarea"
  else if String.eqb uiType "select" then "select"
  else if String.eqb uiType "boolean" then "boolean"
  else "text".

Definition ACTION_SKILL_MAP : list (string * string) :=
  [ ("list-companies", "erpclaw-setup");
    ("list-currencies", "erpclaw-setup");
    ("list-exchange-rates", "erpclaw-setup");
    ("list-payment-terms", "erpclaw-setup");
    ("list-uoms", "erpclaw-setup");
    ("list-roles", "erpclaw-setup");
    ("list-users", "erpclaw-setup");
    ("list-accounts", "erpclaw-gl");
    ("list-cost-centers", "erpclaw-gl");
    ("list-fiscal-years", "erpclaw-gl");
    ("list-budgets", "erpclaw-gl");
    ("list-gl-entries", "erpclaw-gl");
    ("list-items", "erpclaw-inventory");
    ("list-warehouses", "erpclaw-inventory");
    ("list-item-groups", "erpclaw-inventory");
    ("list-batches", "erpclaw-inventory");
    ("list-serial-numbers", "erpclaw-inventory");
    ("list-stock-entries", "erpclaw-inventory");
    ("list-customers", "erpclaw-selling");
    ("list-quotations", "erpclaw-selling");
    ("list-sales-orders", "erpclaw-selling");
    ("list-delivery-notes", "erpclaw-selling");
    ("list-sales-invoices", "erpclaw-selling");
    ("list-sales-partners", "erpclaw-selling");
    ("list-recurring-templates", "erpclaw-selling");
    ("list-suppliers", "erpclaw-buying");
    ("list-rfqs", "erpclaw-buying");
    ("list-supplier-quotations", "erpclaw-buying");
    ("list-purchase-orders", "erpclaw-buying");
    ("list-purchase-receipts", "erpclaw-buying");
    ("list-purchase-invoices", "erpclaw-buying");
    ("list-material-requests", "erpclaw-buying");
    ("list-tax-templates", "erpclaw-tax");
    ("list-employees", "erpclaw-hr");
    ("list-projects", "erpclaw-projects");
    ("list-assets", "erpclaw-assets") ].

Definition resolveEntitySkill (searchAction : string) : option string :=
  lookup searchAction ACTION_SKILL_MAP.

Definition ENTITY_ACTION_OVERRIDES : list (string * string) :=
  [ ("request_for_quotation", "list-rfqs");
    ("delivery_note", "list-delivery-notes");
    ("stock_entry", "list-stock-entries");
    ("gl_entry", "list-gl-entries");
    ("serial_number", "list-serial-numbers") ].

(** The read [ENTITY_ACTION_OVERRIDES[linkEntity]] is that of the table's
    own entries.  At the name of a member every object inherits
    ([Js.Object_prototype_keys]) the source reads that member, which is
    no string: the facts below about this function leave those names
    out, or suppose that the result is a string. *)
Definition inferSearchAction (linkEntity : option string) : option string :=
  if negb (truthy_str linkEntity) then None
  else
    let linkEntity := or_str linkEntity "" in
    if truthy_str (lookup linkEntity ENTITY_ACTION_OVERRIDES)
    then lookup linkEntity ENTITY_ACTION_OVERRIDES
    else
      let kebab := replace_char "_" "-" linkEntity in
      let plural :=
        if endsWith kebab "s" then kebab
        else if endsWith kebab "y" then drop_last kebab +:+ "ies"
        else kebab +:+ "s" in
      Some ("list-" +:+ plural).

(** [Number(x)] for [x : string | number] *)
Definition number_of (x : string + Q) : NumExpr :=
  match x with
  | inl s => NumberOfString s
  | inr q => NumLit q
  end.

Definition fieldDefToFormField (k : string) (field : FieldDef)
    (currentSkill : string) : FormFieldSpec :=
  let searchAction :=
    if truthy_str (link_search_action field) then link_search_action field
    else inferSearchAction (link_entity field) in
  let linked := String.eqb (fd_type field) "link" && truthy_str searchAction in
  let ownerSkill := resolveEntitySkill (or_str searchAction "") in
  {| key := or_str (param_name field) (replace_char "_" "-" k);
     label := fd_label field;
     type := mapFieldType (fd_type field);
     required := fd_required field;
     default := fd_default field;
     placeholder := fd_placeholder field;
     helpText := help_text field;
     description := None;
     min := option_map number_of (fd_min field);
     max := option_map number_of (fd_max field);
     step := option_map Pow10Neg (precision field);
     options :=
       match fd_options field with
       | Some o => Some o
       | None => None
       end;
     entity_skill :=
       if linked
       then match ownerSkill with
            | Some o => if negb (String.eqb o currentSkill) then Some o else None
            | None => None
            end
       else None;
     entity_action := if linked then searchAction else None;
     entity_value_field := if linked then Some "id" else None;
     entity_display_field :=
       if linked then Some (or_str (link_display_field field) "name") else None |}.

(** An entry of [groupedFields]. *)
Record GroupedField : Type := {
  gf_field : FieldDef;
  gf_key : string;
  gf_order : Q
}.

Definition by_order_asc (a b : GroupedField) : bool :=
  negb (Qle_bool (gf_order a) (gf_order b)).

Definition by_group_order (a b : string * FormGroupDef) : bool :=
  negb (Qle_bool (fg_order (snd a)) (fg_order (snd b))).

(** Not read-only and not hidden: the filter on child-table fields. *)
Definition editable (f : FieldDef) : bool :=
  negb (truthy_bool (read_only f)) && negb (truthy_bool (hidden f)).

Definition childFieldsOf (childDef : ChildEntityDef) (skill : string)
    : list FormFieldSpec :=
  map (fun kf => fieldDefToFormField (fst kf) (snd kf) skill)
      (List.filter (fun kf => editable (snd kf)) (child_fields childDef)).

Definition repeatableSection (label key : string) (fs : list FormFieldSpec)
    : FormSectionSpec :=
  {| section_label := label;
     columns := None;
     section_type := Some "repeatable";
     section_key := Some key;
     min_rows := Some 1%Q;
     fields := fs |}.

Definition findEntityKey (entity : EntityDef) : string := table entity.

(** The first loop of [buildFormSections]: the form fields in entry
    order, each with the group it is filed under. *)
Definition formFieldEntries (entity : EntityDef) : list (string * GroupedField) :=
  flat_map
    (fun kf =>
       let '(k, field) := kf in
       if negb (truthy_bool (in_form_view field)) then []
       else if truthy_bool (read_only field) || truthy_bool (hidden field) then []
       else [ (or_str (form_group field) "_default",
               {| gf_field := field; gf_key := k;
                  gf_order := or_num (form_order field) 99 |}) ])
    (ent_fields entity).

(** [groupedFields[group]]: empty where the source has [undefined]. *)
Definition groupedFields (entity : EntityDef) (group : string) : list GroupedField :=
  map snd (List.filter (fun e => String.eqb (fst e) group) (formFieldEntries entity)).

Definition flatSection (label : string) (cols : Q) (skill : string)
    (fs : list GroupedField) : FormSectionSpec :=
  {| section_label := label;
     columns := Some cols;
     section_type := None;
     section_key := None;
     min_rows := None;
     fields := map (fun f => fieldDefToFormField (gf_key f) (gf_field f) skill)
                   (sort_by by_order_asc fs) |}.

Definition findChild (children : list (string * ChildEntityDef))
    (resolvedEntityKey : string) : option ChildEntityDef :=
  option_map snd
    (find (fun cd => String.eqb (parent_entity (snd cd)) resolvedEntityKey) children).

(** One turn of the loop over the sorted groups: the sections it pushes. *)
Definition groupSections (entity : EntityDef) (skill : string)
    (childEntities : option (list (string * ChildEntityDef)))
    (resolvedEntityKey : string) (g : string * FormGroupDef)
    : list FormSectionSpec :=
  let '(groupKey, groupDef) := g in
  let fs := groupedFields entity groupKey in
  let plain :=
    match fs with
    | [] => []
    | _ => [flatSection (fg_label groupDef) (or_num (fg_columns groupDef) 1) skill fs]
    end in
  if str_is (fg_type groupDef) "child_table" then
    match findChild (or_empty childEntities) resolvedEntityKey with
    | Some childDef =>
        [repeatableSection (fg_label groupDef)
           (or_str (child_param_name childDef) "items")
           (childFieldsOf childDef skill)]
    | None => []
    end
  else
    match fs, childEntities with
    | _ :: _, Some children =>
        match find (fun f => String.eqb (fd_type (gf_field f)) "json") fs with
        | Some jsonField =>
            match findChild children resolvedEntityKey with
            | Some childDef =>
                [repeatableSection (fg_label groupDef)
                   (or_str (child_param_name childDef) (gf_key jsonField))
                   (childFieldsOf childDef skill)]
            | None => plain
            end
        | None => plain
        end
    | _, _ => plain
    end.

Definition buildFormSections (entity : EntityDef) (skill : string)
    (childEntities : option (list (string * ChildEntityDef)))
    (entityKey : option string) : list FormSectionSpec :=
  let formGroups := or_empty (form_groups entity) in
  let sortedGroups := sort_by by_group_order formGroups in
  let resolvedEntityKey := or_str entityKey (findEntityKey entity) in
  flat_map (groupSections entity skill childEntities resolvedEntityKey) sortedGroups
  ++ match groupedFields entity "_default" with
     | [] => []
     | defaultFields => [flatSection "Details" 2 skill defaultFields]
     end.

(** One turn of the loop of [buildFormSectionsFromFormView]. *)
Definition viewGroupSections (entity : EntityDef)
    (childEntities : list (string * ChildEntityDef)) (skill : string)
    (group : FormViewGroup) : list FormSectionSpec :=
  if str_is (vg_type group) "child_table"
     && truthy_str (vg_child_entity group)
  then
    match lookup (or_str (vg_child_entity group) "") childEntities with
    | Some childDef =>
        [repeatableSection (vg_label group)
           (or_str (child_param_name childDef) "items")
           (childFieldsOf childDef skill)]
    | None => []
    end
  else
    match vg_fields group with
    | Some fieldKeys =>
        let formFields :=
          flat_map
            (fun fieldKey =>
               match lookup fieldKey (ent_fields entity) with
               | Some fieldDef =>
                   if truthy_bool (read_only fieldDef) || truthy_bool (hidden fieldDef)
                   then []
                   else [fieldDefToFormField fieldKey fieldDef skill]
               | None => []
               end)
            fieldKeys in
        match formFields with
        | [] => []
        | _ =>
            [ {| section_label := vg_label group;
                 columns := Some (or_num (vg_columns group) 1);
                 section_type := None;
                 section_key := None;
                 min_rows := None;
                 fields := formFields |} ]
        end
    | None => []
    end.

Definition buildFormSectionsFromFormView (formView : list FormViewGroup)
    (entity : EntityDef) (childEntities : list (string * ChildEntityDef))
    (skill : string) : list FormSectionSpec :=
  flat_map (viewGroupSections entity childEntities skill) formView.

Section WithCase.
Context `{CaseOps}.

Definition generateFormSpec (config : UIConfig) (action : string)
    : option FormSpec :=
  actionEntry ← lookup action (action_map config);
  if negb (str_is (component actionEntry) "FormView")
  then None
  else if negb (truthy_str (am_entity actionEntry)) then None
  else
    entity ← lookup (or_str (am_entity actionEntry) "") (entities config);
    let sections :=
      match views_form entity with
      | Some formView =>
          buildFormSectionsFromFormView formView entity
            (or_empty (child_entities config)) (skill config)
      | None =>
          buildFormSections entity (skill config) (child_entities config)
            (am_entity actionEntry)
      end in
    match sections with
    | [] => None
    | _ =>
        let isCreate := str_is (mode actionEntry) "create" in
        let verb := if isCreate then "New" else "Edit" in
        Some {| title := verb +:+ " " +:+ ent_label entity;
                spec_description :=
                  if negb (String.eqb (label_plural entity) "")
                  then Some ((if isCreate then "Create" else "Update")
                             +:+ " a " +:+ toLowerCase (ent_label entity))
                  else None;
                submit_action := action;
                submit_label :=
                  Some ((if isCreate then "Create " else "Update ")
                        +:+ ent_label entity);
                sections := sections |}
    end.
End WithCase.

(** ** Auxiliary notions for the statements *)


(** The pluralisation as the specification words it: a trailing y becomes
    ies, a trailing s becomes es, otherwise s is appended. *)
Definition pluralize_documented (kebab : string) : string :=
  if endsWith kebab "y" then drop_last kebab +:+ "ies"
  else if endsWith kebab "s" then kebab +:+ "es"
  else kebab +:+ "s".






End UiYamlToForm.

(* ================================================================== *)
(** * Auto form specs from parameter metadata ([auto-form-spec.ts])    *)
(* ================================================================== *)

Module AutoFormSpec.
Import Js FormSpecTypes.

(** ** [param-schema.ts] and [child-table-schema.ts] *)

Record ParamField : Type := {
  name : string;
  pf_label : string;
  pf_type : string;
  pf_required : bool;
  pf_default : option string;
  pf_step : option Q;
  pf_description : option string;
  pf_options : option (list (string * string));
  lookup_action : option string;
  lookup_skill : option string
}.

Record ActionParamSchema : Type := {
  action_type : string;
  entity_group : option string;
  required_params : list ParamField;       (* [required] *)
  optional_params : list ParamField        (* [optional] *)
}.

Record ParamSchema : Type := {
  ps_skill : string;
  actions : list (string * ActionParamSchema)
}.

Record ChildTableField : Type := {
  ct_key : string;
  ct_label : string;
  ct_type : option string;
  ct_required : option bool;
  ct_default : option string;
  ct_min : option Q;
  ct_step : option Q;
  ct_entity_action : option string;
  ct_entity_skill : option string;
  ct_entity_value_field : option string;
  ct_entity_display_field : option string
}.

Record ChildTableInfo : Type := {
  ct_table : string;
  ct_param_name : string;
  ct_fields : list ChildTableField
}.

Record ChildTableSchema : Type := {
  cts_skill : string;
  child_tables : list (string * list ChildTableInfo)
}.

(** ** Title derivation *)

Definition ACTION_PREFIXES : list (string * string) :=
  [ ("add-", "New "); ("create-", "New "); ("update-", "Update ");
    ("submit-", "Submit "); ("cancel-", "Cancel "); ("delete-", "Delete ");
    ("confirm-", "Confirm "); ("complete-", "Complete ");
    ("approve-", "Approve "); ("reject-", "Reject "); ("check-", "Check ");
    ("get-", ""); ("list-", ""); ("seed-", "Setup "); ("setup-", "Setup ");
    ("generate-", "Generate "); ("compute-", "Compute ");
    ("validate-", "Validate ") ].

Definition deriveSubmitLabel (action : string) : string :=
  if startsWith action "add-" || startsWith action "create-" then "Create"
  else if startsWith action "update-" then "Update"
  else if startsWith action "submit-" then "Submit"
  else if startsWith action "cancel-" then "Cancel"
  else if startsWith action "delete-" then "Delete"
  else if startsWith action "confirm-" then "Confirm"
  else if startsWith action "complete-" then "Complete"
  else if startsWith action "approve-" then "Approve"
  else if startsWith action "reject-" then "Reject"
  else if startsWith action "check-" then "Check"
  else if startsWith action "generate-" then "Generate"
  else if startsWith action "compute-" then "Compute"
  else if startsWith action "seed-" || startsWith action "setup-" then "Run Setup"
  else "Execute".

Definition deriveEntity (action : string) : string :=
  match find (fun p => startsWith action (fst p)) ACTION_PREFIXES with
  | Some (prefix, _) =>
      replace_char "-" "_" (slice_from (String.length prefix) action)
  | None => replace_char "-" "_" action
  end.

Definition PARAM_TYPE_TO_FIELD_TYPE : list (string * string) :=
  [ ("text", "text"); ("number", "number"); ("currency", "currency");
    ("date", "date"); ("time", "text"); ("textarea", "textarea");
    ("select", "select"); ("entity-lookup", "entity-lookup");
    ("boolean", "boolean"); ("email", "text"); ("phone", "text") ].

Definition AUTO_HIDDEN_FIELDS : list string := ["company-id"].

(** [s.replace(/-id$/, "")] *)
Definition strip_id_suffix (s : string) : string :=
  if endsWith s "-id" then drop_last (drop_last (drop_last s)) else s.

Section WithCase.
Context `{CaseOps}.

Definition kebabToTitle (kebab : string) : string :=
  join " "
    (map (fun w => toUpperCase (charAt0 w) +:+ slice_from 1 w) (split "-" kebab)).

Definition deriveTitle (action : string) : string :=
  match find (fun p => startsWith action (fst p)) ACTION_PREFIXES with
  | Some (prefix, label) =>
      trim (label +:+ kebabToTitle (slice_from (String.length prefix) action))
  | None => kebabToTitle action
  end.

Definition paramToField (param : ParamField) (skill : string) : FormFieldSpec :=
  let fieldType := or_str (lookup (pf_type param) PARAM_TYPE_TO_FIELD_TYPE) "text" in
  let ft t := String.eqb fieldType t in
  let pt t := String.eqb (pf_type param) t in
  (* the placeholder chain: placeholder, min, step *)
  let '(ph, mn, st) :=
    if ft "date" then (Some "YYYY-MM-DD", None, None)
    else if pt "time" then (Some "HH:MM", None, None)
    else if pt "email" then (Some "email@example.com", None, None)
    else if pt "phone" then (Some "+1 (555) 000-0000", None, None)
    else if ft "entity-lookup"
         then (Some ("Search " +:+ toLowerCase (pf_label param) +:+ "..."),
               None, None)
    else if ft "currency"
         then (Some "0.00", Some (NumLit 0), Some (NumLit (1 # 100)))
    else if ft "number"
         then (None, None,
               Some (NumLit (match pf_step param with
                             | Some q => q
                             | None => 1%Q
                             end)))
    else (None, None, None) in
  let lookedUp := ft "entity-lookup" && truthy_str (lookup_action param) in
  let entityName := strip_id_suffix (name param) in
  {| key := name param;
     label := pf_label param;
     type := fieldType;
     required := Some (pf_required param);
     default := option_map VString (pf_default param);
     placeholder := ph;
     helpText := None;
     description :=
       if truthy_str (pf_description param) then pf_description param else None;
     min := mn;
     max := None;
     step := st;
     options :=
       match pf_options param with
       | Some (o :: os) => Some (o :: os)
       | _ => None
       end;
     entity_skill :=
       if lookedUp && truthy_str (lookup_skill param)
          && negb (String.eqb (or_str (lookup_skill param) "") skill)
       then lookup_skill param else None;
     entity_action := if lookedUp then lookup_action param else None;
     entity_value_field := if lookedUp then Some "id" else None;
     entity_display_field :=
       if lookedUp
       then Some (if includes entityName "account" then "account_name"
                  else if includes entityName "employee" then "employee_name"
                  else "name")
       else None |}.

(** A row field of a matched child table. *)
Definition childRowField (f : ChildTableField) : FormFieldSpec :=
  {| key := ct_key f;
     label := ct_label f;
     type := or_str (ct_type f) "text";
     required := ct_required f;
     default := option_map VString (ct_default f);
     placeholder :=
       if str_is (ct_type f) "entity-lookup"
       then Some ("Search " +:+ toLowerCase (ct_label f) +:+ "...")
       else if str_is (ct_type f) "currency" then Some "0.00"
       else None;
     helpText := None;
     description := None;
     min := option_map NumLit (ct_min f);
     max := None;
     step := option_map NumLit (ct_step f);
     options := None;
     entity_skill := ct_entity_skill f;
     entity_action := ct_entity_action f;
     entity_value_field := ct_entity_value_field f;
     entity_display_field := ct_entity_display_field f |}.

Definition formActions : list string :=
  ["create"; "update"; "setup"; "action"; "status-transition"; "utility"].

Definition is_json (p : ParamField) : bool := String.eqb (pf_type p) "json".
Definition is_auto_hidden (p : ParamField) : bool := has (name p) AUTO_HIDDEN_FIELDS.
Definition is_regular (p : ParamField) : bool :=
  negb (is_json p) && negb (is_auto_hidden p).

Definition fieldsSection (label : string) (n : nat) (fs : list FormFieldSpec)
    : FormSectionSpec :=
  {| section_label := label;
     columns := Some (if Nat.ltb 1 n then 2 else 1)%Q;
     section_type := None;
     section_key := None;
     min_rows := None;
     fields := fs |}.

(** The section pushed for one JSON parameter. *)
Definition jsonSection (childTables : option (list ChildTableInfo))
    (jsonParam : ParamField) : FormSectionSpec :=
  let matchedChild :=
    cts ← childTables;
    find (fun ct => String.eqb (ct_param_name ct) (name jsonParam)) cts in
  match matchedChild with
  | Some (Build_ChildTableInfo _ _ (f :: fs)) =>
      {| section_label := pf_label jsonParam;
         columns := None;
         section_type := Some "repeatable";
         section_key := Some (name jsonParam);
         min_rows := Some 1%Q;
         fields := map childRowField (f :: fs) |}
  | _ =>
      {| section_label := pf_label jsonParam;
         columns := Some 1%Q;
         section_type := None;
         section_key := None;
         min_rows := None;
         fields :=
           [ {| key := name jsonParam;
                label := pf_label jsonParam;
                type := "textarea";
                required := Some (pf_required jsonParam);
                default := None;
                placeholder :=
                  Some ("Enter " +:+ toLowerCase (pf_label jsonParam)
                        +:+ " as JSON array...");
                helpText := Some "JSON format: [{...}, {...}]";
                description := None;
                min := None; max := None; step := None; options := None;
                entity_skill := None; entity_action := None;
                entity_value_field := None; entity_display_field := None |} ] |}
  end.

(** [sections[0].fields.unshift(f)] *)
Definition unshiftFirst (sections : list FormSectionSpec) (f : FormFieldSpec)
    : list FormSectionSpec :=
  match sections with
  | [] => []
  | s0 :: rest =>
      {| section_label := section_label s0;
         columns := columns s0;
         section_type := section_type s0;
         section_key := section_key s0;
         min_rows := min_rows s0;
         fields := f :: fields s0 |} :: rest
  end.

(** The sections pushed before the hidden required fields are added:
    required fields, optional fields, one section per JSON parameter. *)
Definition baseSections (skill action : string) (paramSchema : ActionParamSchema)
    (childTableSchema : option ChildTableSchema) : list FormSectionSpec :=
  let allParams := (required_params paramSchema ++ optional_params paramSchema)%list in
  let regularRequired := List.filter is_regular (required_params paramSchema) in
  let regularOptional := List.filter is_regular (optional_params paramSchema) in
  let jsonFields := List.filter is_json allParams in
  let section1 :=
    match regularRequired with
    | [] => []
    | _ =>
        [fieldsSection
           (if truthy_str (entity_group paramSchema)
            then or_str (entity_group paramSchema) ""
            else deriveTitle action)
           (List.length regularRequired)
           (map (fun p => paramToField p skill) regularRequired)]
    end in
  let section2 :=
    match regularOptional with
    | [] => []
    | _ =>
        [fieldsSection "Additional Details" (List.length regularOptional)
           (map (fun p => paramToField p skill) regularOptional)]
    end in
  let entity := deriveEntity action in
  let childTables :=
    cts ← childTableSchema; lookup entity (child_tables cts) in
  (section1 ++ section2 ++ map (jsonSection childTables) jsonFields)%list.

Definition generateAutoFormSpec (skill action : string)
    (paramSchema : ActionParamSchema)
    (childTableSchema : option ChildTableSchema) : option FormSpec :=
  if negb (has (action_type paramSchema) formActions) then None
  else
    match (required_params paramSchema ++ optional_params paramSchema)%list with
    | [] => None
    | _ =>
        let hiddenRequired :=
          List.filter is_auto_hidden (required_params paramSchema) in
        let sections := baseSections skill action paramSchema childTableSchema in
        let sections :=
          match hiddenRequired, sections with
          | _ :: _, _ :: _ =>
              fold_left (fun secs hp => unshiftFirst secs (paramToField hp skill))
                        hiddenRequired sections
          | _, _ => sections
          end in
        Some {| title := deriveTitle action;
                spec_description := None;
                submit_action := action;
                submit_label := Some (deriveSubmitLabel action);
                sections := sections |}
    end.
End WithCase.

(** ** Auxiliary notions for the statements *)

(** The child table [generateAutoFormSpec] matches with a JSON parameter:
    among the tables of the entity of the action, the first one declared
    for the name of the parameter. *)
Definition matchedChild (childTableSchema : option ChildTableSchema)
    (action : string) (jsonParam : ParamField) : option ChildTableInfo :=
  cts ← childTableSchema;
  tables ← lookup (deriveEntity action) (child_tables cts);
  find (fun ct => String.eqb (ct_param_name ct) (name jsonParam)) tables.

(** [sec] is the section of the JSON parameter [p], given the child
    table matched with it, with the fields [pre] put before its own:
    repeatable rows of the fields of the table when it has any, a single
    text area otherwise. *)
Definition json_section_of `{CaseOps} (pre : list FormFieldSpec)
    (matched : option ChildTableInfo) (p : ParamField) (sec : FormSectionSpec)
    : Prop :=
  section_label sec = pf_label p
  /\ match matched with
     | Some (Build_ChildTableInfo _ _ (f :: fs)) =>
         section_type sec = Some "repeatable"
         /\ section_key sec = Some (name p)
         /\ min_rows sec = Some 1%Q
         /\ fields sec = (pre ++ map childRowField (f :: fs))%list
     | _ =>
         section_type sec = None
         /\ section_key sec = None
         /\ exists f, fields sec = (pre ++ [f])%list
              /\ key f = name p /\ type f = "textarea"
              /\ required f = Some (pf_required p)
     end.

End AutoFormSpec.

(* ================================================================== *)
(** * The skill page's resolver ([resolveFormSpec])                    *)
(* ================================================================== *)

Module SkillPage.
Import Js FormSpecTypes.

Section WithCase.
Context `{CaseOps}.

(** The hooks' values the closure reads: [skill], [uiConfig] and
    [uiConfigLoading] from [useUIConfig], [paramSchema] from
    [useParamSchema], [childTableSchema] from [useChildTableSchema]. *)
Definition resolveFormSpec (skill : string)
    (uiConfig : option UiYamlToForm.UIConfig) (uiConfigLoading : bool)
    (paramSchema : option AutoFormSpec.ParamSchema)
    (childTableSchema : option AutoFormSpec.ChildTableSchema)
    (action : string) : option FormSpec :=
  match (cfg ← uiConfig; UiYamlToForm.generateFormSpec cfg action) with
  | Some spec => Some spec
  | None =>
      if uiConfigLoading then None
      else
        match (ps ← paramSchema; lookup action (AutoFormSpec.actions ps)) with
        | Some aps =>
            AutoFormSpec.generateAutoFormSpec skill action aps childTableSchema
        | None => None
        end
  end.
End WithCase.

(** ** The state [useUIConfig] hands to the page ([ui-config.ts]) *)

Record UIConfigHook : Type := {
  config : option UiYamlToForm.UIConfig;
  loading : bool
}.

(** [useState(null)], [useState(true)] *)
Definition hook_initial : UIConfigHook := {| config := None; loading := true |}.

(** The effect on a skill change: a fresh cache entry is taken at once,
    otherwise the previous config stays while the fetch runs. *)
Definition hook_effect (cached : option UiYamlToForm.UIConfig) (h : UIConfigHook)
    : UIConfigHook :=
  match cached with
  | Some c => {| config := Some c; loading := false |}
  | None => {| config := config h; loading := true |}
  end.

(** The fetch settles with a config or with null. *)
Definition hook_fetched (c : option UiYamlToForm.UIConfig) (h : UIConfigHook)
    : UIConfigHook :=
  {| config := c; loading := false |}.

End SkillPage.

(* ================================================================== *)
(** * The confirmation card ([confirmation-card.tsx])                  *)
(* ================================================================== *)

Module ConfirmationCard.
Import Js.

(** ** [composition-types.ts] *)

Inductive Source : Type :=
| explicit | conversation | session | history | default_source | inference.

Record ResolvedField : Type := {
  field : string;
  value : Value;
  confidence : Q;
  source : Source;
  source_detail : string
}.

Record CompositionResult : Type := {
  action : string;
  resolved_fields : list ResolvedField;
  unresolved_fields : list string;
  summary : string;
  show_full_form : bool
}.

(** The component state the submit path reads. *)
Record CardState : Type := {
  resolvedOverrides : gmap string Value;
  unresolvedValues : gmap string string
}.

(** What [handleSubmit] does to the outside, in order. *)
Inductive Effect : Type :=
| SetSubmitting (b : bool)
| OnSubmit (params : gmap string Value).

(** [o ?? d] *)
Definition nullish_or (o : option Value) (d : Value) : Value :=
  match o with
  | None | Some VUndefined | Some VNull => d
  | Some v => v
  end.

(** Truthiness of a value *)
Definition truthy_value (v : Value) : bool :=
  match v with
  | VUndefined | VNull => false
  | VBoolean b => b
  | VNumber q => negb (Qeq_bool q 0)
  | VString s => negb (String.eqb s "")
  | VObject | VFunction => true
  end.

(** [resolvedOverrides[k]] and [unresolvedValues[f]].  Both objects start
    as [{}] and get their entries by spreading: a key without an entry
    reads the member every object inherits under that name, if any. *)
Definition readOverride (st : CardState) (k : string) : option Value :=
  match resolvedOverrides st !! k with
  | Some v => Some v
  | None => inherited k
  end.

Definition readUnresolved (st : CardState) (f : string) : option Value :=
  match unresolvedValues st !! f with
  | Some s => Some (VString s)
  | None => inherited f
  end.

Definition hasUnresolved (composition : CompositionResult) : bool :=
  Nat.ltb 0 (List.length (unresolved_fields composition)).

(** [(x || "").trim() !== ""].  [None] is the TypeError of a truthy [x]
    that is no string and so has no [trim]. *)
Definition filled (x : option Value) : option bool :=
  match x with
  | Some (VString s) => Some (negb (String.eqb (trim s) ""))
  | Some v => if truthy_value v then None else Some false
  | None => Some false
  end.

(** [fields.every(f => ...)]: it stops at the first field that is not
    filled. *)
Fixpoint every_filled (st : CardState) (l : list string) : option bool :=
  match l with
  | [] => Some true
  | f :: rest =>
      match filled (readUnresolved st f) with
      | Some true => every_filled st rest
      | other => other
      end
  end.

(** [None]: the render throws. *)
Definition allUnresolvedFilled (composition : CompositionResult) (st : CardState)
    : option bool :=
  every_filled st (unresolved_fields composition).

Definition canSubmit (composition : CompositionResult) (st : CardState)
    : option bool :=
  option_map (fun allFilled => negb (hasUnresolved composition) || allFilled)
             (allUnresolvedFilled composition st).

(** The two loops that fill [params].  (An assignment to the key
    [__proto__] is not modelled apart: it is taken as any other.) *)
Definition putResolved (st : CardState) (params : gmap string Value)
    (f : ResolvedField) : gmap string Value :=
  <[field f := nullish_or (readOverride st (field f)) (value f)]> params.

Definition putUnresolved (st : CardState) (params : gmap string Value)
    (f : string) : gmap string Value :=
  <[f := match readUnresolved st f with
         | Some v => if truthy_value v then v else VString ""
         | None => VString ""
         end]> params.

Definition buildParams (composition : CompositionResult) (st : CardState)
    : gmap string Value :=
  fold_left (putUnresolved st) (unresolved_fields composition)
    (fold_left (putResolved st) (resolved_fields composition) ∅).

(** [handleSubmit] of the card that was rendered; when the render threw
    there is no card, and nothing to call. *)
Definition handleSubmit (composition : CompositionResult) (st : CardState)
    : list Effect :=
  match canSubmit composition st with
  | Some true =>
      [SetSubmitting true; OnSubmit (buildParams composition st);
       SetSubmitting false]
  | Some false | None => []
  end.

(** The parameter set as the specification words it: the resolved
    fields, each with the override the user gave it, if any, united with
    what the user entered for the unresolved fields. *)
Definition putResolved_documented (st : CardState) (params : gmap string Value)
    (f : ResolvedField) : gmap string Value :=
  <[field f := nullish_or (resolvedOverrides st !! field f) (value f)]> params.

Definition putUnresolved_documented (st : CardState) (params : gmap string Value)
    (f : string) : gmap string Value :=
  <[f := VString (or_str (unresolvedValues st !! f) "")]> params.

Definition documentedParams (composition : CompositionResult) (st : CardState)
    : gmap string Value :=
  fold_left (putUnresolved_documented st) (unresolved_fields composition)
    (fold_left (putResolved_documented st) (resolved_fields composition) ∅).

(** ** Confidence bands *)

(** The double the literal [0.8] denotes. *)
Definition HIGH_CONFIDENCE : Q := 3602879701896397 # 4503599627370496.

(** [a >= b] and [a < b] on numbers *)
Definition num_ge (a b : Q) : bool :=
  match (a ?= b)%Q with Lt => false | _ => true end.

Definition num_lt (a b : Q) : bool :=
  match (a ?= b)%Q with Lt => true | _ => false end.

Definition highConfidence (composition : CompositionResult) : list ResolvedField :=
  List.filter (fun f => num_ge (confidence f) HIGH_CONFIDENCE)
              (resolved_fields composition).

Definition lowConfidence (composition : CompositionResult) : list ResolvedField :=
  List.filter (fun f => num_lt (confidence f) HIGH_CONFIDENCE)
              (resolved_fields composition).

End ConfirmationCard.

(* ================================================================== *)
(** * The live-update channel ([EventsProvider])                       *)
(* ================================================================== *)

Module Events.

Inductive ConnectionStatus : Type := connected | connecting | disconnected.

Definition MAX_BACKOFF : Z := 30000.
Definition BASE_BACKOFF : Z := 1000.

(** The refs and state of the provider, and the delays handed to
    [setTimeout] so far (oldest first). *)
Record Channel : Type := {
  status : ConnectionStatus;
  retryRef : nat;
  mountedRef : bool;
  esRef : bool;                 (* an EventSource is held *)
  timeouts : list Z
}.

(** What happens to the provider. *)
Inductive Event : Type :=
| Mount (token : bool)          (* the effect runs [connect()] *)
| Unmount
| Open                          (* [es.onopen] *)
| Error                         (* [es.onerror] *)
| Timer (token : bool).         (* a reconnect timer fires *)

(** [Math.min(BASE_BACKOFF * 2 ** retry, MAX_BACKOFF)] *)
Definition backoff (retry : nat) : Z :=
  Z.min (BASE_BACKOFF * 2 ^ Z.of_nat retry) MAX_BACKOFF.

Definition connect (token : bool) (c : Channel) : Channel :=
  if negb token || negb (mountedRef c)
  then {| status := disconnected; retryRef := retryRef c;
          mountedRef := mountedRef c; esRef := esRef c; timeouts := timeouts c |}
  else {| status := connecting; retryRef := retryRef c;
          mountedRef := mountedRef c; esRef := true; timeouts := timeouts c |}.

Definition onopen (c : Channel) : Channel :=
  if negb (mountedRef c) then c
  else {| status := connected; retryRef := 0;
          mountedRef := mountedRef c; esRef := esRef c; timeouts := timeouts c |}.

Definition onerror (c : Channel) : Channel :=
  if negb (mountedRef c)
  then {| status := status c; retryRef := retryRef c;
          mountedRef := mountedRef c; esRef := false; timeouts := timeouts c |}
  else {| status := disconnected; retryRef := S (retryRef c);
          mountedRef := mountedRef c; esRef := false;
          timeouts := (timeouts c ++ [backoff (retryRef c)])%list |}.

Definition step (c : Channel) (e : Event) : Channel :=
  match e with
  | Mount token =>
      connect token {| status := status c; retryRef := retryRef c;
                       mountedRef := true; esRef := esRef c;
                       timeouts := timeouts c |}
  | Unmount =>
      {| status := status c; retryRef := retryRef c; mountedRef := false;
         esRef := false; timeouts := timeouts c |}
  | Open => onopen c
  | Error => onerror c
  | Timer token => if mountedRef c then connect token c else c
  end.

Definition run (c : Channel) (es : list Event) : Channel := fold_left step es c.

(** The provider before its effect has run. *)
Definition initial : Channel :=
  {| status := disconnected; retryRef := 0; mountedRef := true;
     esRef := false; timeouts := [] |}.

(** [n] failed attempts in a row: each error is followed by its timer. *)
Fixpoint failures (n : nat) : list Event :=
  match n with
  | O => []
  | S m => Error :: Timer true :: failures m
  end.

(** The delays of [n] failures in a row, from retry count [r]. *)
Fixpoint delays_from (r n : nat) : list Z :=
  match n with
  | O => []
  | S m => backoff r :: delays_from (S r) m
  end.

End Events.

(* ================================================================== *)
(** * Sample inputs                                                    *)
(* ================================================================== *)

Module Examples.
Import Js FormSpecTypes.

(** ** A UI.yaml configuration with one form *)

Definition field (type label : string) (required : bool) : UiYamlToForm.FieldDef :=
  {| UiYamlToForm.fd_type := type;
     UiYamlToForm.fd_label := label;
     UiYamlToForm.fd_required := Some required;
     UiYamlToForm.read_only := None;
     UiYamlToForm.hidden := None;
     UiYamlToForm.fd_default := None;
     UiYamlToForm.fd_placeholder := None;
     UiYamlToForm.help_text := None;
     UiYamlToForm.fd_min := None;
     UiYamlToForm.fd_max := None;
     UiYamlToForm.precision := None;
     UiYamlToForm.fd_options := None;
     UiYamlToForm.link_entity := None;
     UiYamlToForm.link_display_field := None;
     UiYamlToForm.link_search_action := None;
     UiYamlToForm.param_name := None;
     UiYamlToForm.in_form_view := Some true;
     UiYamlToForm.form_group := None;
     UiYamlToForm.form_order := None |}.

Definition hidden_field (type label : string) : UiYamlToForm.FieldDef :=
  {| UiYamlToForm.fd_type := type;
     UiYamlToForm.fd_label := label;
     UiYamlToForm.fd_required := Some false;
     UiYamlToForm.read_only := None;
     UiYamlToForm.hidden := Some true;
     UiYamlToForm.fd_default := None;
     UiYamlToForm.fd_placeholder := None;
     UiYamlToForm.help_text := None;
     UiYamlToForm.fd_min := None;
     UiYamlToForm.fd_max := None;
     UiYamlToForm.precision := None;
     UiYamlToForm.fd_options := None;
     UiYamlToForm.link_entity := None;
     UiYamlToForm.link_display_field := None;
     UiYamlToForm.link_search_action := None;
     UiYamlToForm.param_name := None;
     UiYamlToForm.in_form_view := Some true;
     UiYamlToForm.form_group := None;
     UiYamlToForm.form_order := None |}.

Definition customer_entity : UiYamlToForm.EntityDef :=
  {| UiYamlToForm.ent_label := "Customer";
     UiYamlToForm.label_plural := "Customers";
     UiYamlToForm.table := "customer";
     UiYamlToForm.ent_fields :=
       [ ("customer_name", field "text" "Customer Name" true);
         ("customer_type", field "select" "Customer Type" false);
         ("company_id", hidden_field "link" "Company") ];
     UiYamlToForm.form_groups := None;
     UiYamlToForm.views_form := None |}.

Definition selling_config : UiYamlToForm.UIConfig :=
  {| UiYamlToForm.skill := "erpclaw-selling";
     UiYamlToForm.entities := [("customer", customer_entity)];
     UiYamlToForm.child_entities := None;
     UiYamlToForm.action_map :=
       [ ("add-customer",
          {| UiYamlToForm.component := Some "FormView";
             UiYamlToForm.am_entity := Some "customer";
             UiYamlToForm.mode := Some "create" |}) ] |}.

(** ** Parameter metadata for the same action *)

Definition param (name label type : string) (required : bool)
    : AutoFormSpec.ParamField :=
  {| AutoFormSpec.name := name;
     AutoFormSpec.pf_label := label;
     AutoFormSpec.pf_type := type;
     AutoFormSpec.pf_required := required;
     AutoFormSpec.pf_default := None;
     AutoFormSpec.pf_step := None;
     AutoFormSpec.pf_description := None;
     AutoFormSpec.pf_options := None;
     AutoFormSpec.lookup_action := None;
     AutoFormSpec.lookup_skill := None |}.

Definition customer_type_param : AutoFormSpec.ParamField :=
  {| AutoFormSpec.name := "customer-type";
     AutoFormSpec.pf_label := "Customer Type";
     AutoFormSpec.pf_type := "select";
     AutoFormSpec.pf_required := false;
     AutoFormSpec.pf_default := None;
     AutoFormSpec.pf_step := None;
     AutoFormSpec.pf_description := None;
     AutoFormSpec.pf_options :=
       Some [("Company", "Company"); ("Individual", "Individual")];
     AutoFormSpec.lookup_action := None;
     AutoFormSpec.lookup_skill := None |}.

Definition company_id_param : AutoFormSpec.ParamField :=
  param "company-id" "Company" "text" true.

Definition add_customer_params : AutoFormSpec.ActionParamSchema :=
  {| AutoFormSpec.action_type := "create";
     AutoFormSpec.entity_group := None;
     AutoFormSpec.required_params :=
       [ company_id_param; param "customer-name" "Customer Name" "text" true ];
     AutoFormSpec.optional_params := [ customer_type_param ] |}.

Definition selling_params : AutoFormSpec.ParamSchema :=
  {| AutoFormSpec.ps_skill := "erpclaw-selling";
     AutoFormSpec.actions := [("add-customer", add_customer_params)] |}.





(** An invoice action with a JSON parameter for its lines, and the child
    table declared for that parameter. *)
Definition items_param : AutoFormSpec.ParamField :=
  param "items" "Items" "json" true.

Definition add_invoice_params : AutoFormSpec.ActionParamSchema :=
  {| AutoFormSpec.action_type := "create";
     AutoFormSpec.entity_group := None;
     AutoFormSpec.required_params :=
       [ company_id_param; param "customer-id" "Customer" "text" true; items_param ];
     AutoFormSpec.optional_params := [] |}.

Definition row_field (key label type : string) : AutoFormSpec.ChildTableField :=
  {| AutoFormSpec.ct_key := key;
     AutoFormSpec.ct_label := label;
     AutoFormSpec.ct_type := Some type;
     AutoFormSpec.ct_required := Some true;
     AutoFormSpec.ct_default := None;
     AutoFormSpec.ct_min := None;
     AutoFormSpec.ct_step := None;
     AutoFormSpec.ct_entity_action := None;
     AutoFormSpec.ct_entity_skill := None;
     AutoFormSpec.ct_entity_value_field := None;
     AutoFormSpec.ct_entity_display_field := None |}.

Definition invoice_item_table : AutoFormSpec.ChildTableInfo :=
  {| AutoFormSpec.ct_table := "sales_invoice_item";
     AutoFormSpec.ct_param_name := "items";
     AutoFormSpec.ct_fields :=
       [ row_field "item_id" "Item" "text"; row_field "qty" "Quantity" "number" ] |}.

Definition selling_child_tables : AutoFormSpec.ChildTableSchema :=
  {| AutoFormSpec.cts_skill := "erpclaw-selling";
     AutoFormSpec.child_tables := [ ("sales_invoice", [ invoice_item_table ]) ] |}.


(** An action whose only parameter is the gateway-injected company. *)
Definition seed_defaults_params : AutoFormSpec.ActionParamSchema :=
  {| AutoFormSpec.action_type := "setup";
     AutoFormSpec.entity_group := None;
     AutoFormSpec.required_params := [ company_id_param ];
     AutoFormSpec.optional_params := [] |}.

(** ** A composition with one field left to the user *)

Definition resolved (name value : string) (confidence : Q)
    : ConfirmationCard.ResolvedField :=
  {| ConfirmationCard.field := name;
     ConfirmationCard.value := VString value;
     ConfirmationCard.confidence := confidence;
     ConfirmationCard.source := ConfirmationCard.conversation;
     ConfirmationCard.source_detail := "" |}.

Definition sample_composition : ConfirmationCard.CompositionResult :=
  {| ConfirmationCard.action := "add-customer";
     ConfirmationCard.resolved_fields :=
       [ resolved "customer_type" "Company" ConfirmationCard.HIGH_CONFIDENCE;
         resolved "territory" "US" (1 # 2) ];
     ConfirmationCard.unresolved_fields := ["customer_name"];
     ConfirmationCard.summary := "Create customer";
     ConfirmationCard.show_full_form := false |}.

Definition sample_state : ConfirmationCard.CardState :=
  {| ConfirmationCard.resolvedOverrides := {[ "territory" := VString "EU" ]};
     ConfirmationCard.unresolvedValues := {[ "customer_name" := "Acme" ]} |}.

End Examples.

(* ================================================================== *)
(** * Further parts of the sources                                     *)
(* ================================================================== *)

Module Patterns.
Import Js Introspection.

(** Characters of an amount: digits and the point. *)
Definition amount_char (c : ascii) : bool := is_digit c || Ascii.eqb c ".".

End Patterns.

Module FormSpecAux.
Import Js FormSpecTypes.

(** The members of the [FieldType] union of [form-spec.ts]. *)
Definition FieldTypes : list string :=
  ["text"; "number"; "currency"; "date"; "textarea"; "select";
   "entity-lookup"; "boolean"].


End FormSpecAux.

(* ------------------------------------------------------------------ *)
(** ** Message dispatch of the [EventsProvider]                         *)

Module EventsDispatch.
Import Js.

(** A parsed frame: its [type], if it has one, and the rest of it. *)
Record SSEEvent : Type := {
  ev_type : option string;
  ev_payload : list (string * Value)
}.

(** A handler function, by identity. *)
Definition Handler : Type := nat.

(** [handlersRef.current]: a [Set], in insertion order. *)
Definition Handlers : Type := list Handler.

(** [set.add(h)] *)
Definition set_add (h : Handler) (hs : Handlers) : Handlers :=
  if existsb (Nat.eqb h) hs then hs else (hs ++ [h])%list.

(** [set.delete(h)] *)
Definition set_delete (h : Handler) (hs : Handlers) : Handlers :=
  List.filter (fun x => negb (Nat.eqb x h)) hs.

(** [subscribe(handler)] adds the handler; the function it returns
    deletes it. *)
Definition subscribe (handler : Handler) (hs : Handlers) : Handlers :=
  set_add handler hs.

Definition unsubscribe (handler : Handler) (hs : Handlers) : Handlers :=
  set_delete handler hs.

(** The loop over the handlers inside the [try]: a handler that throws
    ends it.  [throws h] tells whether handler [h] throws on the frame.
    Handlers are taken not to subscribe or unsubscribe while they run. *)
Fixpoint call_handlers (throws : Handler -> bool) (hs : Handlers) : list Handler :=
  match hs with
  | [] => []
  | h :: r => h :: (if throws h then [] else call_handlers throws r)
  end.

(** [es.onmessage]: the handlers called, in order, each with the frame.
    [parsed] is [None] when [JSON.parse] throws. *)
Definition onmessage (mounted : bool) (hs : Handlers) (throws : Handler -> bool)
    (parsed : option SSEEvent) : list (Handler * SSEEvent) :=
  if negb mounted then []
  else
    match parsed with
    | None => []
    | Some data =>
        if str_is (ev_type data) "heartbeat" then []
        else map (fun h => (h, data)) (call_handlers throws hs)
    end.

(** The handlers [es.onmessage] calls for a frame, in the order of the
    calls. *)
Definition handlers_called (mounted : bool) (hs : Handlers)
    (throws : Handler -> bool) (parsed : option SSEEvent) : list Handler :=
  map fst (onmessage mounted hs throws parsed).

End EventsDispatch.

(* ------------------------------------------------------------------ *)
(** ** The introspection cache ([response-introspection.ts])            *)

Module IntrospectionCache.
Import Js Introspection.

Definition CACHE_TTL : Z := 10 * 60 * 1000.

(** A property of the response body: an array of records, or anything
    else. *)
Inductive JsonField : Type :=
| JArray (rows : list (list (string * Value)))
| JOther (v : Value).

(** What [fetch] and [res.json()] gave. *)
Record Response : Type := {
  res_ok : bool;
  json : list (string * JsonField)
}.

(** The module state: [cache], and the keys of [pendingRequests]. *)
Record Store : Type := {
  cache : gmap string IntrospectedSchema;
  pendingRequests : gset string
}.

Definition cacheKey (skill listAction : string) : string :=
  skill +:+ "/" +:+ listAction.

Definition isArray (f : JsonField) : bool :=
  match f with JArray _ => true | JOther _ => false end.

Section WithCase.
Context `{CaseOps}.

(** [_doIntrospect]: the answer and the cache after it.  [res] is [None]
    when [fetch] or [res.json()] throws; [now] is [Date.now()] at the time
    the schema is built. *)
Definition doIntrospect (key : string) (now : Z) (res : option Response)
    (c : gmap string IntrospectedSchema)
    : option IntrospectedSchema * gmap string IntrospectedSchema :=
  match res with
  | None => (None, c)
  | Some r =>
      if negb (res_ok r) then (None, c)
      else
        match lookup "status" (json r) with
        | Some (JOther (VString "ok")) =>
            match find (fun kv => isArray (snd kv)
                                  && negb (has (fst kv) ["tags"; "requires"; "status"]))
                       (json r) with
            | Some (arrayKey, JArray (firstRow :: _)) =>
                if String.eqb arrayKey "" then (None, c)     (* !arrayKey *)
                else
                  let schema := schemaOfRow arrayKey now firstRow in
                  (Some schema, <[key := schema]> c)
            | _ => (None, c)
            end
        | _ => (None, c)
        end
  end.
End WithCase.

(** How a call of [introspectEntity] starts. *)
Inductive Answer : Type :=
| Cached (schema : IntrospectedSchema)      (* the cached schema is returned *)
| Shared                                    (* the pending promise is returned *)
| Fetching.                                 (* a request of its own is started *)

(** [introspectEntity] up to the point where it waits. *)
Definition introspectEntity_call (st : Store) (now : Z) (skill listAction : string)
    : Answer * Store :=
  let key := cacheKey skill listAction in
  let miss :=
    if decide (key ∈ pendingRequests st) then (Shared, st)
    else (Fetching, {| cache := cache st;
                       pendingRequests := {[key]} ∪ pendingRequests st |}) in
  match cache st !! key with
  | Some cached =>
      if now - cachedAt cached <? CACHE_TTL then (Cached cached, st) else miss
  | None => miss
  end.

Section WithCase.
Context `{CaseOps}.

(** The request of a [Fetching] call settles: [_doIntrospect] ends and the
    [finally] clause deletes the pending entry. *)
Definition introspectEntity_settle (st : Store) (now : Z)
    (skill listAction : string) (res : option Response)
    : option IntrospectedSchema * Store :=
  let key := cacheKey skill listAction in
  let '(answer, c) := doIntrospect key now res (cache st) in
  (answer, {| cache := c; pendingRequests := pendingRequests st ∖ {[key]} |}).
End WithCase.

(** [clearIntrospectionCache(skill?)] *)
Definition clearIntrospectionCache (skill : option string)
    (c : gmap string IntrospectedSchema) : gmap string IntrospectedSchema :=
  if truthy_str skill
  then filter (fun kv => startsWith (fst kv) (or_str skill "" +:+ "/") = false) c
  else ∅.

End IntrospectionCache.

(* ------------------------------------------------------------------ *)
(** ** The UI configuration cache ([ui-config.ts])                      *)

Module UiConfigCache.
Import Js.

Definition CACHE_TTL : Z := 5 * 60 * 1000.

(** The document [/api/ui-config/<skill>] answers: the configuration
    with its [skill_version]. *)
Record ConfigDoc : Type := {
  doc_config : UiYamlToForm.UIConfig;
  skill_version : string
}.

Record Entry : Type := {
  entry_config : ConfigDoc;
  version : string;
  fetchedAt : Z
}.

(** The cache entry of a skill, if it is younger than the TTL. *)
Definition fresh (cache : gmap string Entry) (skill : string) (now : Z)
    : option ConfigDoc :=
  match cache !! skill with
  | Some cached =>
      if now - fetchedAt cached <? CACHE_TTL then Some (entry_config cached)
      else None
  | None => None
  end.

(** [fetchUIConfig] once the request has settled, for a call that found
    no fresh entry: [res] is [None] when [fetch] or [res.json()] throws,
    and else tells [res.ok] and the body. *)
Definition fetchUIConfig_settle (cache : gmap string Entry) (skill : string)
    (now : Z) (res : option (bool * ConfigDoc))
    : option ConfigDoc * gmap string Entry :=
  match res with
  | Some (true, config) =>
      (Some config,
       <[skill := {| entry_config := config; version := skill_version config;
                     fetchedAt := now |}]> cache)
  | _ => (None, cache)
  end.

Definition invalidateUICache (skill : string) (cache : gmap string Entry)
    : gmap string Entry :=
  delete skill cache.

Definition isConfigStale (cache : gmap string Entry) (skill currentVersion : string)
    : bool :=
  match cache !! skill with
  | None => true
  | Some cached => negb (String.eqb (version cached) currentVersion)
  end.

(** The effect of [useUIConfig] when the skill changes, on the hook state
    of the page. *)
Definition useUIConfig_effect (cache : gmap string Entry) (skill : string)
    (now : Z) (h : SkillPage.UIConfigHook) : SkillPage.UIConfigHook :=
  SkillPage.hook_effect (option_map doc_config (fresh cache skill now)) h.

End UiConfigCache.

(* ------------------------------------------------------------------ *)
(** ** The form component ([dynamic-form.tsx])                          *)

Module DynamicForm.
Import Js FormSpecTypes.

(** A row of a repeatable group, and the two pieces of state of the
    form: [fields] and [repeatables].  Both are objects keyed by strings
    and are only read by key or copied entry by entry. *)
Definition Row : Type := gmap string string.

Record FormState : Type := {
  field_values : gmap string string;          (* [fields] *)
  repeatables : gmap string (list Row)
}.

(** What [validate] answers when it does not answer [null]; the message
    each one stands for is given beside it. *)
Inductive ValidationError : Type :=
| AtLeastRows (section : string) (min_rows : Q)
    (* `${section.label}: At least ${section.min_rows} row required` *)
| RowRequired (section : string) (row : nat) (field : string)
    (* `${section.label} row ${i + 1}: ${field.label} is required` *)
| Required (field : string).
    (* `${field.label} is required` *)

(** [section.type === "repeatable" && section.key] *)
Definition is_repeatable (section : FormSectionSpec) : bool :=
  str_is (section_type section) "repeatable" && truthy_str (section_key section).

(** [field.required && !values[field.key]] *)
Definition missing (field : FormFieldSpec) (values : gmap string string) : bool :=
  truthy_bool (required field) && negb (truthy_str (values !! key field)).

(** A [for] loop that returns at the first error. *)
Fixpoint first_error {A : Type} (check : A -> option ValidationError) (l : list A)
    : option ValidationError :=
  match l with
  | [] => None
  | x :: rest =>
      match check x with
      | Some e => Some e
      | None => first_error check rest
      end
  end.

(** The loop over [rows], from index [i] on. *)
Fixpoint validate_rows (section : FormSectionSpec) (i : nat) (rows : list Row)
    : option ValidationError :=
  match rows with
  | [] => None
  | row :: rest =>
      match first_error
              (fun field =>
                 if missing field row
                 then Some (RowRequired (section_label section) (i + 1) (label field))
                 else None)
              (fields section) with
      | Some e => Some e
      | None => validate_rows section (S i) rest
      end
  end.

(** [repeatables[section.key] || []] *)
Definition rows_of (st : FormState) (section : FormSectionSpec) : list Row :=
  match repeatables st !! or_str (section_key section) "" with
  | Some rows => rows
  | None => []
  end.

Definition validate_section (st : FormState) (section : FormSectionSpec)
    : option ValidationError :=
  if is_repeatable section then
    let rows := rows_of st section in
    if negb (Qle_bool (or_num (min_rows section) 0) 0)
       && Nat.eqb (List.length rows) 0
    then Some (AtLeastRows (section_label section) (or_num (min_rows section) 0))
    else validate_rows section 0 rows
  else
    first_error
      (fun field =>
         if missing field (field_values st) then Some (Required (label field))
         else None)
      (fields section).

Definition validate (spec : FormSpec) (st : FormState) : option ValidationError :=
  first_error (validate_section st) (sections spec).

(** A value of the request parameters; [PRows rows] is
    [JSON.stringify(rows)]. *)
Inductive ParamValue : Type :=
| PBoolean (b : bool)
| PString (s : string)
| PRows (rows : list Row).

(** The body of the loop over the scalar fields. *)
Definition scalarParam (v : string) : option ParamValue :=
  if String.eqb v "" then None
  else if String.eqb v "true" then Some (PBoolean true)
  else if String.eqb v "false" then Some (PBoolean false)
  else Some (PString v).

(** [params[k] = p] for a boolean or a string [p]: the key [__proto__]
    is the inherited setter, which ignores such a value and leaves the
    object without an entry of that name. *)
Definition assign (k : string) (p : ParamValue) (params : gmap string ParamValue)
    : gmap string ParamValue :=
  if String.eqb k "__proto__" then params else <[k := p]> params.

(** The [params] object [handleSubmit] builds: the scalar fields first,
    then the repeatable groups. *)
Definition submitParams (st : FormState) : gmap string ParamValue :=
  let scalars :=
    map_fold (fun k v params =>
                match scalarParam v with
                | Some p => assign k p params
                | None => params
                end)
             ∅ (field_values st) in
  map_fold (fun k rows params =>
              match rows with
              | [] => params
              | _ :: _ => assign k (PRows rows) params
              end)
           scalars (repeatables st).

(** [s.replace(pat, rep)] for a string pattern: the first occurrence. *)
Fixpoint replace_first (pat rep s : string) : string :=
  if String.prefix pat s then rep +:+ slice_from (String.length pat) s
  else match s with
       | EmptyString => EmptyString
       | String c r => String c (replace_first pat rep r)
       end.

(** How [postAction] ends. *)
Inductive Outcome : Type :=
| Ok                                   (* result.status === "ok" *)
| NotOk (message : option string)      (* any other result *)
| Threw (e : string).                  (* String(e) of what was thrown *)

Inductive ToastMessage : Type :=
| OfError (e : ValidationError)
| Text (s : string).

Inductive Effect : Type :=
| ShowToast (type : string) (message : ToastMessage) (duration : option Z)
| SetSubmitting (b : bool)
| PostAction (skill action : string) (params : gmap string ParamValue)
| OnSuccess.

(** [handleSubmit], as the calls it makes in order.  [onSuccess] tells
    whether the callback was given. *)
Definition handleSubmit (onSuccess : bool) (skill : string) (spec : FormSpec)
    (st : FormState) (outcome : Outcome) : list Effect :=
  match validate spec st with
  | Some error => [ShowToast "error" (OfError error) None]
  | None =>
      ([SetSubmitting true;
        PostAction skill (submit_action spec) (submitParams st)]
       ++ match outcome with
          | Ok =>
              ShowToast "success"
                (Text (replace_first "New " "" (title spec) +:+ " created successfully"))
                None
              :: (if onSuccess then [OnSuccess] else [])
          | NotOk message =>
              [ShowToast "error" (Text (or_str message "Action failed")) (Some 0)]
          | Threw e => [ShowToast "error" (Text e) None]
          end
       ++ [SetSubmitting false])%list
  end.

(** ** [DEMO_FORM_SPECS["erpclaw-selling"]["add-sales-invoice"]]
       ([form-spec.ts]) *)

Definition demo_field (key label type : string) (required : option bool)
    (default : option Value) (placeholder : option string) (min : option NumExpr)
    (entity_skill entity_action entity_value_field entity_display_field : option string)
    : FormFieldSpec :=
  {| key := key; label := label; type := type; required := required;
     default := default; placeholder := placeholder; helpText := None;
     description := None; min := min; max := None; step := None; options := None;
     entity_skill := entity_skill; entity_action := entity_action;
     entity_value_field := entity_value_field;
     entity_display_field := entity_display_field |}.

Definition DEMO_add_sales_invoice : FormSpec :=
  {| title := "New Sales Invoice";
     spec_description := Some "Create a draft sales invoice for a customer";
     submit_action := "add-sales-invoice";
     submit_label := Some "Create Invoice";
     sections :=
       [ {| section_label := "Invoice Details"; columns := Some 2%Q;
            section_type := None; section_key := None; min_rows := None;
            fields :=
              [ demo_field "customer-id" "Customer" "entity-lookup" (Some true) None
                  (Some "Search customers...") None
                  None (Some "list-customers") (Some "id") (Some "customer_name");
                demo_field "posting-date" "Invoice Date" "date" (Some true)
                  (Some (VString "today")) None None None None None None;
                demo_field "due-date" "Due Date" "date" None
                  (Some (VString "today+30")) None None None None None None ] |};
         {| section_label := "Line Items"; columns := None;
            section_type := Some "repeatable"; section_key := Some "items";
            min_rows := Some 1%Q;
            fields :=
              [ demo_field "item-id" "Item" "entity-lookup" (Some true) None
                  (Some "Search items...") None
                  (Some "erpclaw-inventory") (Some "list-items") (Some "id")
                  (Some "item_name");
                demo_field "qty" "Qty" "number" (Some true) (Some (VNumber 1))
                  None (Some (NumLit 1)) None None None None;
                demo_field "rate" "Rate" "currency" (Some true) None
                  (Some "0.00") None None None None None ] |};
         {| section_label := "Additional"; columns := Some 2%Q;
            section_type := None; section_key := None; min_rows := None;
            fields :=
              [ demo_field "remarks" "Remarks" "textarea" None None
                  (Some "Optional notes...") None None None None None ] |} ] |}.

(** A filled-in invoice form: one line item, no remarks. *)
Definition invoice_state : FormState :=
  {| field_values :=
       <["customer-id" := "CUST-1"]>
         (<["posting-date" := "2026-01-05"]>
            (<["due-date" := "2026-02-04"]> (<["remarks" := ""]> ∅)));
     repeatables :=
       <["items" := [ <["item-id" := "ITEM-1"]>
                        (<["qty" := "1"]> (<["rate" := "9.50"]> ∅)) ]]> ∅ |}.

(** The auto form of [add-customer], filled in. *)
Definition customer_state : FormState :=
  {| field_values :=
       <["company-id" := "COMP-1"]>
         (<["customer-name" := "Wayne Enterprises"]> (<["customer-type" := ""]> ∅));
     repeatables := ∅ |}.

End DynamicForm.

(* ------------------------------------------------------------------ *)
(** ** Helpers of the skill page and the action explorer                *)

Module SkillPageActions.
Import Js.


(** [s.replace(/suf$/, rep)] for a literal [suf]. *)
Definition replace_suffix (suf rep s : string) : string :=
  if endsWith s suf then Nat.iter (String.length suf) drop_last s +:+ rep else s.

(** The [candidates] of [deriveGetAction]. *)
Definition candidates (plural : string) : list string :=
  [ plural;
    replace_suffix "ies" "y" plural;
    replace_suffix "ses" "s" plural;
    replace_suffix "es" "e" plural;
    replace_suffix "es" "" plural;
    replace_suffix "s" "" plural ].

Definition deriveGetAction (listAction : string) (allActions : list string)
    : option string :=
  if negb (startsWith listAction "list-") then None
  else
    let plural := DynamicForm.replace_first "list-" "" listAction in
    option_map (fun c => "get-" +:+ c)
      (find (fun c => has ("get-" +:+ c) allActions) (candidates plural)).






(** ** [ActionExplorer] *)







End SkillPageActions.

(* ------------------------------------------------------------------ *)
(** ** Editing on the confirmation card ([confirmation-card.tsx])       *)

Module CardEdits.
Import Js ConfirmationCard.

(** The state of the card with the field being edited. *)
Record CardUi : Type := {
  card : CardState;
  editingField : option string
}.


(** [onEdit] of the row of [f]: the edit box opens, or closes again. *)
Definition onEdit (f : ResolvedField) (ui : CardUi) : CardUi :=
  {| card := card ui;
     editingField := if str_is (editingField ui) (field f) then None
                     else Some (field f) |}.



(** A composition whose resolved field is named as a member every object
    has, and a state in which the one unresolved field is filled in. *)
Definition member_composition : CompositionResult :=
  {| action := "add-class";
     resolved_fields := [Examples.resolved "constructor" "Acme" 1];
     unresolved_fields := ["class_name"];
     summary := "Create class";
     show_full_form := false |}.

Definition member_state : CardState :=
  {| resolvedOverrides := ∅;
     unresolvedValues := {[ "class_name" := "Widget" ]} |}.

End CardEdits.

(* ------------------------------------------------------------------ *)
(** ** Month navigation of the calendar ([CalendarView])                *)

Module CalendarView.

(** [currentDate]: a year and a month as [Date.getMonth] counts it. *)
Record MonthOfYear : Type := {
  year : Z;
  month : Z
}.

Definition prevMonth (d : MonthOfYear) : MonthOfYear :=
  if month d =? 0 then {| year := year d - 1; month := 11 |}
  else {| year := year d; month := month d - 1 |}.

Definition nextMonth (d : MonthOfYear) : MonthOfYear :=
  if month d =? 11 then {| year := year d + 1; month := 0 |}
  else {| year := year d; month := month d + 1 |}.

End CalendarView.

(* ------------------------------------------------------------------ *)
(** ** Display helpers of the API client ([api.ts])                     *)

Module ApiHelpers.
Import Js.

(** [s.indexOf(c)] for a character; [None] is [-1]. *)
Fixpoint indexOf (c : ascii) (s : string) : option nat :=
  match s with
  | EmptyString => None
  | String d r =>
      if Ascii.eqb d c then Some O else option_map S (indexOf c r)
  end.

(** [s.slice(0, n)] *)
Fixpoint slice_to (n : nat) (s : string) : string :=
  match n, s with
  | O, _ => EmptyString
  | S m, EmptyString => EmptyString
  | S m, String d r => String d (slice_to m r)
  end.

Definition findCommonPrefix (names : list string) : string :=
  if Nat.ltb (List.length names) 2 then ""
  else
    match names with
    | [] => ""
    | first :: _ =>
        match indexOf "-" first with
        | None => ""
        | Some idx =>
            let candidate := slice_to (idx + 1) first in
            if forallb (fun n => startsWith n candidate) names then candidate
            else ""
        end
    end.

End ApiHelpers.

(* ------------------------------------------------------------------ *)
(** ** The form buttons of a parameter schema ([auto-form-spec.ts])     *)

Module AutoFormButtons.
Import Js AutoFormSpec.


End AutoFormButtons.

(* ================================================================== *)
(** * Facts about the JavaScript primitives                            *)
(* ================================================================== *)

Module JsFacts.
Import Js.

Section SortFacts.
Context {A : Type} (gt : A -> A -> bool).

Lemma insert_by_perm (x : A) (l : list A) :
  Permutation (insert_by gt x l) (x :: l).
Proof.
  induction l as [|y r IH]; simpl.
  - apply Permutation_refl.
  - destruct (gt x y).
    + rewrite IH. apply perm_swap.
    + apply Permutation_refl.
Qed.

Lemma sort_by_perm (l : list A) : Permutation (sort_by gt l) l.
Proof.
  induction l as [|x r IH]; simpl.
  - apply perm_nil.
  - rewrite insert_by_perm. now apply perm_skip.
Qed.

Lemma sort_by_length (l : list A) :
  List.length (sort_by gt l) = List.length l.
Proof. apply Permutation_length, sort_by_perm. Qed.

Lemma sort_by_In (x : A) (l : list A) : In x (sort_by gt l) <-> In x l.
Proof.
  split; apply Permutation_in;
    [apply sort_by_perm | apply Permutation_sym, sort_by_perm].
Qed.

(** Stability: a class of elements the comparator never puts one after
    the other comes out in the order it went in. *)
Section Stable.
Variable P : A -> bool.
Hypothesis unordered : forall x y, P x = true -> P y = true -> gt x y = false.

Lemma insert_by_filter (x : A) (l : list A) :
  List.filter P (insert_by gt x l) = List.filter P (x :: l).
Proof.
  induction l as [|y r IH]; [reflexivity|].
  simpl insert_by. destruct (gt x y) eqn:Hgt; [|reflexivity].
  simpl in *. rewrite IH.
  destruct (P x) eqn:Px, (P y) eqn:Py; try reflexivity.
  rewrite (unordered x y Px Py) in Hgt. discriminate.
Qed.

Lemma sort_by_stable (l : list A) :
  List.filter P (sort_by gt l) = List.filter P l.
Proof.
  induction l as [|x r IH]; [reflexivity|].
  simpl sort_by. rewrite insert_by_filter. simpl. now rewrite IH.
Qed.
End Stable.

(** Sortedness, for a comparator that is a strict weak order. *)
Section Sorted.
Hypothesis asym : forall x y, gt x y = true -> gt y x = false.
Hypothesis trans : forall x y z, gt x y = false -> gt y z = false -> gt x z = false.

Let ordered (a b : A) : Prop := gt a b = false.

Lemma insert_by_sorted (x : A) (l : list A) :
  StronglySorted ordered l -> StronglySorted ordered (insert_by gt x l).
Proof.
  induction 1 as [|y r Hs IH Hall]; simpl.
  - constructor; constructor.
  - destruct (gt x y) eqn:Hgt.
    + constructor; [exact IH|].
      apply (Permutation_Forall (Permutation_sym (insert_by_perm x r))).
      constructor; [now apply asym | exact Hall].
    + constructor; [now constructor|].
      constructor; [exact Hgt|].
      eapply Forall_impl; [exact Hall|].
      intros z Hz. now apply (trans x y z).
Qed.

Lemma sort_by_sorted (l : list A) : StronglySorted ordered (sort_by gt l).
Proof.
  induction l as [|x r IH]; simpl; [constructor | now apply insert_by_sorted].
Qed.

(** Sorting leaves a sorted array as it is: an array sorted in place and
    sorted again later (as [groupedFields["_default"]] can be) has the
    order of the first sort. *)
Lemma sort_by_fixes_sorted (l : list A) :
  StronglySorted ordered l -> sort_by gt l = l.
Proof.
  induction 1 as [|x r Hs IH Hall]; [reflexivity|].
  cbn [sort_by]. rewrite IH. destruct r as [|y r]; [reflexivity|].
  cbn [insert_by]. inversion Hall as [|? ? Hxy _]; subst.
  unfold ordered in Hxy. now rewrite Hxy.
Qed.

Lemma sort_by_idempotent (l : list A) :
  sort_by gt (sort_by gt l) = sort_by gt l.
Proof. apply sort_by_fixes_sorted, sort_by_sorted. Qed.
End Sorted.
End SortFacts.

(** Sorting commutes with a map that respects the comparators. *)
Lemma sort_by_map {A B : Type} (gtA : A -> A -> bool) (gtB : B -> B -> bool)
    (f : A -> B) (Hf : forall a b, gtB (f a) (f b) = gtA a b) (l : list A) :
  sort_by gtB (map f l) = map f (sort_by gtA l).
Proof.
  assert (Hins : forall x r, insert_by gtB (f x) (map f r) = map f (insert_by gtA x r)).
  { intros x r. induction r as [|y r IH]; simpl; [reflexivity|].
    rewrite Hf. destruct (gtA x y); simpl; [now rewrite IH | reflexivity]. }
  induction l as [|x r IH]; simpl; [reflexivity|].
  now rewrite IH, Hins.
Qed.

(** ** Strings *)

Lemma rev_onto_app (s t acc : string) :
  rev_onto (s +:+ t) acc = rev_onto t (rev_onto s acc).
Proof.
  revert acc. induction s as [|c s IH]; intros acc; simpl; [reflexivity|].
  apply IH.
Qed.

Lemma reverse_snoc (s : string) (c : ascii) :
  reverse (s +:+ String c EmptyString) = String c (reverse s).
Proof. unfold reverse. now rewrite rev_onto_app. Qed.

Lemma endsWith_snoc (s : string) (c d : ascii) :
  endsWith (s +:+ String c EmptyString) (String d EmptyString) = Ascii.eqb d c.
Proof.
  unfold endsWith. rewrite reverse_snoc. unfold reverse at 1. simpl.
  destruct (Ascii.ascii_dec d c) as [->|Hne].
  - rewrite Ascii.eqb_refl. now destruct (reverse s).
  - apply Ascii.eqb_neq in Hne. now rewrite Hne.
Qed.

Lemma drop_last_snoc (s : string) (c : ascii) :
  drop_last (s +:+ String c EmptyString) = s.
Proof.
  induction s as [|x s IH]; [reflexivity|].
  simpl. rewrite IH. destruct s; reflexivity.
Qed.

Lemma lookup_In {V : Type} (k : string) (o : list (string * V)) (v : V) :
  lookup k o = Some v -> In (k, v) o.
Proof.
  induction o as [|[k' v'] r IH]; simpl; [discriminate|].
  destruct (String.eqb k' k) eqn:E.
  - apply String.eqb_eq in E. intros [= ->]. subst. now left.
  - intros Hl. right. now apply IH.
Qed.

Lemma trim_nonempty (s : string) : trim s <> "" -> s <> "".
Proof. intros Ht ->. now apply Ht. Qed.

End JsFacts.

(* ================================================================== *)
(** * Response introspection: type inference and smart columns         *)
(* ================================================================== *)

Module IntrospectionFacts.
Import Js JsFacts Introspection.

Lemma score_table (c : IntrospectedColumn) :
  score c =
    (if String.eqb (key c) "name" || String.eqb (key c) "title" then 100 else 0)
    + (if has (key c) STATUS_COLUMNS then 90 else 0)
    + type_weight (type c).
Proof.
  unfold score.
  destruct (String.eqb (key c) "name" || String.eqb (key c) "title"),
           (has (key c) STATUS_COLUMNS), (type c); reflexivity.
Qed.

Lemma selectSmartColumns_sorted_prefix (columns : list IntrospectedColumn) :
  selectSmartColumns columns =
    map key (firstn 7 (sort_by lower_score
                         (List.filter (fun c => negb (hidden c)) columns))).
Proof.
  unfold selectSmartColumns.
  destruct (List.filter (fun c => negb (hidden c)) columns) as [|v vs] eqn:Hv;
    [reflexivity|].
  rewrite (sort_by_map lower_score by_score_desc (fun col => (key col, score col)))
    by reflexivity.
  rewrite firstn_map, map_map. reflexivity.
Qed.

Lemma StronglySorted_weaken {A : Type} (R S : A -> A -> Prop) (l : list A) :
  (forall a b, R a b -> S a b) -> StronglySorted R l -> StronglySorted S l.
Proof.
  intros HRS. induction 1 as [|x r Hs IH Hall]; constructor; [exact IH|].
  eapply Forall_impl; [exact Hall|]. intros; now apply HRS.
Qed.

Lemma sorted_by_score (l : list IntrospectedColumn) :
  StronglySorted (fun a b => score b <= score a) (sort_by lower_score l).
Proof.
  apply StronglySorted_weaken with (R := fun a b => lower_score a b = false).
  - unfold lower_score. intros a b Hab. apply Z.ltb_ge in Hab. exact Hab.
  - apply sort_by_sorted; unfold lower_score.
    + intros x y Hxy. apply Z.ltb_lt in Hxy. apply Z.ltb_ge. lia.
    + intros x y z Hxy Hyz. apply Z.ltb_ge in Hxy, Hyz. apply Z.ltb_ge. lia.
Qed.

(** What the code does: the smart selection of a column list with [N]
    visible columns is the keys of the first [min N 7] columns of the
    visible ones sorted by descending score: [sel ++ rest] is a
    rearrangement of the visible columns, in descending score order, and
    the columns of any one score stand in it in their original order.
    The score the code gives a column is the SUM of the weights that
    apply to it: 100 for the key name or title, 90 for a status-like
    key, and by type badge 70, currency 60, number 50, date 40, boolean
    30, text 20. *)
Lemma smart_columns_by_summed_score (columns : list IntrospectedColumn) :
  exists sel rest : list IntrospectedColumn,
    selectSmartColumns columns = map key sel
    /\ List.length (selectSmartColumns columns)
       = Nat.min (List.length (List.filter (fun c => negb (hidden c)) columns)) 7
    /\ Permutation (sel ++ rest) (List.filter (fun c => negb (hidden c)) columns)
    /\ StronglySorted (fun a b => score b <= score a) (sel ++ rest)
    /\ (forall s : Z,
          List.filter (fun c => score c =? s) (sel ++ rest)
          = List.filter (fun c => score c =? s)
                        (List.filter (fun c => negb (hidden c)) columns))
    /\ (forall c, score c =
          (if String.eqb (key c) "name" || String.eqb (key c) "title" then 100 else 0)
          + (if has (key c) STATUS_COLUMNS then 90 else 0)
          + type_weight (type c)).
Proof.
  set (visible := List.filter (fun c => negb (hidden c)) columns).
  exists (firstn 7 (sort_by lower_score visible)),
         (skipn 7 (sort_by lower_score visible)).
  rewrite firstn_skipn, selectSmartColumns_sorted_prefix. fold visible.
  repeat split.
  - rewrite length_map, length_firstn, sort_by_length. lia.
  - apply sort_by_perm.
  - apply sorted_by_score.
  - intros s. apply sort_by_stable. unfold lower_score.
    intros x y Hx Hy. apply Z.eqb_eq in Hx, Hy. apply Z.ltb_ge. lia.
  - apply score_table.
Qed.

(** C3. A first row with a name and a status: the name column is typed
    text and the status column badge, so the summed weights are 100 + 20
    for the name and 90 + 70 for the status, and the selection puts the
    status column before the name column, although the score table
    ranks name and title (100) above status (90) and the code says of
    the name or title column that it has the highest priority.  The
    columns come in the row in the other order, so no tie decides. *)
Theorem C3_status_outranks_name :
  let firstRow := [("name", VString "Acme"); ("status", VString "active")] in
  let schema := schemaOfRow (H := ascii_case) "customers" 0 firstRow in
  map (fun c => (key c, type c, hidden c)) (columns schema)
  = [("name", TText, false); ("status", TBadge, false)]
  /\ map score (columns schema) = [120; 160]
  /\ selectSmartColumns (columns schema) = ["status"; "name"]
  /\ listColumns schema = ["status"; "name"].
Proof. cbv zeta. repeat split. Qed.

(** The selection never has more than seven entries. *)
Lemma smart_columns_at_most_7 (columns : list IntrospectedColumn) :
  (List.length (selectSmartColumns columns) <= 7)%nat.
Proof.
  rewrite selectSmartColumns_sorted_prefix, length_map, length_firstn. lia.
Qed.

End IntrospectionFacts.

Module InferenceFacts.
Import Js Introspection.

Lemma infer_posting_date :
  inferColumnType "posting_date" (VString "2024-03-01") = TDate.
Proof. reflexivity. Qed.

Lemma infer_amount :
  inferColumnType "amount" (VString "125.50") = TCurrency.
Proof. reflexivity. Qed.

(** A UUID string is an identifier under any key, and its column is hidden. *)
Lemma infer_uuid_hidden `{CaseOps} (k s : string) :
  UUID_RE s = true ->
  inferColumnType k (VString s) = TId
  /\ hidden (columnOf (k, VString s)) = true.
Proof.
  intros Hu. assert (Ht : inferColumnType k (VString s) = TId).
  { unfold inferColumnType, inferStringType. now rewrite Hu. }
  split; [exact Ht|].
  change (hidden (columnOf (k, VString s)))
    with (shouldHideColumn k || ColumnType_eqb (inferColumnType k (VString s)) TId).
  rewrite Ht. apply orb_true_r.
Qed.

Lemma infer_id_uuid :
  inferColumnType "id" (VString sample_uuid) = TId
  /\ hidden (columnOf (H := ascii_case) ("id", VString sample_uuid)) = true.
Proof. apply (infer_uuid_hidden (H := ascii_case)). reflexivity. Qed.

(** The order in which the rules are tried: the run-time type of a number
    or a boolean decides at once; a string goes through the patterns UUID,
    date-time, date, two-decimal amount, then the badge names; everything
    left is text. *)
Lemma inferColumnType_order (k : string) (v : Value) :
  inferColumnType k v =
    match v with
    | VNumber _ => TNumber
    | VBoolean _ => TBoolean
    | VString s =>
        if UUID_RE s then TId
        else if ISO_DATETIME_RE s then TDatetime
        else if ISO_DATE_RE s then TDate
        else if CURRENCY_RE s then TCurrency
        else if has k BADGE_COLUMNS && Nat.ltb (String.length s) 30
                && negb (includes s " ")
             then TBadge
        else TText
    | _ => TText
    end.
Proof.
  destruct v; try reflexivity.
  unfold inferColumnType, inferStringType. cbn [typeof strict_eq_num orb andb].
  change (String.eqb "string" "number") with false.
  change (String.eqb "string" "boolean") with false. cbv iota.
  destruct (UUID_RE s), (ISO_DATETIME_RE s), (ISO_DATE_RE s), (CURRENCY_RE s),
    (has k BADGE_COLUMNS && Nat.ltb (String.length s) 30 && negb (includes s " "));
    reflexivity.
Qed.

(** The name rule for 0/1 flags sits below the early return for numbers:
    the only values inferred as boolean are the booleans. *)
Lemma boolean_only_from_booleans (k : string) (v : Value) :
  inferColumnType k v = TBoolean -> exists b, v = VBoolean b.
Proof.
  rewrite inferColumnType_order. destruct v; try discriminate.
  - intros _. now exists b.
  - destruct (UUID_RE s), (ISO_DATETIME_RE s), (ISO_DATE_RE s), (CURRENCY_RE s),
      (has k BADGE_COLUMNS && Nat.ltb (String.length s) 30 && negb (includes s " "));
      discriminate.
Qed.

(** C2. On the key is_active and the number 1 the inference answers
    number, not boolean: every number is inferred as number, whatever the
    key, because the number test returns before the 0/1 name rule. *)
Theorem C2_is_active_one_is_number :
  inferColumnType "is_active" (VNumber 1) = TNumber
  /\ inferColumnType "is_active" (VNumber 1) <> TBoolean
  /\ (forall (k : string) (q : Q), inferColumnType k (VNumber q) = TNumber).
Proof.
  split; [reflexivity|]. split; [discriminate|]. intros k q. reflexivity.
Qed.

End InferenceFacts.

(* ================================================================== *)
(** * UI.yaml conversion: search actions and excluded fields           *)
(* ================================================================== *)

Module UiYamlFacts.
Import Js JsFacts FormSpecTypes UiYamlToForm.

Lemma overrides_truthy (e a : string) :
  lookup e ENTITY_ACTION_OVERRIDES = Some a -> truthy_str (Some a) = true.
Proof.
  intros Hl. apply lookup_In in Hl. unfold ENTITY_ACTION_OVERRIDES in Hl.
  repeat (destruct Hl as [[= <- <-]|Hl]; [reflexivity|]).
  destruct Hl.
Qed.

Lemma truthy_str_nonempty (e : string) : e <> "" -> truthy_str (Some e) = true.
Proof. destruct e; [congruence | reflexivity]. Qed.

Lemma or_str_some (e d : string) : e <> "" -> or_str (Some e) d = e.
Proof. destruct e; [congruence | reflexivity]. Qed.

(** Outside the override table the action is "list-" and the plural. *)
Lemma inferSearchAction_plural (e : string) :
  e <> "" -> lookup e ENTITY_ACTION_OVERRIDES = None ->
  inferSearchAction (Some e) =
    Some ("list-" +:+
          (if endsWith (replace_char "_" "-" e) "s" then replace_char "_" "-" e
           else if endsWith (replace_char "_" "-" e) "y"
                then drop_last (replace_char "_" "-" e) +:+ "ies"
                else replace_char "_" "-" e +:+ "s")).
Proof.
  intros He Hov. unfold inferSearchAction.
  rewrite (truthy_str_nonempty e He), (or_str_some e "" He), Hov. reflexivity.
Qed.

Lemma inferSearchAction_truthy (le : option string) :
  truthy_str (inferSearchAction le) = true \/ inferSearchAction le = None.
Proof.
  unfold inferSearchAction.
  destruct (truthy_str le); cbn [negb]; [|now right].
  destruct (truthy_str (lookup (or_str le "") ENTITY_ACTION_OVERRIDES)) eqn:Ht.
  - left. exact Ht.
  - left. reflexivity.
Qed.

(** C4 (as amended). For a link field without an explicit search action
    the search action is [inferSearchAction] of the entity name, and for a
    non-empty entity name that is not the name of a member every object
    inherits, that function answers: the entry of the override table when
    the name has one; otherwise, with underscores turned into hyphens,
    "list-" followed by the name itself when it ends in s, by the name
    with its final y replaced by ies when it ends in y, and by the name
    and an s in every other case.  (At the name of an inherited member
    the read of the override table finds that member; the statement
    leaves those names out.) *)
Theorem C4_search_action (e : string) (He : e <> "")
    (Hown : has e Object_prototype_keys = false) :
  (forall k field skill,
      fd_type field = "link" ->
      truthy_str (link_search_action field) = false ->
      link_entity field = Some e ->
      entity_action (fieldDefToFormField k field skill) = inferSearchAction (Some e))
  /\ (forall a, lookup e ENTITY_ACTION_OVERRIDES = Some a ->
                inferSearchAction (Some e) = Some a)
  /\ (lookup e ENTITY_ACTION_OVERRIDES = None ->
      (forall stem, replace_char "_" "-" e = stem +:+ "s" ->
                    inferSearchAction (Some e) = Some ("list-" +:+ stem +:+ "s"))
      /\ (forall stem, replace_char "_" "-" e = stem +:+ "y" ->
                       inferSearchAction (Some e) = Some ("list-" +:+ stem +:+ "ies"))
      /\ (endsWith (replace_char "_" "-" e) "s" = false ->
          endsWith (replace_char "_" "-" e) "y" = false ->
          inferSearchAction (Some e)
          = Some ("list-" +:+ replace_char "_" "-" e +:+ "s"))).
Proof.
  split; [|split].
  - intros k field skill Hty Hexp Hle.
    unfold fieldDefToFormField. cbn [entity_action].
    rewrite Hexp, Hle, Hty, String.eqb_refl. cbn [andb].
    destruct (inferSearchAction_truthy (Some e)) as [Ht|Hn].
    + now rewrite Ht.
    + rewrite Hn. reflexivity.
  - intros a Ha. unfold inferSearchAction.
    rewrite (truthy_str_nonempty e He), (or_str_some e "" He), Ha.
    cbn [negb]. now rewrite (overrides_truthy e a Ha).
  - intros Hov. rewrite (inferSearchAction_plural e He Hov).
    split; [|split].
    + intros stem ->. now rewrite endsWith_snoc.
    + intros stem ->. rewrite !endsWith_snoc, drop_last_snoc. reflexivity.
    + intros -> ->. reflexivity.
Qed.

(** The rule applied to an entity name ending in y. *)
Lemma C4_search_action_witness :
  "company" <> "" /\ has "company" Object_prototype_keys = false
  /\ inferSearchAction (Some "company") = Some "list-companies".
Proof.
  assert (He : "company" <> "") by discriminate.
  split; [exact He|]. split; [reflexivity|].
  exact (proj1 (proj2 (proj2 (proj2 (C4_search_action "company" He eq_refl)) eq_refl))
           "compan" eq_refl).
Defined.

(** C4 (as stated) fails: a name ending in s is left as it is, where the
    documented rule appends es; and a name of the override table gets its
    override although the pluralisation applies to it. *)
Lemma C4_counterexample :
  inferSearchAction (Some "address") = Some "list-address"
  /\ inferSearchAction (Some "address")
     <> Some ("list-" +:+ pluralize_documented "address")
  /\ inferSearchAction (Some "request_for_quotation") = Some "list-rfqs"
  /\ inferSearchAction (Some "request_for_quotation")
     <> Some ("list-" +:+ pluralize_documented (replace_char "_" "-" "request_for_quotation")).
Proof. repeat split; discriminate. Qed.

(** ** No read-only or hidden field definition reaches a form *)














End UiYamlFacts.

(* ================================================================== *)
(** * Auto form specs: the gateway-injected fields                     *)
(* ================================================================== *)

Module AutoFormFacts.
Import Js FormSpecTypes AutoFormSpec.

Lemma unshiftFirst_fold (secs : list FormSectionSpec) (fs : list FormFieldSpec)
    (s0 : FormSectionSpec) (rest : list FormSectionSpec) :
  secs = s0 :: rest ->
  fold_left unshiftFirst fs secs =
    {| section_label := section_label s0;
       columns := columns s0;
       section_type := section_type s0;
       section_key := section_key s0;
       min_rows := min_rows s0;
       fields := (rev fs ++ fields s0)%list |} :: rest.
Proof.
  revert secs s0. induction fs as [|f fs IH]; intros secs s0 ->.
  - destruct s0; reflexivity.
  - cbn [fold_left unshiftFirst]. erewrite IH by reflexivity.
    cbn [section_label columns section_type section_key min_rows fields rev].
    now rewrite <- app_assoc.
Qed.

Lemma fold_unshift_map {A : Type} (g : A -> FormFieldSpec) (l : list A)
    (secs : list FormSectionSpec) :
  fold_left (fun secs hp => unshiftFirst secs (g hp)) l secs
  = fold_left unshiftFirst (map g l) secs.
Proof.
  revert secs. induction l as [|a l IH]; intros secs; [reflexivity|].
  simpl. apply IH.
Qed.

(** C6 (as amended). In a generated auto form spec the required
    parameters named in [AUTO_HIDDEN_FIELDS] are put at the head of the
    first section there is, latest first, each as the ordinary field
    [paramToField] builds for any parameter; when the other parameters
    give no section they are in no section.  The rest of the spec is the
    sections of the other parameters. *)
Theorem C6_hidden_required_fields `{CaseOps} (skill action : string)
    (paramSchema : ActionParamSchema) (childTableSchema : option ChildTableSchema)
    (spec : FormSpec) :
  generateAutoFormSpec skill action paramSchema childTableSchema = Some spec ->
  match baseSections skill action paramSchema childTableSchema with
  | [] => sections spec = []
  | s0 :: rest =>
      exists s0', sections spec = s0' :: rest
        /\ fields s0' =
           (rev (map (fun hp => paramToField hp skill)
                     (List.filter is_auto_hidden (required_params paramSchema)))
            ++ fields s0)%list
        /\ section_label s0' = section_label s0
        /\ section_type s0' = section_type s0
        /\ section_key s0' = section_key s0
  end.
Proof.
  unfold generateAutoFormSpec.
  destruct (negb (has (action_type paramSchema) formActions)); [discriminate|].
  destruct (required_params paramSchema ++ optional_params paramSchema)%list;
    [discriminate|].
  intros [= <-]. cbn [sections].
  destruct (baseSections skill action paramSchema childTableSchema)
    as [|s0 rest] eqn:Hb.
  - now destruct (List.filter is_auto_hidden (required_params paramSchema)).
  - destruct (List.filter is_auto_hidden (required_params paramSchema))
      as [|hp hps] eqn:Hh.
    + exists s0. repeat split.
    + rewrite fold_unshift_map, (unshiftFirst_fold _ _ s0 rest eq_refl).
      eexists. split; [reflexivity|]. repeat split.
Qed.

(** With a visible required parameter next to it, the company parameter
    heads the first section, as the field of an ordinary text parameter. *)
Lemma C6_hidden_required_fields_witness :
  exists spec s0 rest,
    generateAutoFormSpec (H := ascii_case) "erpclaw-selling" "add-customer"
      Examples.add_customer_params None = Some spec
    /\ sections spec = s0 :: rest
    /\ fields s0 =
       [ paramToField (H := ascii_case) Examples.company_id_param "erpclaw-selling";
         paramToField (H := ascii_case)
           (Examples.param "customer-name" "Customer Name" "text" true)
           "erpclaw-selling" ].
Proof.
  pose proof (C6_hidden_required_fields (H := ascii_case) "erpclaw-selling"
                "add-customer" Examples.add_customer_params None _ eq_refl) as Hc.
  destruct Hc as (s0' & Hs & Hf & _).
  eexists _, s0', _. split; [reflexivity|]. split; [exact Hs|]. exact Hf.
Defined.

(** C6 (as stated) fails: for an action whose only parameter is the
    required company id a spec is generated, and it has no section, so the
    parameter is in none; and the field built for the company id has a
    key, a label, a type and the required mark, and nothing that tells it
    from a field the user fills in. *)
Lemma C6_counterexample :
  In Examples.company_id_param (required_params Examples.seed_defaults_params)
  /\ is_auto_hidden Examples.company_id_param = true
  /\ (exists spec,
        generateAutoFormSpec (H := ascii_case) "erpclaw-setup" "seed-defaults"
          Examples.seed_defaults_params None = Some spec
        /\ sections spec = []
        /\ ~ In "company-id" (map key (all_fields spec)))
  /\ paramToField (H := ascii_case) Examples.company_id_param "erpclaw-setup"
     = {| key := "company-id"; label := "Company"; type := "text";
          required := Some true; default := None; placeholder := None;
          helpText := None; description := None;
          min := None; max := None; step := None; options := None;
          entity_skill := None; entity_action := None;
          entity_value_field := None; entity_display_field := None |}.
Proof.
  split; [now left|]. split; [reflexivity|]. split; [|reflexivity].
  eexists. split; [reflexivity|]. split; [reflexivity|]. intros [].
Qed.

(** The scenario of the specification: a required text parameter and an
    optional select give one required-section field and one
    optional-section field with its two options in order. *)
Lemma add_customer_scenario :
  option_map
    (fun spec => map (fun sec => map (fun f => (key f, options f)) (fields sec))
                     (sections spec))
    (generateAutoFormSpec (H := ascii_case) "erpclaw-selling" "add-customer"
       {| action_type := "create"; entity_group := None;
          required_params :=
            [Examples.param "customer-name" "Customer Name" "text" true];
          optional_params := [Examples.customer_type_param] |} None)
  = Some [ [("customer-name", None)];
           [("customer-type",
             Some [("Company", "Company"); ("Individual", "Individual")])] ].
Proof. reflexivity. Qed.

End AutoFormFacts.

(* ================================================================== *)
(** * The resolver: precedence and the loading state                   *)
(* ================================================================== *)

Module SkillPageFacts.
Import Js FormSpecTypes SkillPage.






(** C5 (as amended). While the UI configuration is loading and gives no
    form for the action, [resolveFormSpec] answers null, whatever the
    parameter metadata holds: it does not go on to the auto-generated
    form.  Null is also its answer for an action that has no form. *)
Theorem C5_loading_returns_null `{CaseOps} (skill action : string)
    (uiConfig : option UiYamlToForm.UIConfig)
    (paramSchema : option AutoFormSpec.ParamSchema)
    (cts : option AutoFormSpec.ChildTableSchema) :
  (forall cfg, uiConfig = Some cfg -> UiYamlToForm.generateFormSpec cfg action = None) ->
  resolveFormSpec skill uiConfig true paramSchema cts action = None.
Proof.
  intros Hnone. unfold resolveFormSpec.
  destruct uiConfig as [cfg|]; cbn [mbind option_bind]; [|reflexivity].
  now rewrite (Hnone cfg eq_refl).
Qed.

(** From the first render until the fetch settles, no action of a skill
    without a cached configuration resolves to a form. *)
Lemma loading_hook_blocks `{CaseOps} (skill action : string)
    (paramSchema : option AutoFormSpec.ParamSchema)
    (cts : option AutoFormSpec.ChildTableSchema) :
  let h := hook_effect None hook_initial in
  loading h = true
  /\ resolveFormSpec skill (config h) (loading h) paramSchema cts action = None.
Proof. split; reflexivity. Qed.

Lemma C5_loading_returns_null_witness :
  resolveFormSpec (H := ascii_case) "erpclaw-selling" None true
    (Some Examples.selling_params) None "add-customer" = None.
Proof.
  apply (C5_loading_returns_null (H := ascii_case)). intros cfg Hc. discriminate.
Defined.

(** C5 (as stated) fails: the answer in the loading state is not a
    result of its own.  It is the null that an action with no form at all
    gets, although here the parameter metadata would give a form. *)
Lemma C5_counterexample :
  resolveFormSpec (H := ascii_case) "erpclaw-selling" None true
    (Some Examples.selling_params) None "add-customer"
  = resolveFormSpec (H := ascii_case) "erpclaw-selling" None false None None
      "add-customer"
  /\ resolveFormSpec (H := ascii_case) "erpclaw-selling" None false None None
       "add-customer" = None
  /\ resolveFormSpec (H := ascii_case) "erpclaw-selling" None false
       (Some Examples.selling_params) None "add-customer" <> None.
Proof. repeat split; discriminate. Qed.

End SkillPageFacts.

(* ================================================================== *)
(** * The confirmation card: gating, parameters, confidence bands      *)
(* ================================================================== *)

Module ConfirmationFacts.
Import Js JsFacts ConfirmationCard.

Lemma has_In (k : string) (l : list string) : has k l = true <-> In k l.
Proof.
  unfold has. rewrite existsb_exists. split.
  - intros [x [Hin E]]. apply String.eqb_eq in E. now subst.
  - intros Hin. exists k. split; [exact Hin | apply String.eqb_refl].
Qed.

(** A key that names no inherited member reads as the object's own. *)
Lemma inherited_none (k : string) :
  has k Object_prototype_keys = false -> inherited k = None.
Proof.
  intros Hk. unfold inherited. rewrite Hk.
  destruct (String.eqb k "__proto__") eqn:E; [|reflexivity].
  apply String.eqb_eq in E. subst k. discriminate Hk.
Qed.

(** What the second loop leaves under a key. *)
Lemma userEntered_lookup (st : CardState) (l : list string) (m : gmap string Value)
    (k : string) :
  fold_left (putUnresolved st) l m !! k
  = if has k l
    then Some (match readUnresolved st k with
               | Some v => if truthy_value v then v else VString ""
               | None => VString ""
               end)
    else m !! k.
Proof.
  revert m. induction l as [|f l IH]; intros m; [reflexivity|].
  cbn [fold_left]. rewrite IH. unfold has. cbn [existsb].
  fold (has k l). destruct (has k l); [now rewrite orb_true_r|].
  rewrite orb_false_r. unfold putUnresolved.
  destruct (String.eqb k f) eqn:E.
  - apply String.eqb_eq in E as ->. now rewrite lookup_insert_eq.
  - apply String.eqb_neq in E. rewrite lookup_insert_ne; [reflexivity|congruence].
Qed.

(** The last resolved field of a name decides the entry of that name. *)
Lemma resolved_lookup (st : CardState) (l : list ResolvedField) (k : string) :
  fold_left (putResolved st) l ∅ !! k
  = option_map (fun f => nullish_or (readOverride st k) (value f))
               (find (fun f => String.eqb (field f) k) (rev l)).
Proof.
  rewrite <- fold_left_rev_right, <- (rev_involutive l) at 1.
  rewrite rev_involutive.
  induction (rev l) as [|f r IH]; [reflexivity|].
  cbn [fold_right find]. unfold putResolved at 1.
  destruct (String.eqb (field f) k) eqn:E.
  - apply String.eqb_eq in E. subst k. now rewrite lookup_insert_eq.
  - apply String.eqb_neq in E. now rewrite lookup_insert_ne.
Qed.

Lemma documented_lookup (composition : CompositionResult) (st : CardState)
    (k : string) :
  documentedParams composition st !! k
  = if has k (unresolved_fields composition)
    then Some (VString (or_str (unresolvedValues st !! k) ""))
    else option_map (fun f => nullish_or (resolvedOverrides st !! k) (value f))
           (find (fun f => String.eqb (field f) k) (rev (resolved_fields composition))).
Proof.
  assert (Hu : forall l (m : gmap string Value),
             fold_left (putUnresolved_documented st) l m !! k
             = if has k l then Some (VString (or_str (unresolvedValues st !! k) ""))
               else m !! k).
  { induction l as [|f l IH]; intros m; [reflexivity|].
    cbn [fold_left]. rewrite IH. unfold has. cbn [existsb].
    fold (has k l). destruct (has k l); [now rewrite orb_true_r|].
    rewrite orb_false_r. unfold putUnresolved_documented.
    destruct (String.eqb k f) eqn:E.
    - apply String.eqb_eq in E as ->. now rewrite lookup_insert_eq.
    - apply String.eqb_neq in E. rewrite lookup_insert_ne; [reflexivity|congruence]. }
  assert (Hr : forall l,
             fold_left (putResolved_documented st) l ∅ !! k
             = option_map (fun f => nullish_or (resolvedOverrides st !! k) (value f))
                 (find (fun f => String.eqb (field f) k) (rev l))).
  { intros l. rewrite <- fold_left_rev_right, <- (rev_involutive l) at 1.
    rewrite rev_involutive.
    induction (rev l) as [|f r IH]; [reflexivity|].
    cbn [fold_right find]. unfold putResolved_documented at 1.
    destruct (String.eqb (field f) k) eqn:E.
    - apply String.eqb_eq in E. subst k. now rewrite lookup_insert_eq.
    - apply String.eqb_neq in E. now rewrite lookup_insert_ne. }
  unfold documentedParams. rewrite Hu.
  destruct (has k (unresolved_fields composition)); [reflexivity|]. apply Hr.
Qed.

(** Under every key that names no inherited member, the parameters are
    the documented ones. *)
Lemma params_as_documented (composition : CompositionResult) (st : CardState)
    (k : string) :
  has k Object_prototype_keys = false ->
  buildParams composition st !! k = documentedParams composition st !! k.
Proof.
  intros Hk. rewrite documented_lookup. unfold buildParams.
  rewrite userEntered_lookup, resolved_lookup.
  unfold readUnresolved, readOverride. rewrite (inherited_none k Hk).
  destruct (has k (unresolved_fields composition)).
  - destruct (unresolvedValues st !! k) as [v|]; [|reflexivity].
    cbn [truthy_value or_str]. now destruct v.
  - now destruct (resolvedOverrides st !! k).
Qed.

(** [every] answers true only when each field has a value of its own
    that is not blank. *)
Lemma every_filled_true (st : CardState) (l : list string) :
  every_filled st l = Some true ->
  forall f, In f l ->
    exists v, unresolvedValues st !! f = Some v /\ trim v <> "".
Proof.
  induction l as [|g l IH]; intros Hall f Hin; [destruct Hin|].
  cbn [every_filled] in Hall.
  destruct (filled (readUnresolved st g)) as [[|]|] eqn:Hg; try discriminate Hall.
  destruct Hin as [<-|Hin]; [|now apply IH].
  unfold readUnresolved in Hg.
  destruct (unresolvedValues st !! g) as [v|].
  - exists v. split; [reflexivity|]. cbn [filled] in Hg.
    injection Hg as Hg. now apply negb_true_iff, String.eqb_neq in Hg.
  - unfold inherited in Hg.
    destruct (String.eqb g "__proto__"); [discriminate Hg|].
    destruct (has g Object_prototype_keys); discriminate Hg.
Qed.

(** The card submits only with every unresolved field filled in, and
    then once, with what the user entered under each of them. *)
Lemma submission_gating (composition : CompositionResult) (st : CardState) :
  handleSubmit composition st <> [] ->
  handleSubmit composition st
  = [SetSubmitting true; OnSubmit (buildParams composition st); SetSubmitting false]
  /\ forall f, In f (unresolved_fields composition) ->
       exists v, unresolvedValues st !! f = Some v /\ trim v <> ""
                 /\ buildParams composition st !! f = Some (VString v).
Proof.
  unfold handleSubmit, canSubmit, allUnresolvedFilled.
  destruct (every_filled st (unresolved_fields composition)) as [b|] eqn:Hall;
    cbn [option_map]; [|intros Hn; now elim Hn].
  destruct (negb (hasUnresolved composition) || b) eqn:Hc; [|intros Hn; now elim Hn].
  intros _. split; [reflexivity|]. intros f Hin.
  assert (Hb : b = true).
  { destruct b; [reflexivity|]. rewrite orb_false_r in Hc.
    apply negb_true_iff in Hc. unfold hasUnresolved in Hc.
    destruct (unresolved_fields composition); [destruct Hin | discriminate Hc]. }
  subst b. destruct (every_filled_true st _ Hall f Hin) as (v & Hv & Hne).
  exists v. split; [exact Hv|]. split; [exact Hne|].
  unfold buildParams. rewrite userEntered_lookup.
  apply has_In in Hin. rewrite Hin. unfold readUnresolved. rewrite Hv.
  cbn [truthy_value]. destruct v; [now elim Hne | reflexivity].
Qed.

(** C7.  The claim holds for field names that name no inherited member
    ([submission_gating] and [params_as_documented]), as in the sample
    composition, and it fails for a resolved field named constructor
    that the user did not edit:
    the card submits, and what it sends under that name is the function
    every object inherits, where the documented parameter is the
    resolved value. *)
Theorem C7_inherited_member_sent :
  handleSubmit CardEdits.member_composition CardEdits.member_state
  = [SetSubmitting true;
     OnSubmit (buildParams CardEdits.member_composition CardEdits.member_state);
     SetSubmitting false]
  /\ buildParams CardEdits.member_composition CardEdits.member_state !! "constructor"
     = Some VFunction
  /\ documentedParams CardEdits.member_composition CardEdits.member_state
       !! "constructor"
     = Some (VString "Acme")
  /\ buildParams CardEdits.member_composition CardEdits.member_state !! "class_name"
     = Some (VString "Widget")
  /\ buildParams Examples.sample_composition Examples.sample_state
     = documentedParams Examples.sample_composition Examples.sample_state.
Proof.
  split; [reflexivity|]. split; [|split; [|split]].
  - unfold buildParams. now rewrite userEntered_lookup, resolved_lookup.
  - now rewrite documented_lookup.
  - unfold buildParams. now rewrite userEntered_lookup.
  - vm_compute. reflexivity.
Qed.

(** ** Confidence bands *)

Lemma num_lt_ge (a b : Q) : num_lt a b = negb (num_ge a b).
Proof. unfold num_lt, num_ge. now destruct (a ?= b)%Q. Qed.

Lemma filter_negb_perm {A : Type} (p : A -> bool) (l : list A) :
  Permutation (List.filter p l ++ List.filter (fun x => negb (p x)) l) l.
Proof.
  induction l as [|x l IH]; [apply perm_nil|].
  simpl. destruct (p x); simpl.
  - now apply perm_skip.
  - apply Permutation_sym, Permutation_cons_app, Permutation_sym, IH.
Qed.

Lemma lowConfidence_negb (composition : CompositionResult) :
  lowConfidence composition
  = List.filter (fun f => negb (num_ge (confidence f) HIGH_CONFIDENCE))
                (resolved_fields composition).
Proof.
  unfold lowConfidence. apply filter_ext. intros f. apply num_lt_ge.
Qed.

(** C8. The high-confidence and low-confidence lists of a composition
    share no field; every resolved field is in one of them, and together
    they are a rearrangement of the resolved fields; a field whose
    confidence equals the threshold 0.8 is in the high-confidence list and
    not in the low-confidence one. *)
Theorem C8_confidence_partition (composition : CompositionResult) :
  (forall f, In f (highConfidence composition) -> ~ In f (lowConfidence composition))
  /\ (forall f, In f (resolved_fields composition)
                <-> In f (highConfidence composition)
                    \/ In f (lowConfidence composition))
  /\ Permutation (highConfidence composition ++ lowConfidence composition)
                 (resolved_fields composition)
  /\ (forall f, In f (resolved_fields composition) ->
                (confidence f == HIGH_CONFIDENCE)%Q ->
                In f (highConfidence composition)
                /\ ~ In f (lowConfidence composition)).
Proof.
  rewrite lowConfidence_negb. unfold highConfidence.
  split; [|split; [|split]].
  - intros f Hh Hl. apply filter_In in Hh as [_ Hh]. apply filter_In in Hl as [_ Hl].
    rewrite Hh in Hl. discriminate.
  - intros f. rewrite !filter_In.
    destruct (num_ge (confidence f) HIGH_CONFIDENCE); cbn [negb]; tauto.
  - apply filter_negb_perm.
  - intros f Hin Heq. rewrite !filter_In.
    assert (Hge : num_ge (confidence f) HIGH_CONFIDENCE = true).
    { unfold num_ge. apply Qeq_alt in Heq. now rewrite Heq. }
    rewrite Hge. split; [tauto|]. intros [_ Hl]. discriminate.
Qed.

(** The sample field whose confidence is the threshold itself. *)
Lemma C8_confidence_partition_witness :
  let f := Examples.resolved "customer_type" "Company" HIGH_CONFIDENCE in
  In f (resolved_fields Examples.sample_composition)
  /\ (confidence f == HIGH_CONFIDENCE)%Q
  /\ In f (highConfidence Examples.sample_composition)
  /\ ~ In f (lowConfidence Examples.sample_composition).
Proof.
  intros f.
  assert (Hin : In f (resolved_fields Examples.sample_composition))
    by (left; reflexivity).
  assert (Heq : (confidence f == HIGH_CONFIDENCE)%Q) by reflexivity.
  split; [exact Hin|]. split; [exact Heq|].
  exact (proj2 (proj2 (proj2 (C8_confidence_partition Examples.sample_composition)))
           f Hin Heq).
Defined.

(** In the sample composition the field at the threshold is in the high
    band and the field at one half in the low band. *)
Lemma confidence_bands_sample :
  map field (highConfidence Examples.sample_composition) = ["customer_type"]
  /\ map field (lowConfidence Examples.sample_composition) = ["territory"].
Proof. split; reflexivity. Qed.

End ConfirmationFacts.

(* ================================================================== *)
(** * The live-update channel: reconnect delays                        *)
(* ================================================================== *)

Module EventsFacts.
Import Events.

Lemma backoff_base : backoff 0 = 1000.
Proof. reflexivity. Qed.

Lemma backoff_doubles (n : nat) : backoff (S n) = Z.min (2 * backoff n) MAX_BACKOFF.
Proof.
  unfold backoff, BASE_BACKOFF, MAX_BACKOFF.
  rewrite Nat2Z.inj_succ, Z.pow_succ_r by lia.
  assert (0 < 2 ^ Z.of_nat n) by (apply Z.pow_pos_nonneg; lia). lia.
Qed.

Lemma backoff_capped (n : nat) : 1000 <= backoff n <= 30000.
Proof.
  unfold backoff, BASE_BACKOFF, MAX_BACKOFF.
  assert (0 < 2 ^ Z.of_nat n) by (apply Z.pow_pos_nonneg; lia). lia.
Qed.

Lemma backoff_exact (n : nat) :
  (n < 5)%nat -> backoff n = 1000 * 2 ^ Z.of_nat n.
Proof.
  intros Hn. do 5 (destruct n as [|n]; [reflexivity|]). lia.
Qed.

Lemma backoff_at_cap (n : nat) : (5 <= n)%nat -> backoff n = 30000.
Proof.
  intros Hn. unfold backoff, BASE_BACKOFF, MAX_BACKOFF.
  assert (2 ^ 5 <= 2 ^ Z.of_nat n) by (apply Z.pow_le_mono_r; lia).
  change (2 ^ 5) with 32 in *. lia.
Qed.

Lemma onerror_mounted (c : Channel) :
  mountedRef c = true ->
  timeouts (step c Error) = (timeouts c ++ [backoff (retryRef c)])%list
  /\ retryRef (step c Error) = S (retryRef c)
  /\ status (step c Error) = disconnected
  /\ mountedRef (step c Error) = true.
Proof. intros Hm. unfold step, onerror. rewrite Hm. repeat split. Qed.

Lemma timer_keeps (c : Channel) (token : bool) :
  timeouts (step c (Timer token)) = timeouts c
  /\ retryRef (step c (Timer token)) = retryRef c
  /\ mountedRef (step c (Timer token)) = mountedRef c.
Proof.
  unfold step, connect.
  destruct (mountedRef c) eqn:Hm; [|now rewrite Hm].
  destruct (negb token || negb true); cbn; now rewrite ?Hm.
Qed.

Lemma onopen_mounted (c : Channel) :
  mountedRef c = true ->
  retryRef (step c Open) = 0%nat /\ status (step c Open) = connected
  /\ timeouts (step c Open) = timeouts c /\ mountedRef (step c Open) = true.
Proof. intros Hm. unfold step, onopen. rewrite Hm. repeat split. Qed.

Lemma failures_delays (n : nat) (c : Channel) :
  mountedRef c = true ->
  timeouts (run c (failures n)) = (timeouts c ++ delays_from (retryRef c) n)%list
  /\ retryRef (run c (failures n)) = (retryRef c + n)%nat
  /\ mountedRef (run c (failures n)) = true.
Proof.
  revert c. induction n as [|n IH]; intros c Hm.
  - cbn. rewrite app_nil_r, Nat.add_0_r. auto.
  - cbn [failures run fold_left].
    destruct (onerror_mounted c Hm) as (Ht & Hr & _ & Hm1).
    destruct (timer_keeps (step c Error) true) as (Ht2 & Hr2 & Hm2).
    specialize (IH (step (step c Error) (Timer true))).
    unfold run in IH. rewrite Hm2, Ht2, Hr2, Ht, Hr in IH.
    destruct (IH Hm1) as (IHt & IHr & IHm).
    rewrite IHt, IHr, <- app_assoc. cbn. repeat split; [lia | exact IHm].
Qed.

(** C9. Started on a mounted provider, three failures in a row from the
    fresh state hand [setTimeout] the delays 1000, 2000 and 4000 ms; a
    failure at retry count [n] waits [min (1000 * 2^n) 30000] ms, which
    is the double of the delay before it cut at 30000, and raises the
    count by one; a successful connection puts the count back to 0, so
    that the failure after it waits 1000 ms again. *)
Theorem C9_reconnect_backoff :
  timeouts (run initial (Mount true :: failures 3)) = [1000; 2000; 4000]
  /\ (forall c, mountedRef c = true ->
        timeouts (step c Error) = (timeouts c ++ [backoff (retryRef c)])%list
        /\ retryRef (step c Error) = S (retryRef c))
  /\ (forall n, backoff n = Z.min (1000 * 2 ^ Z.of_nat n) 30000
                /\ backoff (S n) = Z.min (2 * backoff n) 30000
                /\ backoff n <= 30000)
  /\ (forall c n, mountedRef c = true ->
        timeouts (run c (failures n ++ [Open; Error]))
        = (timeouts c ++ delays_from (retryRef c) n ++ [1000])%list).
Proof.
  split; [reflexivity|]. split; [|split].
  - intros c Hm. destruct (onerror_mounted c Hm) as (Ht & Hr & _). now split.
  - intros n. split; [reflexivity|]. split; [apply backoff_doubles|].
    apply backoff_capped.
  - intros c n Hm. unfold run. rewrite fold_left_app. fold (run c (failures n)).
    destruct (failures_delays n c Hm) as (Ht & _ & Hm').
    cbn [fold_left].
    destruct (onopen_mounted _ Hm') as (Hr0 & _ & Ht0 & Hm0).
    destruct (onerror_mounted _ Hm0) as (Ht1 & _).
    rewrite Ht1, Hr0, Ht0, Ht, <- app_assoc. reflexivity.
Qed.

(** Two failures, a successful connection, and a failure again. *)
Lemma C9_reconnect_backoff_witness :
  mountedRef initial = true
  /\ timeouts (run initial (failures 2 ++ [Open; Error])) = [1000; 2000; 1000].
Proof.
  split; [reflexivity|].
  exact (proj2 (proj2 (proj2 C9_reconnect_backoff)) initial 2%nat eq_refl).
Defined.

End EventsFacts.

(* ================================================================== *)
(** * Response introspection: what the schema of a row holds           *)
(* ================================================================== *)

Module SchemaFacts.
Import Js JsFacts Introspection.

Lemma firstn_In_list {A : Type} (n : nat) (l : list A) (x : A) :
  In x (firstn n l) -> In x l.
Proof.
  revert n. induction l as [|y l IH]; intros [|n]; simpl; try tauto.
  intros [->|Hin]; [now left | right; eauto].
Qed.

Lemma smart_column_source (columns : list IntrospectedColumn) (k : string) :
  In k (selectSmartColumns columns) ->
  exists c, In c columns /\ key c = k /\ hidden c = false.
Proof.
  rewrite IntrospectionFacts.selectSmartColumns_sorted_prefix. intros Hin.
  apply in_map_iff in Hin as [c [Hk Hin]].
  apply firstn_In_list, sort_by_In, filter_In in Hin as [Hin Hh].
  exists c. repeat split; [exact Hin | exact Hk |].
  now apply negb_true_iff in Hh.
Qed.

(** The smart list of an introspected row names only keys of the row
    whose column is shown: none of the always-hidden names, no key ending
    in [_id], no column holding a UUID. *)
Theorem listColumns_never_hidden `{CaseOps} (arrayKey : string) (now : Z)
    (firstRow : list (string * Value)) (k : string) :
  In k (listColumns (schemaOfRow arrayKey now firstRow)) ->
  exists v, In (k, v) firstRow
            /\ has k HIDDEN_COLUMNS = false
            /\ endsWith k "_id" = false
            /\ inferColumnType k v <> TId.
Proof.
  unfold schemaOfRow. cbn [listColumns]. intros Hin.
  apply smart_column_source in Hin as (c & Hc & Hk & Hh).
  apply in_map_iff in Hc as [[k' v] [<- Hin]].
  cbn [columnOf key] in Hk. subst k'. exists v. split; [exact Hin|].
  change (hidden (columnOf (k, v)))
    with (shouldHideColumn k || ColumnType_eqb (inferColumnType k v) TId) in Hh.
  apply orb_false_iff in Hh as [Hs Ht]. unfold shouldHideColumn in Hs.
  destruct (has k HIDDEN_COLUMNS); [discriminate|].
  cbn [ID_SUFFIXES existsb] in Hs. rewrite orb_false_r in Hs.
  destruct (endsWith k "_id"); [discriminate|].
  repeat split. intros Hid. now rewrite Hid in Ht.
Qed.

Lemma listColumns_never_hidden_witness :
  listColumns (schemaOfRow (H := ascii_case) "customers" 0
                 [("id", VString sample_uuid); ("name", VString "Acme");
                  ("company_id", VString "c1"); ("status", VString "Active")])
  = ["status"; "name"]
  /\ exists v, In ("name", v)
                 [("id", VString sample_uuid); ("name", VString "Acme");
                  ("company_id", VString "c1"); ("status", VString "Active")]
               /\ endsWith "name" "_id" = false.
Proof.
  split; [reflexivity|].
  destruct (listColumns_never_hidden (H := ascii_case) "customers" 0
              [("id", VString sample_uuid); ("name", VString "Acme");
               ("company_id", VString "c1"); ("status", VString "Active")]
              "name") as (v & Hin & _ & He & _).
  - right. left. reflexivity.
  - exists v. split; [exact Hin | exact He].
Defined.

Lemma find_over_app {A : Type} (p : A -> bool) (l1 l2 : list A) :
  find p (l1 ++ l2)%list
  = match find p l1 with Some x => Some x | None => find p l2 end.
Proof.
  induction l1 as [|x l1 IH]; [reflexivity|].
  simpl. destruct (p x); [reflexivity | exact IH].
Qed.

Lemma status_fold (row : list (string * Value)) (acc : option string) :
  fold_left (fun acc e => if has (fst e) STATUS_COLUMNS then Some (fst e) else acc)
            row acc
  = match find (fun e => has (fst e) STATUS_COLUMNS) (rev row) with
    | Some e => Some (fst e)
    | None => acc
    end.
Proof.
  revert acc. induction row as [|e row IH]; intros acc; [reflexivity|].
  cbn [fold_left rev]. rewrite IH, find_over_app.
  destruct (find _ (rev row)); [reflexivity|].
  cbn [find]. now destruct (has (fst e) STATUS_COLUMNS).
Qed.

(** The status column of a schema is the last key of the row, in entry
    order, that is one of the status names; there is none exactly when the
    row has no such key. *)
Theorem statusColumn_last_status_key `{CaseOps} (arrayKey : string) (now : Z)
    (firstRow : list (string * Value)) :
  statusColumn (schemaOfRow arrayKey now firstRow)
  = option_map fst (find (fun e => has (fst e) STATUS_COLUMNS) (rev firstRow))
  /\ (statusColumn (schemaOfRow arrayKey now firstRow) = None
      <-> forall e, In e firstRow -> has (fst e) STATUS_COLUMNS = false)
  /\ (forall k, statusColumn (schemaOfRow arrayKey now firstRow) = Some k ->
        has k STATUS_COLUMNS = true /\ exists v, In (k, v) firstRow).
Proof.
  unfold schemaOfRow. cbn [statusColumn]. rewrite status_fold.
  destruct (find _ (rev firstRow)) as [[k v]|] eqn:Hf; cbn [option_map fst].
  - apply find_some in Hf as [Hin Hs]. apply in_rev in Hin. cbn [fst] in Hs.
    split; [reflexivity|]. split.
    + split; [discriminate|]. intros Hall.
      specialize (Hall (k, v) Hin). cbn [fst] in Hall. congruence.
    + intros k' [= <-]. split; [exact Hs|]. now exists v.
  - split; [reflexivity|]. split; [|discriminate].
    split; [|reflexivity]. intros _ e Hin.
    apply (find_none _ _ Hf). now apply in_rev in Hin.
Qed.

Lemma statusColumn_last_status_key_witness :
  statusColumn (schemaOfRow (H := ascii_case) "orders" 0
                  [("status", VString "Open"); ("stage", VString "Won")])
  = Some "stage"
  /\ has "stage" STATUS_COLUMNS = true.
Proof.
  split; [reflexivity|].
  exact (proj1 (proj2 (proj2 (statusColumn_last_status_key (H := ascii_case)
                                "orders" 0
                                [("status", VString "Open");
                                 ("stage", VString "Won")]))
                 "stage" eq_refl)).
Defined.

End SchemaFacts.

(* ================================================================== *)
(** * The string patterns of the type inference                        *)
(* ================================================================== *)

Module PatternFacts.
Import Js Introspection Patterns.

Lemma digit_not_dash (c : ascii) : is_digit c = true -> Ascii.eqb "-" c = false.
Proof.
  intros Hd. destruct (Ascii.eqb "-" c) eqn:E; [|reflexivity].
  apply Ascii.eqb_eq in E. subst c. discriminate Hd.
Qed.

Lemma hex_not_dash (c : ascii) : is_hex c = true -> Ascii.eqb "-" c = false.
Proof.
  intros Hd. destruct (Ascii.eqb "-" c) eqn:E; [|reflexivity].
  apply Ascii.eqb_eq in E. subst c. discriminate Hd.
Qed.

(** The head of a string that starts like a date. *)
Lemma date_prefix_head (s r : string) :
  date_prefix s = Some r ->
  exists c1 c2 c3 c4 t,
    s = String c1 (String c2 (String c3 (String c4 (String "-" t))))
    /\ is_digit c1 = true.
Proof.
  unfold date_prefix, lit. intros Hp.
  destruct s as [|c1 [|c2 [|c3 [|c4 [|c5 t]]]]];
    cbn [times mbind option_bind] in Hp;
    repeat match type of Hp with
           | context [if is_digit ?c then _ else _] =>
               destruct (is_digit c) eqn:?; cbn [mbind option_bind] in Hp
           end; try discriminate Hp.
  destruct (Ascii.eqb "-" c5) eqn:E; [|discriminate Hp].
  apply Ascii.eqb_eq in E. subst c5.
  now exists c1, c2, c3, c4, t.
Qed.

Lemma uuid_head (s : string) :
  UUID_RE s = true ->
  exists c1 c2 c3 c4 c5 c6 c7 c8 t,
    s = String c1 (String c2 (String c3 (String c4 (String c5
          (String c6 (String c7 (String c8 (String "-" t))))))))
    /\ is_hex c1 = true /\ is_hex c5 = true.
Proof.
  unfold UUID_RE, lit. intros Hu.
  destruct s as [|c1 [|c2 [|c3 [|c4 [|c5 [|c6 [|c7 [|c8 [|c9 t]]]]]]]]];
    cbn [times mbind option_bind at_end] in Hu; try discriminate Hu;
    repeat match type of Hu with
           | context [if is_hex ?c then _ else _] =>
               destruct (is_hex c) eqn:?; cbn [mbind option_bind at_end] in Hu
           end; try discriminate Hu.
  destruct (Ascii.eqb "-" c9) eqn:E; cbn [mbind option_bind at_end] in Hu;
    [|discriminate Hu].
  apply Ascii.eqb_eq in E. subst c9.
  now exists c1, c2, c3, c4, c5, c6, c7, c8, t.
Qed.

Lemma skip_digits_chars (r : string) :
  forallb amount_char (list_ascii_of_string (skip_digits r)) = true ->
  forallb amount_char (list_ascii_of_string r) = true.
Proof.
  induction r as [|c r IH]; [trivial|].
  cbn [skip_digits]. destruct (is_digit c) eqn:Hd; [|trivial].
  intros Hs. cbn [list_ascii_of_string forallb]. unfold amount_char at 1.
  rewrite Hd. cbn [orb andb]. now apply IH.
Qed.

Lemma currency_chars (s : string) :
  CURRENCY_RE s = true ->
  forall c r, s = String c r ->
    (is_digit c = true \/ c = "-"%char)
    /\ forallb amount_char (list_ascii_of_string r) = true.
Proof.
  unfold CURRENCY_RE, lit. intros Hm c r ->.
  assert (Hbody : forall s1,
    at_end (r0 ← times is_digit 1 s1;
            r1 ← times (Ascii.eqb ".") 1 (skip_digits r0);
            times is_digit 2 r1) = true ->
    forallb amount_char (list_ascii_of_string s1) = true
    /\ exists d t, s1 = String d t /\ is_digit d = true).
  { intros s1. destruct s1 as [|d t]; [discriminate|].
    cbn [times mbind option_bind]. destruct (is_digit d) eqn:Hd; [|discriminate].
    cbn [mbind option_bind]. intros Hb. split; [|now exists d, t].
    cbn [list_ascii_of_string forallb]. unfold amount_char at 1. rewrite Hd.
    cbn [orb andb]. apply skip_digits_chars.
    destruct (skip_digits t) as [|p [|d1 [|d2 [|x u]]]];
      cbn [times mbind option_bind at_end] in Hb; try discriminate;
      repeat match type of Hb with
             | context [if ?b then _ else _] =>
                 destruct b eqn:?; cbn [mbind option_bind at_end times] in Hb
             end; try discriminate.
    cbn [list_ascii_of_string forallb]. unfold amount_char.
    repeat match goal with
           | H : is_digit _ = true |- _ => rewrite H; clear H
           | H : Ascii.eqb "." ?p = true |- _ =>
               apply Ascii.eqb_eq in H; subst p
           end.
    reflexivity. }
  destruct (Ascii.eqb c "-") eqn:E.
  - apply Ascii.eqb_eq in E. subst c. destruct (Hbody r Hm) as [Hall _].
    split; [now right | exact Hall].
  - destruct (Hbody _ Hm) as [Hall (d & t & [= <- <-] & Hd)].
    split; [now left|]. cbn [list_ascii_of_string forallb] in Hall.
    now apply andb_true_iff in Hall as [_ Hall].
Qed.

(** A string matches at most one of the four patterns the inference
    tries (UUID, date-time, date, two-decimal amount): which of them is
    tested first never decides the inferred type. *)
Theorem string_patterns_disjoint (s : string) :
  (UUID_RE s = true ->
     ISO_DATETIME_RE s = false /\ ISO_DATE_RE s = false /\ CURRENCY_RE s = false)
  /\ (ISO_DATETIME_RE s = true -> ISO_DATE_RE s = false /\ CURRENCY_RE s = false)
  /\ (ISO_DATE_RE s = true -> CURRENCY_RE s = false).
Proof.
  assert (Hdate_cur : forall r, date_prefix s = Some r -> CURRENCY_RE s = false).
  { intros r Hp. apply date_prefix_head in Hp as (c1 & c2 & c3 & c4 & t & -> & Hd).
    destruct (CURRENCY_RE _) eqn:Hc; [|reflexivity].
    destruct (currency_chars _ Hc _ _ eq_refl) as [_ Hall].
    cbn [list_ascii_of_string forallb] in Hall.
    do 3 (apply andb_true_iff in Hall as [_ Hall]).
    apply andb_true_iff in Hall as [Hdash _]. discriminate Hdash. }
  assert (Huuid_date : UUID_RE s = true -> date_prefix s = None).
  { intros Hu. apply uuid_head in Hu as (c1&c2&c3&c4&c5&c6&c7&c8&t & -> & _ & H5).
    destruct (date_prefix _) as [r|] eqn:Hp; [|reflexivity].
    apply date_prefix_head in Hp as (d1&d2&d3&d4&u & [= _ _ _ _ E _] & _).
    subst c5. discriminate H5. }
  split; [|split].
  - intros Hu. pose proof (Huuid_date Hu) as Hn.
    unfold ISO_DATETIME_RE, ISO_DATE_RE. rewrite Hn. cbn [mbind option_bind].
    split; [reflexivity|]. split; [reflexivity|].
    apply uuid_head in Hu as (c1&c2&c3&c4&c5&c6&c7&c8&t & -> & H1 & _).
    destruct (CURRENCY_RE _) eqn:Hc; [|reflexivity].
    destruct (currency_chars _ Hc _ _ eq_refl) as [_ Hall].
    cbn [list_ascii_of_string forallb] in Hall.
    do 7 (apply andb_true_iff in Hall as [_ Hall]).
    apply andb_true_iff in Hall as [Hdash _]. discriminate Hdash.
  - unfold ISO_DATETIME_RE, ISO_DATE_RE.
    destruct (date_prefix s) as [r|] eqn:Hp; [|discriminate].
    cbn [mbind option_bind]. intros Hdt. split; [|now apply (Hdate_cur r)].
    destruct r; [discriminate Hdt | reflexivity].
  - unfold ISO_DATE_RE. destruct (date_prefix s) as [r|] eqn:Hp; [|discriminate].
    intros _. now apply (Hdate_cur r).
Qed.

Lemma string_patterns_disjoint_witness :
  UUID_RE sample_uuid = true
  /\ ISO_DATETIME_RE sample_uuid = false /\ ISO_DATE_RE sample_uuid = false
  /\ CURRENCY_RE sample_uuid = false.
Proof.
  split; [reflexivity|].
  exact (proj1 (string_patterns_disjoint sample_uuid) eq_refl).
Defined.

End PatternFacts.

(* ================================================================== *)
(** * UI.yaml conversion: shape of the generated form                  *)
(* ================================================================== *)

Module UiYamlShape.
Import Js JsFacts FormSpecTypes UiYamlToForm FormSpecAux UiYamlFacts.






(** A generated form has at least one section and submits to the action
    it was asked for; it exists only for an action mapped to the FormView
    component whose entity is defined, and its title and submit label
    follow the mode of the action: New/Create for create, Edit/Update for
    anything else. *)
Theorem generated_form_shape `{CaseOps} (config : UIConfig) (action : string)
    (spec : FormSpec) :
  generateFormSpec config action = Some spec ->
  submit_action spec = action
  /\ sections spec <> []
  /\ exists entry entity,
       lookup action (action_map config) = Some entry
       /\ component entry = Some "FormView"
       /\ lookup (or_str (am_entity entry) "") (entities config) = Some entity
       /\ title spec
          = (if str_is (mode entry) "create" then "New" else "Edit")
            +:+ " " +:+ ent_label entity
       /\ submit_label spec
          = Some ((if str_is (mode entry) "create" then "Create " else "Update ")
                  +:+ ent_label entity).
Proof.
  unfold generateFormSpec. intros Hgen.
  destruct (lookup action (action_map config)) as [entry|]; [|discriminate].
  cbn [mbind option_bind] in Hgen.
  destruct (str_is (component entry) "FormView") eqn:Hc; [|discriminate].
  cbn [negb] in Hgen.
  destruct (negb (truthy_str (am_entity entry))); [discriminate|].
  destruct (lookup _ (entities config)) as [entity|] eqn:He; [|discriminate].
  cbn [mbind option_bind] in Hgen.
  assert (Hcomp : component entry = Some "FormView").
  { unfold str_is in Hc. destruct (component entry) as [c|]; [|discriminate].
    apply String.eqb_eq in Hc. now subst. }
  destruct (match views_form entity with
            | Some formView => _
            | None => _
            end) as [|s0 ss]; [discriminate|].
  injection Hgen as <-. cbn [submit_action sections title submit_label].
  split; [reflexivity|]. split; [discriminate|].
  exists entry, entity. repeat split; try assumption;
    now destruct (str_is (mode entry) "create").
Qed.

Lemma generated_form_shape_witness :
  exists spec,
    generateFormSpec (H := ascii_case) Examples.selling_config "add-customer"
    = Some spec
    /\ submit_action spec = "add-customer" /\ sections spec <> [].
Proof.
  eexists. split; [reflexivity|].
  destruct (generated_form_shape (H := ascii_case) Examples.selling_config
              "add-customer" _ eq_refl) as (Ha & Hs & _).
  split; [exact Ha | exact Hs].
Defined.

(** ** The section of the ungrouped fields *)






(** ** Lookup wiring of link fields *)

Lemma startsWith_append (p x : string) : startsWith (p +:+ x) p = true.
Proof.
  unfold startsWith. induction p as [|c p IH]; [now destruct x|].
  simpl. destruct (Ascii.ascii_dec c c) as [_|Hne]; [exact IH | now elim Hne].
Qed.

Lemma overrides_list_prefix (e a : string) :
  lookup e ENTITY_ACTION_OVERRIDES = Some a -> startsWith a "list-" = true.
Proof.
  intros Hl. apply lookup_In in Hl. unfold ENTITY_ACTION_OVERRIDES in Hl.
  repeat (destruct Hl as [[= <- <-]|Hl]; [reflexivity|]).
  destruct Hl.
Qed.

Lemma inferSearchAction_list_prefix (le : option string) (a : string) :
  inferSearchAction le = Some a -> startsWith a "list-" = true /\ a <> "".
Proof.
  unfold inferSearchAction.
  destruct (truthy_str le); cbn [negb]; [|discriminate].
  destruct (truthy_str (lookup (or_str le "") ENTITY_ACTION_OVERRIDES)) eqn:Ht.
  - intros Hl. split; [now apply overrides_list_prefix in Hl|].
    intros ->. now rewrite Hl in Ht.
  - intros [= <-]. split; [apply startsWith_append | discriminate].
Qed.

(** A form field carries a lookup action only when its definition is a
    link with a search action, explicit or inferred from the entity name;
    the field then has the entity-lookup type, the value field id and a
    display field (name by default); an inferred action always starts with
    list-; and the owning skill is written down only when the table of
    list actions names one other than the skill of the form. *)
Theorem link_field_wiring (k : string) (field : FieldDef) (skill a : string) :
  entity_action (fieldDefToFormField k field skill) = Some a ->
  fd_type field = "link"
  /\ type (fieldDefToFormField k field skill) = "entity-lookup"
  /\ a <> ""
  /\ entity_value_field (fieldDefToFormField k field skill) = Some "id"
  /\ (exists d, entity_display_field (fieldDefToFormField k field skill) = Some d
                /\ d <> "")
  /\ (truthy_str (link_search_action field) = false ->
      startsWith a "list-" = true)
  /\ (forall o, entity_skill (fieldDefToFormField k field skill) = Some o ->
                o <> skill /\ lookup a ACTION_SKILL_MAP = Some o).
Proof.
  unfold fieldDefToFormField.
  cbn [entity_action type entity_value_field entity_display_field entity_skill].
  set (sa := if truthy_str (link_search_action field)
             then link_search_action field
             else inferSearchAction (link_entity field)).
  destruct (String.eqb (fd_type field) "link") eqn:Hty; cbn [andb]; [|discriminate].
  destruct (truthy_str sa) eqn:Hsa; [|discriminate].
  intros Ha. apply String.eqb_eq in Hty.
  assert (Hor : or_str sa "" = a).
  { rewrite Ha. destruct a; [now rewrite Ha in Hsa | reflexivity]. }
  split; [exact Hty|]. split; [now rewrite Hty|].
  split; [intros ->; now rewrite Ha in Hsa|]. split; [reflexivity|].
  split.
  { eexists. split; [reflexivity|].
    destruct (link_display_field field) as [[|c d]|]; discriminate. }
  split.
  { intros Hexp. unfold sa in Ha. rewrite Hexp in Ha.
    now apply inferSearchAction_list_prefix in Ha. }
  intros o. unfold resolveEntitySkill. rewrite Hor.
  destruct (lookup a ACTION_SKILL_MAP) as [o'|]; [|discriminate].
  destruct (negb (String.eqb o' skill)) eqn:Hne; [|discriminate].
  intros [= <-]. split; [|reflexivity].
  apply negb_true_iff, String.eqb_neq in Hne. exact Hne.
Qed.

Lemma link_field_wiring_witness :
  let fd := {| fd_type := "link"; fd_label := "Item"; fd_required := Some true;
               read_only := None; hidden := None; fd_default := None;
               fd_placeholder := None; help_text := None; fd_min := None;
               fd_max := None; precision := None; fd_options := None;
               link_entity := Some "item"; link_display_field := None;
               link_search_action := None; param_name := None;
               in_form_view := Some true; form_group := None;
               form_order := None |} in
  entity_action (fieldDefToFormField "item_id" fd "erpclaw-selling")
  = Some "list-items"
  /\ entity_skill (fieldDefToFormField "item_id" fd "erpclaw-selling")
     = Some "erpclaw-inventory"
  /\ "erpclaw-inventory" <> "erpclaw-selling".
Proof.
  intros fd.
  assert (Ha : entity_action (fieldDefToFormField "item_id" fd "erpclaw-selling")
               = Some "list-items") by reflexivity.
  split; [exact Ha|]. split; [reflexivity|].
  destruct (link_field_wiring "item_id" fd "erpclaw-selling" "list-items" Ha)
    as (_ & _ & _ & _ & _ & _ & Hs).
  exact (proj1 (Hs "erpclaw-inventory" eq_refl)).
Defined.

End UiYamlShape.

(* ================================================================== *)
(** * Auto form specs: which fields, in which order, of which type     *)
(* ================================================================== *)

Module AutoFormShape.
Import Js JsFacts FormSpecTypes AutoFormSpec FormSpecAux AutoFormFacts.

Lemma param_type_range (t : string) :
  In (or_str (lookup t PARAM_TYPE_TO_FIELD_TYPE) "text") FieldTypes.
Proof.
  destruct (lookup t PARAM_TYPE_TO_FIELD_TYPE) as [ft|] eqn:Hl;
    [|simpl; tauto].
  apply lookup_In in Hl. unfold PARAM_TYPE_TO_FIELD_TYPE in Hl.
  repeat (destruct Hl as [[= <- <-]|Hl]; [simpl; tauto|]).
  destruct Hl.
Qed.

Lemma paramToField_key_type `{CaseOps} (p : ParamField) (skill : string) :
  key (paramToField p skill) = name p
  /\ type (paramToField p skill)
     = or_str (lookup (pf_type p) PARAM_TYPE_TO_FIELD_TYPE) "text"
  /\ required (paramToField p skill) = Some (pf_required p).
Proof.
  unfold paramToField.
  repeat match goal with
         | |- context [if ?b then _ else _] => destruct b
         end; repeat split.
Qed.

(** The fields of the fallback section of a JSON parameter. *)
Lemma jsonSection_none `{CaseOps} (p : ParamField) :
  exists f, fields (jsonSection None p) = [f]
            /\ key f = name p /\ type f = "textarea"
            /\ required f = Some (pf_required p)
            /\ section_type (jsonSection None p) = None.
Proof. eexists. repeat split. Qed.

Lemma flat_map_fields_json `{CaseOps} (l : list ParamField) :
  map key (flat_map fields (map (jsonSection None) l)) = map name l
  /\ Forall (fun f => In (type f) FieldTypes)
            (flat_map fields (map (jsonSection None) l)).
Proof.
  induction l as [|p l [IHk IHt]]; [split; [reflexivity | constructor]|].
  cbn [map flat_map]. destruct (jsonSection_none p) as (f & -> & Hk & Ht & _).
  cbn [app map]. rewrite Hk, IHk. split; [reflexivity|].
  constructor; [rewrite Ht; simpl; tauto | exact IHt].
Qed.

Lemma fields_of_optional_section (label : string) (fs : list FormFieldSpec) :
  flat_map fields match fs with
                  | [] => []
                  | _ :: _ => [fieldsSection label (List.length fs) fs]
                  end = fs.
Proof. destruct fs; [reflexivity|]. cbn. now rewrite app_nil_r. Qed.

(** All fields of the sections built before the hidden parameters are
    added, when there is no child-table schema. *)
Lemma base_fields `{CaseOps} (skill action : string) (ps : ActionParamSchema) :
  flat_map fields (baseSections skill action ps None)
  = (map (fun p => paramToField p skill) (List.filter is_regular (required_params ps))
     ++ map (fun p => paramToField p skill)
            (List.filter is_regular (optional_params ps))
     ++ flat_map fields
          (map (jsonSection None)
               (List.filter is_json (required_params ps ++ optional_params ps))))%list.
Proof.
  unfold baseSections. cbn [mbind option_bind].
  rewrite !flat_map_app.
  set (rr := List.filter is_regular (required_params ps)).
  set (ro := List.filter is_regular (optional_params ps)).
  f_equal; [|f_equal].
  - destruct rr as [|r rr']; [reflexivity|]. cbn. now rewrite app_nil_r.
  - destruct ro as [|r ro']; [reflexivity|]. cbn. now rewrite app_nil_r.
Qed.

Lemma base_empty `{CaseOps} (skill action : string) (ps : ActionParamSchema)
    (cts : option ChildTableSchema) :
  baseSections skill action ps cts = [] <->
  List.filter is_regular (required_params ps) = []
  /\ List.filter is_regular (optional_params ps) = []
  /\ List.filter is_json (required_params ps ++ optional_params ps) = [].
Proof.
  unfold baseSections.
  destruct (List.filter is_regular (required_params ps));
    destruct (List.filter is_regular (optional_params ps));
    destruct (List.filter is_json (required_params ps ++ optional_params ps));
    cbn; split; try discriminate; try tauto; intros (H1 & H2 & H3);
    discriminate.
Qed.

(** The fields of a generated spec, hidden parameters included. *)
Lemma auto_spec_fields `{CaseOps} (skill action : string) (ps : ActionParamSchema)
    (cts : option ChildTableSchema) (spec : FormSpec) :
  generateAutoFormSpec skill action ps cts = Some spec ->
  all_fields spec
  = (match baseSections skill action ps cts with
     | [] => []
     | _ :: _ =>
         rev (map (fun hp => paramToField hp skill)
                  (List.filter is_auto_hidden (required_params ps)))
     end ++ flat_map fields (baseSections skill action ps cts))%list.
Proof.
  unfold generateAutoFormSpec, all_fields.
  destruct (negb (has (action_type ps) formActions)); [discriminate|].
  destruct (required_params ps ++ optional_params ps)%list; [discriminate|].
  intros [= <-]. cbn [sections].
  destruct (baseSections skill action ps cts) as [|s0 rest];
    [now destruct (List.filter is_auto_hidden (required_params ps))|].
  destruct (List.filter is_auto_hidden (required_params ps)) as [|hp hps];
    [reflexivity|].
  rewrite fold_unshift_map, (unshiftFirst_fold _ _ s0 rest eq_refl).
  cbn [flat_map fields]. now rewrite <- app_assoc.
Qed.

(** Without a child-table schema the fields of a generated auto form are,
    in this order: the required hidden parameters, latest first (left out
    when there is no other field); the required parameters; the optional
    ones; the JSON parameters as text areas.  Each is keyed by the name
    of its parameter, so that no visible parameter is lost or doubled, and
    each has one of the eight field types. *)
Theorem auto_form_fields_in_order `{CaseOps} (skill action : string)
    (ps : ActionParamSchema) (spec : FormSpec) :
  generateAutoFormSpec skill action ps None = Some spec ->
  map key (all_fields spec)
  = (match (List.filter is_regular (required_params ps)
            ++ List.filter is_regular (optional_params ps)
            ++ List.filter is_json (required_params ps ++ optional_params ps))%list
     with
     | [] => []
     | _ :: _ =>
         rev (map name (List.filter is_auto_hidden (required_params ps)))
     end
     ++ map name (List.filter is_regular (required_params ps))
     ++ map name (List.filter is_regular (optional_params ps))
     ++ map name (List.filter is_json (required_params ps ++ optional_params ps)))%list
  /\ Forall (fun f => In (type f) FieldTypes) (all_fields spec).
Proof.
  intros Hgen. rewrite (auto_spec_fields _ _ _ _ _ Hgen), base_fields.
  destruct (flat_map_fields_json
              (List.filter is_json (required_params ps ++ optional_params ps)))
    as [Hjk Hjt].
  assert (Hconv : forall l, map key (map (fun p => paramToField p skill) l)
                            = map name l).
  { intros l. rewrite map_map. apply map_ext. intros p.
    apply (paramToField_key_type p skill). }
  assert (Htypes : forall l, Forall (fun f => In (type f) FieldTypes)
                               (map (fun p => paramToField p skill) l)).
  { intros l. apply List.Forall_forall. intros f Hf.
    apply in_map_iff in Hf as [p [<- _]].
    destruct (paramToField_key_type p skill) as (_ & -> & _).
    apply param_type_range. }
  split.
  - rewrite !map_app, !Hconv, Hjk. f_equal.
    destruct (baseSections skill action ps None) eqn:Hb.
    + apply base_empty in Hb as (-> & -> & ->). reflexivity.
    + destruct (List.filter is_regular (required_params ps)
                ++ List.filter is_regular (optional_params ps)
                ++ List.filter is_json (required_params ps ++ optional_params ps))%list
        eqn:Hall.
      * apply app_eq_nil in Hall as [H1 Hall]. apply app_eq_nil in Hall as [H2 H3].
        assert (Hnil : baseSections skill action ps None = [])
          by (apply base_empty; auto).
        congruence.
      * now rewrite map_rev, Hconv.
  - apply Forall_app. split; [|apply Forall_app; split;
                               [apply Htypes | apply Forall_app; split;
                                [apply Htypes | exact Hjt]]].
    destruct (baseSections skill action ps None); [constructor|].
    rewrite <- map_rev. apply Htypes.
Qed.

Lemma auto_form_fields_in_order_witness :
  exists spec,
    generateAutoFormSpec (H := ascii_case) "erpclaw-selling" "add-customer"
      Examples.add_customer_params None = Some spec
    /\ map key (all_fields spec) = ["company-id"; "customer-name"; "customer-type"].
Proof.
  eexists. split; [reflexivity|].
  exact (proj1 (auto_form_fields_in_order (H := ascii_case) "erpclaw-selling"
                  "add-customer" Examples.add_customer_params _ eq_refl)).
Defined.

Lemma jsonSection_of `{CaseOps} (childTables : option (list ChildTableInfo))
    (p : ParamField) :
  json_section_of []
    (cts ← childTables; find (fun ct => String.eqb (ct_param_name ct) (name p)) cts)
    p (jsonSection childTables p).
Proof.
  unfold json_section_of, jsonSection.
  destruct (cts ← childTables;
            find (fun ct => String.eqb (ct_param_name ct) (name p)) cts)
    as [[tbl pn [|f fs]]|].
  - split; [reflexivity|]. do 2 (split; [reflexivity|]). eexists. repeat split.
  - repeat split.
  - split; [reflexivity|]. do 2 (split; [reflexivity|]). eexists. repeat split.
Qed.

Lemma json_section_of_pre `{CaseOps} (pre : list FormFieldSpec)
    (matched : option ChildTableInfo) (p : ParamField) (s0 s0' : FormSectionSpec) :
  json_section_of [] matched p s0 ->
  section_label s0' = section_label s0 ->
  section_type s0' = section_type s0 ->
  section_key s0' = section_key s0 ->
  min_rows s0' = min_rows s0 ->
  fields s0' = (pre ++ fields s0)%list ->
  json_section_of pre matched p s0'.
Proof.
  unfold json_section_of. intros [Hl Hm] -> -> -> -> ->. split; [exact Hl|].
  destruct matched as [[tbl pn [|f fs]]|].
  - destruct Hm as (Ht & Hk & g & -> & Hg). repeat split; try assumption.
    now exists g.
  - destruct Hm as (Ht & Hk & Hr & ->). now repeat split.
  - destruct Hm as (Ht & Hk & g & -> & Hg). repeat split; try assumption.
    now exists g.
Qed.

Lemma filter_nil_none {A : Type} (f : A -> bool) (l : list A) (x : A) :
  List.filter f l = [] -> In x l -> f x = false.
Proof.
  intros Hnil Hin. destruct (f x) eqn:Hf; [|reflexivity].
  assert (Hx : In x (List.filter f l)) by (apply filter_In; now split).
  rewrite Hnil in Hx. destruct Hx.
Qed.

(** In a generated auto form, every JSON parameter has a section of its
    own, labelled by the parameter.  It is decided by the child table
    matched with the parameter (the first table, among those of the
    entity of the action, declared for the parameter's name): when that
    table has fields the section is repeatable, keyed by the parameter
    name, asks for one row at least, and has the row fields of the
    table; in every other case it has the single text area keyed by the
    parameter name, required as the parameter is.  Before these fields
    the section holds only gateway-injected required parameters, and
    none when the action has a parameter that is neither JSON nor
    gateway-injected.  The name of the entity is supposed not to be that
    of a member every object inherits. *)
Theorem json_param_section `{CaseOps} (skill action : string)
    (paramSchema : ActionParamSchema) (childTableSchema : option ChildTableSchema)
    (spec : FormSpec) (p : ParamField) :
  has (deriveEntity action) Object_prototype_keys = false ->
  generateAutoFormSpec skill action paramSchema childTableSchema = Some spec ->
  In p (required_params paramSchema ++ optional_params paramSchema)%list ->
  pf_type p = "json" ->
  exists pre sec,
    In sec (sections spec)
    /\ json_section_of pre (matchedChild childTableSchema action p) p sec
    /\ (forall f, In f pre ->
          exists hp, In hp (required_params paramSchema)
                     /\ is_auto_hidden hp = true /\ f = paramToField hp skill)
    /\ ((exists q, In q (required_params paramSchema ++ optional_params paramSchema)%list
                   /\ is_regular q = true) -> pre = []).
Proof.
  intros _ Hgen Hp Hjson.
  set (childTables := cts ← childTableSchema;
                      lookup (deriveEntity action) (child_tables cts)).
  assert (Hmatched : matchedChild childTableSchema action p
                     = (cts ← childTables;
                        find (fun ct => String.eqb (ct_param_name ct) (name p)) cts)).
  { unfold matchedChild, childTables. now destruct childTableSchema. }
  pose proof (jsonSection_of childTables p) as Hsec0. rewrite <- Hmatched in Hsec0.
  set (jsonFields := List.filter is_json
                       (required_params paramSchema ++ optional_params paramSchema)%list).
  assert (Hin0 : In (jsonSection childTables p) (map (jsonSection childTables) jsonFields)).
  { apply in_map, filter_In. split; [exact Hp|]. unfold is_json. rewrite Hjson.
    reflexivity. }
  set (hidden := List.filter is_auto_hidden (required_params paramSchema)).
  assert (Hhidden : forall f, In f (rev (map (fun hp => paramToField hp skill) hidden)) ->
            exists hp, In hp (required_params paramSchema)
                       /\ is_auto_hidden hp = true /\ f = paramToField hp skill).
  { intros f Hf. apply (proj2 (List.in_rev _ _)) in Hf.
    apply in_map_iff in Hf as (hp & <- & Hhp). apply filter_In in Hhp as [Hr Hh].
    now exists hp. }
  unfold generateAutoFormSpec in Hgen.
  destruct (negb (has (action_type paramSchema) formActions)); [discriminate|].
  destruct (required_params paramSchema ++ optional_params paramSchema)%list
    as [|a0 al] eqn:Hall; [discriminate|].
  injection Hgen as <-. cbn [sections]. fold hidden.
  unfold baseSections. rewrite Hall. fold jsonFields. fold childTables.
  destruct (List.filter is_regular (required_params paramSchema)) as [|r rs] eqn:Hreq;
    [destruct (List.filter is_regular (optional_params paramSchema))
       as [|o os] eqn:Hopt|].
  - (* no regular parameter: the JSON sections are all there is *)
    cbn [app].
    assert (Hnoreg : (exists q, In q (a0 :: al) /\ is_regular q = true) -> False).
    { intros (q & Hq & Hr). rewrite <- Hall in Hq.
      apply in_app_or in Hq as [Hq|Hq].
      - rewrite (filter_nil_none _ _ q Hreq Hq) in Hr. discriminate.
      - rewrite (filter_nil_none _ _ q Hopt Hq) in Hr. discriminate. }
    destruct hidden as [|hp hps] eqn:Hh.
    + exists [], (jsonSection childTables p).
      split; [now destruct (map _ jsonFields)|]. split; [exact Hsec0|].
      split; [intros f []|reflexivity].
    + destruct (map (jsonSection childTables) jsonFields) as [|s0 rest] eqn:Hmap;
        [destruct Hin0|].
      rewrite fold_unshift_map, (unshiftFirst_fold _ _ s0 rest eq_refl).
      destruct Hin0 as [Hs0|Hrest].
      * eexists (rev (map (fun hp => paramToField hp skill) (hp :: hps))), _.
        split; [left; reflexivity|].
        split; [|split; [exact Hhidden | intros Hq; now elim (Hnoreg Hq)]].
        apply (json_section_of_pre _ _ p s0); try reflexivity.
        now rewrite Hs0.
      * exists [], (jsonSection childTables p).
        split; [now right|]. split; [exact Hsec0|].
        split; [intros f []|reflexivity].
  - (* optional regular parameters only *)
    cbn [app].
    exists [], (jsonSection childTables p).
    split; [|split; [exact Hsec0 | split; [intros f []|reflexivity]]].
    destruct hidden as [|hp hps]; [now right|].
    rewrite fold_unshift_map, (unshiftFirst_fold _ _ _ _ eq_refl). now right.
  - (* a required regular parameter *)
    exists [], (jsonSection childTables p).
    split; [|split; [exact Hsec0 | split; [intros f []|reflexivity]]].
    cbn [app].
    destruct hidden as [|hp hps].
    + right. apply in_or_app. now right.
    + rewrite fold_unshift_map, (unshiftFirst_fold _ _ _ _ eq_refl).
      right. apply in_or_app. now right.
Qed.

Lemma json_param_section_witness :
  exists spec pre sec,
    generateAutoFormSpec (H := ascii_case) "erpclaw-selling" "add-sales-invoice"
      Examples.add_invoice_params (Some Examples.selling_child_tables) = Some spec
    /\ matchedChild (Some Examples.selling_child_tables) "add-sales-invoice"
         Examples.items_param = Some Examples.invoice_item_table
    /\ In sec (sections spec)
    /\ json_section_of (H := ascii_case) pre (Some Examples.invoice_item_table)
         Examples.items_param sec.
Proof.
  destruct (json_param_section (H := ascii_case) "erpclaw-selling"
              "add-sales-invoice" Examples.add_invoice_params
              (Some Examples.selling_child_tables) _ Examples.items_param
              eq_refl eq_refl)
    as (pre & sec & Hin & Hsec & _).
  - right. right. left. reflexivity.
  - reflexivity.
  - eexists _, pre, sec. split; [reflexivity|]. split; [reflexivity|].
    split; [exact Hin | exact Hsec].
Defined.

(** ** The entity an action is about *)

Lemma replace_no_hyphen (s : string) :
  includes (replace_char "-" "_" s) "-" = false.
Proof.
  induction s as [|c s IH]; [reflexivity|].
  unfold replace_char in *. cbn [map_chars includes]. rewrite IH, orb_false_r.
  destruct (Ascii.eqb c "-") eqn:E; [reflexivity|].
  cbn [String.prefix].
  destruct (Ascii.ascii_dec "-" c) as [<-|_]; [discriminate E|reflexivity].
Qed.

(** [deriveEntity] removes the first action prefix of the table and
    turns every hyphen into an underscore: an action made of a prefix of
    the table and a rest has the rest as its entity, whatever the prefix, so
    that add-x, update-x and submit-x are about the same entity; and no
    derived entity contains a hyphen. *)
Theorem deriveEntity_strips_prefix (action : string) :
  includes (deriveEntity action) "-" = false
  /\ forall prefix label rest,
       In (prefix, label) ACTION_PREFIXES ->
       action = prefix +:+ rest ->
       deriveEntity action = replace_char "-" "_" rest.
Proof.
  split.
  - unfold deriveEntity.
    destruct (find _ ACTION_PREFIXES) as [[prefix label]|]; apply replace_no_hyphen.
  - intros prefix label rest Hin ->. unfold ACTION_PREFIXES in Hin.
    repeat (destruct Hin as [[= <- <-]|Hin]; [destruct rest; reflexivity|]).
    destruct Hin.
Qed.

Lemma deriveEntity_strips_prefix_witness :
  deriveEntity "add-sales-invoice" = "sales_invoice"
  /\ deriveEntity "update-sales-invoice" = deriveEntity "add-sales-invoice".
Proof.
  split.
  - exact (proj2 (deriveEntity_strips_prefix "add-sales-invoice")
             "add-" "New " "sales-invoice" ltac:(left; reflexivity) eq_refl).
  - reflexivity.
Defined.

End AutoFormShape.

(* ================================================================== *)
(** * The resolver: where a resolved form comes from                   *)
(* ================================================================== *)

Module ResolverFacts.
Import Js FormSpecTypes SkillPage.

Lemma declarative_submit_action `{CaseOps} (config : UiYamlToForm.UIConfig)
    (action : string) (spec : FormSpec) :
  UiYamlToForm.generateFormSpec config action = Some spec ->
  submit_action spec = action.
Proof.
  unfold UiYamlToForm.generateFormSpec. intros Hgen.
  destruct (lookup action (UiYamlToForm.action_map config)) as [entry|];
    [|discriminate].
  cbn [mbind option_bind] in Hgen.
  destruct (negb _); [discriminate|]. destruct (negb _); [discriminate|].
  destruct (lookup _ (UiYamlToForm.entities config)) as [entity|]; [|discriminate].
  cbn [mbind option_bind] in Hgen.
  destruct (match UiYamlToForm.views_form entity with
            | Some formView => _
            | None => _
            end); [discriminate|].
  now injection Hgen as <-.
Qed.

Lemma auto_submit_action `{CaseOps} (skill action : string)
    (aps : AutoFormSpec.ActionParamSchema)
    (cts : option AutoFormSpec.ChildTableSchema) (spec : FormSpec) :
  AutoFormSpec.generateAutoFormSpec skill action aps cts = Some spec ->
  submit_action spec = action.
Proof.
  unfold AutoFormSpec.generateAutoFormSpec.
  destruct (negb _); [discriminate|].
  destruct (_ ++ _)%list; [discriminate|]. now intros [= <-].
Qed.

(** A form that [resolveFormSpec] answers for an action submits to that
    action, and it is the form of one of the two tiers: the one generated
    from the UI configuration at hand, or, only when that gives none and
    no configuration is loading, the one generated from the parameter
    metadata registered under the action. *)
Theorem resolved_form_origin `{CaseOps} (skill action : string)
    (uiConfig : option UiYamlToForm.UIConfig) (uiConfigLoading : bool)
    (paramSchema : option AutoFormSpec.ParamSchema)
    (cts : option AutoFormSpec.ChildTableSchema) (spec : FormSpec) :
  resolveFormSpec skill uiConfig uiConfigLoading paramSchema cts action = Some spec ->
  submit_action spec = action
  /\ ((exists cfg, uiConfig = Some cfg
                   /\ UiYamlToForm.generateFormSpec cfg action = Some spec)
      \/ (uiConfigLoading = false
          /\ (forall cfg, uiConfig = Some cfg ->
                UiYamlToForm.generateFormSpec cfg action = None)
          /\ exists ps aps, paramSchema = Some ps
               /\ lookup action (AutoFormSpec.actions ps) = Some aps
               /\ AutoFormSpec.generateAutoFormSpec skill action aps cts
                  = Some spec)).
Proof.
  unfold resolveFormSpec. intros Hres.
  destruct (cfg ← uiConfig; UiYamlToForm.generateFormSpec cfg action)
    as [spec1|] eqn:Hd.
  - injection Hres as <-. destruct uiConfig as [cfg|]; [|discriminate].
    cbn [mbind option_bind] in Hd. split.
    + now apply declarative_submit_action in Hd.
    + left. now exists cfg.
  - destruct uiConfigLoading; [discriminate|].
    destruct paramSchema as [ps|]; [|discriminate].
    cbn [mbind option_bind] in Hres.
    destruct (lookup action (AutoFormSpec.actions ps)) as [aps|] eqn:Hl;
      [|discriminate].
    split; [now apply auto_submit_action in Hres|].
    right. split; [reflexivity|]. split.
    + intros cfg ->. exact Hd.
    + now exists ps, aps.
Qed.

Lemma resolved_form_origin_witness :
  exists spec,
    resolveFormSpec (H := ascii_case) "erpclaw-selling" None false
      (Some Examples.selling_params) None "add-customer" = Some spec
    /\ submit_action spec = "add-customer".
Proof.
  eexists. split; [reflexivity|].
  exact (proj1 (resolved_form_origin (H := ascii_case) "erpclaw-selling"
                  "add-customer" None false (Some Examples.selling_params) None
                  _ eq_refl)).
Defined.

End ResolverFacts.

(* ================================================================== *)
(** * The live-update channel: invariants and dispatch                 *)
(* ================================================================== *)

Module ChannelFacts.
Import Js Events EventsDispatch EventsFacts.

Lemma run_app (c : Channel) (es1 es2 : list Event) :
  run c (es1 ++ es2) = run (run c es1) es2.
Proof. unfold run. apply fold_left_app. Qed.

Lemma run_invariant (P : Channel -> Prop) :
  (forall c e, P c -> P (step c e)) ->
  forall es c, P c -> P (run c es).
Proof.
  intros Hstep es. induction es as [|e es IH]; intros c Hc; [exact Hc|].
  cbn [run fold_left]. apply IH, Hstep, Hc.
Qed.

(** Whatever happens to the provider, whenever it reports the status
    connected its retry count is 0: the failure that follows a connected
    state waits the base delay. *)
Theorem connected_means_no_retries (es : list Event) :
  status (run initial es) = connected ->
  retryRef (run initial es) = 0%nat
  /\ (mountedRef (run initial es) = true ->
      timeouts (step (run initial es) Error)
      = (timeouts (run initial es) ++ [1000])%list).
Proof.
  assert (Hinv : status (run initial es) = connected ->
                 retryRef (run initial es) = 0%nat).
  { apply (run_invariant (fun c => status c = connected -> retryRef c = 0%nat));
      [|intros Hs; discriminate Hs].
    intros c e Hc. destruct e as [token| | | |token]; unfold step.
    - unfold connect. destruct token; cbn; intros Hs; discriminate Hs.
    - exact Hc.
    - unfold onopen. destruct (negb (mountedRef c)); [exact Hc|reflexivity].
    - unfold onerror. destruct (negb (mountedRef c)); [exact Hc|].
      intros Hs; discriminate Hs.
    - destruct (mountedRef c) eqn:Hm; [|exact Hc]. unfold connect.
      rewrite Hm. destruct token; cbn; intros Hs; discriminate Hs. }
  intros Hs. split; [now apply Hinv|]. intros Hm.
  destruct (onerror_mounted _ Hm) as (Ht & _). rewrite Ht, (Hinv Hs). reflexivity.
Qed.

Lemma connected_means_no_retries_witness :
  status (run initial [Mount true; Error; Timer true; Open]) = connected
  /\ retryRef (run initial [Mount true; Error; Timer true; Open]) = 0%nat.
Proof.
  split; [reflexivity|].
  exact (proj1 (connected_means_no_retries [Mount true; Error; Timer true; Open]
                  eq_refl)).
Defined.

(** Every delay the provider ever hands to [setTimeout] lies between the
    base delay of 1000 ms and the cap of 30000 ms. *)
Theorem reconnect_delays_bounded (es : list Event) :
  Forall (fun d => 1000 <= d <= 30000) (timeouts (run initial es)).
Proof.
  apply (run_invariant (fun c => Forall (fun d => 1000 <= d <= 30000) (timeouts c)));
    [|constructor].
  intros c e Hc. destruct e as [token| | | |token]; unfold step.
  - unfold connect. destruct token; exact Hc.
  - exact Hc.
  - unfold onopen. destruct (negb (mountedRef c)); exact Hc.
  - unfold onerror. destruct (negb (mountedRef c)); [exact Hc|].
    cbn [timeouts]. apply Forall_app. split; [exact Hc|].
    constructor; [apply backoff_capped | constructor].
  - destruct (mountedRef c); [|exact Hc]. unfold connect.
    destruct (negb token || negb (mountedRef c)); exact Hc.
Qed.

(** Once unmounted, and until it is mounted again, the provider schedules
    no reconnect and changes neither its status nor its retry count,
    whichever events still arrive: late errors, late opens, timers that
    were already running. *)
Theorem unmounted_is_inert (c : Channel) (es : list Event) :
  mountedRef c = false ->
  (forall token, ~ In (Mount token) es) ->
  timeouts (run c es) = timeouts c
  /\ status (run c es) = status c
  /\ retryRef (run c es) = retryRef c
  /\ mountedRef (run c es) = false.
Proof.
  revert c. induction es as [|e es IH]; intros c Hm Hno; [now repeat split|].
  cbn [run fold_left].
  assert (Hstep : timeouts (step c e) = timeouts c /\ status (step c e) = status c
                  /\ retryRef (step c e) = retryRef c
                  /\ mountedRef (step c e) = false).
  { destruct e as [token| | | |token]; unfold step.
    - elim (Hno token). now left.
    - now repeat split.
    - unfold onopen. rewrite Hm. now repeat split.
    - unfold onerror. rewrite Hm. now repeat split.
    - rewrite Hm. now repeat split. }
  destruct Hstep as (Ht & Hs & Hr & Hm').
  destruct (IH (step c e) Hm') as (IHt & IHs & IHr & IHm).
  { intros token Hin. apply (Hno token). now right. }
  unfold run in *. rewrite IHt, IHs, IHr, IHm. now repeat split.
Qed.

Lemma unmounted_is_inert_witness :
  timeouts (run (step (run initial [Mount true; Error]) Unmount)
                [Timer true; Error; Open])
  = [1000].
Proof.
  apply (unmounted_is_inert (step (run initial [Mount true; Error]) Unmount)
           [Timer true; Error; Open]).
  - reflexivity.
  - intros token [H|[H|[H|[]]]]; discriminate.
Defined.

(** ** Dispatch *)

Lemma call_handlers_no_throw (throws : Handler -> bool) (hs : Handlers) :
  (forall h, In h hs -> throws h = false) -> call_handlers throws hs = hs.
Proof.
  induction hs as [|h r IH]; intros Hno; [reflexivity|].
  cbn [call_handlers]. rewrite (Hno h) by now left.
  rewrite IH; [reflexivity|]. intros h' Hin. apply Hno. now right.
Qed.

(** No handler is ever called with a heartbeat frame, with a frame that
    does not parse, or after the provider is unmounted; any other frame
    goes to the subscribed handlers in the order of subscription, once
    each, and to all of them when none throws; with no subscriber nothing
    is called. *)
Theorem dispatch_filters_heartbeat (mounted : bool) (hs : Handlers)
    (throws : Handler -> bool) (parsed : option SSEEvent) :
  (forall h data, In (h, data) (onmessage mounted hs throws parsed) ->
     mounted = true /\ parsed = Some data
     /\ ev_type data <> Some "heartbeat" /\ In h hs)
  /\ (mounted = true ->
      forall data, parsed = Some data -> ev_type data <> Some "heartbeat" ->
        (forall h, In h hs -> throws h = false) ->
        onmessage mounted hs throws parsed = map (fun h => (h, data)) hs)
  /\ onmessage mounted [] throws parsed = [].
Proof.
  assert (Hsub : forall l h, In h (call_handlers throws l) -> In h l).
  { induction l as [|x l IH]; [intros h []|]. cbn [call_handlers].
    intros h [->|Hin]; [now left|]. destruct (throws x); [destruct Hin|].
    right. now apply IH. }
  unfold onmessage. split; [|split].
  - intros h data Hin. destruct mounted; [|destruct Hin]. cbn [negb] in Hin.
    destruct parsed as [d|]; [|destruct Hin].
    destruct (str_is (ev_type d) "heartbeat") eqn:Hh; [destruct Hin|].
    apply in_map_iff in Hin as [h' [[= -> ->] Hin]].
    repeat split; [|now apply Hsub].
    intros Ht. rewrite Ht in Hh. discriminate Hh.
  - intros -> data -> Hty Hno. cbn [negb].
    destruct (str_is (ev_type data) "heartbeat") eqn:Hh.
    + unfold Js.str_is in Hh. destruct (ev_type data) as [t|]; [|discriminate].
      apply String.eqb_eq in Hh. subst. now elim Hty.
    + now rewrite call_handlers_no_throw.
  - destruct (negb mounted); [reflexivity|]. destruct parsed as [d|]; [|reflexivity].
    now destruct (str_is (ev_type d) "heartbeat").
Qed.

Lemma dispatch_filters_heartbeat_witness :
  onmessage true [1%nat; 2%nat] (fun _ => false)
    (Some {| ev_type := Some "heartbeat"; ev_payload := [] |}) = []
  /\ onmessage true [1%nat; 2%nat] (fun _ => false)
       (Some {| ev_type := Some "invalidate"; ev_payload := [] |})
     = [(1%nat, {| ev_type := Some "invalidate"; ev_payload := [] |});
        (2%nat, {| ev_type := Some "invalidate"; ev_payload := [] |})].
Proof.
  split; [reflexivity|].
  apply (proj1 (proj2 (dispatch_filters_heartbeat true [1%nat; 2%nat]
                         (fun _ => false) _)) eq_refl _ eq_refl).
  - discriminate.
  - reflexivity.
Defined.

Lemma set_add_In (h x : Handler) (hs : Handlers) :
  In x (set_add h hs) <-> x = h \/ In x hs.
Proof.
  unfold set_add. destruct (existsb (Nat.eqb h) hs) eqn:He.
  - apply existsb_exists in He as [y [Hy E]]. apply Nat.eqb_eq in E. subst y.
    split; [now right | intros [->|Hin]; assumption].
  - rewrite in_app_iff. cbn.
    split; [intros [Hin|[<-|[]]]; auto | intros [->|Hin]; auto].
Qed.

Lemma set_delete_notin (h : Handler) (hs : Handlers) :
  ~ In h hs -> set_delete h hs = hs.
Proof.
  unfold set_delete. induction hs as [|x hs IH]; intros Hn; [reflexivity|].
  cbn [List.filter]. destruct (Nat.eqb x h) eqn:E.
  - apply Nat.eqb_eq in E. subst. elim Hn. now left.
  - cbn [negb]. rewrite IH; [reflexivity|]. intros Hin. apply Hn. now right.
Qed.

Lemma handlers_called_eq (mounted : bool) (hs : Handlers)
    (throws : Handler -> bool) (parsed : option SSEEvent) :
  handlers_called mounted hs throws parsed
  = match parsed with
    | Some data =>
        if mounted && negb (str_is (ev_type data) "heartbeat")
        then call_handlers throws hs else []
    | None => []
    end.
Proof.
  unfold handlers_called, onmessage. destruct mounted; cbn [negb andb].
  - destruct parsed as [data|]; [|reflexivity].
    destruct (str_is (ev_type data) "heartbeat"); [reflexivity|]. cbn [negb].
    rewrite map_map. cbn [fst]. apply map_id.
  - now destruct parsed.
Qed.

Lemma call_handlers_snoc (throws : Handler -> bool) (hs : Handlers) (h : Handler) :
  call_handlers throws (hs ++ [h])%list
  = if existsb throws hs then call_handlers throws hs
    else (call_handlers throws hs ++ [h])%list.
Proof.
  induction hs as [|x hs IH].
  - cbn [app call_handlers existsb]. now destruct (throws h).
  - cbn [app call_handlers existsb]. destruct (throws x); cbn [orb]; [reflexivity|].
    rewrite IH. now destruct (existsb throws hs).
Qed.

Lemma call_handlers_delete (throws : Handler -> bool) (hs : Handlers) (h : Handler) :
  throws h = false ->
  call_handlers throws (set_delete h hs)
  = List.filter (fun x => negb (Nat.eqb x h)) (call_handlers throws hs).
Proof.
  intros Hh. unfold set_delete. induction hs as [|x hs IH]; [reflexivity|].
  cbn [List.filter call_handlers]. destruct (Nat.eqb x h) eqn:E; cbn [negb].
  - apply Nat.eqb_eq in E. subst x. rewrite Hh. exact IH.
  - cbn [call_handlers]. destruct (throws x); [reflexivity|]. now rewrite IH.
Qed.

Lemma call_handlers_sub (throws : Handler -> bool) (hs : Handlers) (x : Handler) :
  In x (call_handlers throws hs) -> In x hs.
Proof.
  induction hs as [|y hs IH]; [intros []|]. cbn [call_handlers].
  intros [->|Hin]; [now left|]. destruct (throws y); [destruct Hin|].
  right. now apply IH.
Qed.

(** What subscribing and unsubscribing do to the calls [es.onmessage]
    makes.  For a frame that is delivered, a handler subscribed anew is
    called after the handlers called before, unless one of them throws;
    subscribing a handler that is subscribed changes nothing.  After the
    function [subscribe] returned has run, the handler is never called,
    and (when it does not throw) the handlers called are the ones that
    were called before, without it and in the same order.  Subscribing a
    handler that was not subscribed and unsubscribing it leaves the
    handlers as they were; subscribing twice is subscribing once. *)
Theorem subscribe_unsubscribe (h : Handler) (hs : Handlers)
    (throws : Handler -> bool) (mounted : bool) (parsed : option SSEEvent) :
  (forall data, mounted = true -> parsed = Some data ->
     ev_type data <> Some "heartbeat" ->
     handlers_called mounted (subscribe h hs) throws parsed
     = if existsb (Nat.eqb h) hs || existsb throws hs
       then handlers_called mounted hs throws parsed
       else (handlers_called mounted hs throws parsed ++ [h])%list)
  /\ (throws h = false ->
      handlers_called mounted (unsubscribe h hs) throws parsed
      = List.filter (fun x => negb (Nat.eqb x h))
                    (handlers_called mounted hs throws parsed))
  /\ ~ In h (handlers_called mounted (unsubscribe h hs) throws parsed)
  /\ (~ In h hs -> unsubscribe h (subscribe h hs) = hs)
  /\ subscribe h (subscribe h hs) = subscribe h hs
  /\ (List.NoDup hs ->
      List.NoDup (subscribe h hs) /\ List.NoDup (unsubscribe h hs)).
Proof.
  rewrite !handlers_called_eq.
  unfold subscribe, unsubscribe. split; [|split; [|split; [|split; [|split]]]].
  - intros data -> -> Hty.
    assert (Hh : str_is (ev_type data) "heartbeat" = false).
    { unfold Js.str_is. destruct (ev_type data) as [t|]; [|reflexivity].
      apply String.eqb_neq. congruence. }
    rewrite Hh. cbn [andb negb]. unfold set_add.
    destruct (existsb (Nat.eqb h) hs); cbn [orb]; [reflexivity|].
    apply call_handlers_snoc.
  - intros Hh. destruct parsed as [data|]; [|reflexivity].
    destruct (mounted && negb (str_is (ev_type data) "heartbeat")); [|reflexivity].
    now apply call_handlers_delete.
  - intros Hin.
    assert (Hc : In h (call_handlers throws (set_delete h hs))).
    { destruct parsed as [data|]; [|destruct Hin].
      now destruct (mounted && negb (str_is (ev_type data) "heartbeat")). }
    apply call_handlers_sub in Hc. unfold set_delete in Hc.
    apply filter_In in Hc as [_ Hc]. now rewrite Nat.eqb_refl in Hc.
  - intros Hn. unfold set_add.
    destruct (existsb (Nat.eqb h) hs) eqn:He.
    + apply existsb_exists in He as [y [Hy E]]. apply Nat.eqb_eq in E.
      subst y. now elim Hn.
    + unfold set_delete. rewrite List.filter_app. cbn [List.filter].
      rewrite Nat.eqb_refl. cbn [negb]. rewrite app_nil_r.
      now apply set_delete_notin.
  - unfold set_add at 1.
    assert (He : existsb (Nat.eqb h) (set_add h hs) = true).
    { apply existsb_exists. exists h. split; [|apply Nat.eqb_refl].
      apply set_add_In. now left. }
    now rewrite He.
  - intros Hnd. split.
    + unfold set_add. destruct (existsb (Nat.eqb h) hs) eqn:He; [exact Hnd|].
      apply (Permutation_NoDup (Permutation_cons_append hs h)).
      constructor; [|exact Hnd]. intros Hx.
      assert (existsb (Nat.eqb h) hs = true); [|congruence].
      apply existsb_exists. exists h. split; [exact Hx | apply Nat.eqb_refl].
    + unfold set_delete. now apply List.NoDup_filter.
Qed.

Lemma subscribe_unsubscribe_witness :
  handlers_called true (subscribe 3%nat [1%nat; 2%nat]) (fun _ => false)
    (Some {| ev_type := Some "invalidate"; ev_payload := [] |})
  = [1%nat; 2%nat; 3%nat]
  /\ handlers_called true (unsubscribe 1%nat [1%nat; 2%nat; 3%nat]) (fun _ => false)
       (Some {| ev_type := Some "invalidate"; ev_payload := [] |})
     = [2%nat; 3%nat].
Proof.
  split.
  - exact (proj1 (subscribe_unsubscribe 3%nat [1%nat; 2%nat] (fun _ => false) true
                    (Some {| ev_type := Some "invalidate"; ev_payload := [] |}))
             _ eq_refl eq_refl ltac:(discriminate)).
  - exact (proj1 (proj2 (subscribe_unsubscribe 1%nat [1%nat; 2%nat; 3%nat]
                           (fun _ => false) true
                           (Some {| ev_type := Some "invalidate"; ev_payload := [] |})))
             eq_refl).
Defined.

End ChannelFacts.

(* ================================================================== *)
(** * The caches: round trips, sharing, invalidation                   *)
(* ================================================================== *)

Module CacheFacts.
Import Js Introspection IntrospectionCache.

Lemma doIntrospect_cases `{CaseOps} (key : string) (now : Z)
    (res : option Response) (c : gmap string IntrospectedSchema) :
  (exists arrayKey firstRow,
      has arrayKey ["tags"; "requires"; "status"] = false
      /\ doIntrospect key now res c
         = (Some (schemaOfRow arrayKey now firstRow),
            <[key := schemaOfRow arrayKey now firstRow]> c))
  \/ doIntrospect key now res c = (None, c).
Proof.
  unfold doIntrospect. destruct res as [r|]; [|now right].
  destruct (negb (res_ok r)); [now right|].
  destruct (lookup "status" (json r)) as [[rows|[| |b|q|s| |]]|]; try now right.
  destruct (String.eqb s "ok") eqn:Hs.
  - apply String.eqb_eq in Hs. subst s.
    destruct (find _ (json r)) as [[arrayKey [[|firstRow rest]|v]]|] eqn:Hf;
      try now right.
    destruct (String.eqb arrayKey ""); [now right|].
    apply find_some in Hf as [_ Hf]. cbn [fst snd isArray andb] in Hf.
    apply negb_true_iff in Hf. left. now exists arrayKey, firstRow.
  - right. apply String.eqb_neq in Hs.
    destruct s as [|[[] [] [] [] [] [] [] []] [|[[] [] [] [] [] [] [] []] [|? ?]]];
      try reflexivity. now elim Hs.
Qed.

(** A request that yields a schema stores it under the key of the skill
    and the list action and touches no other entry; a request that yields
    none leaves the cache as it was.  A stored schema is what every call
    for that key gets, without a request, for the ten minutes after it was
    built, and from then on a call starts a request again.  The array key
    of a schema is never tags, requires or status. *)
Theorem introspection_cache_round_trip `{CaseOps} (st : Store) (now : Z)
    (skill listAction : string) (res : option Response) :
  match introspectEntity_settle st now skill listAction res with
  | (Some schema, st') =>
      cache st' !! cacheKey skill listAction = Some schema
      /\ (forall k, k <> cacheKey skill listAction -> cache st' !! k = cache st !! k)
      /\ has (entityKey schema) ["tags"; "requires"; "status"] = false
      /\ (forall now', now' - now < CACHE_TTL ->
            introspectEntity_call st' now' skill listAction = (Cached schema, st'))
      /\ (forall now', CACHE_TTL <= now' - now ->
            fst (introspectEntity_call st' now' skill listAction) = Fetching)
  | (None, st') => cache st' = cache st
  end.
Proof.
  unfold introspectEntity_settle.
  destruct (doIntrospect_cases (cacheKey skill listAction) now res (cache st))
    as [(arrayKey & firstRow & Hk & ->)| ->]; [|reflexivity].
  cbn [cache pendingRequests]. split; [apply lookup_insert_eq|].
  split; [intros k Hne; now apply lookup_insert_ne|]. split; [exact Hk|].
  unfold introspectEntity_call. cbn [cache pendingRequests].
  rewrite lookup_insert_eq. cbn [schemaOfRow cachedAt]. split.
  - intros now' Hfresh. apply Z.ltb_lt in Hfresh. now rewrite Hfresh.
  - intros now' Hold. apply Z.ltb_ge in Hold. rewrite Hold.
    destruct (decide _) as [Hin|_]; [|reflexivity].
    apply elem_of_difference in Hin as [_ Hin]. elim Hin. now apply elem_of_singleton.
Qed.

Lemma introspection_cache_round_trip_witness :
  let st := {| cache := ∅; pendingRequests := {[ "selling/list-customers" ]} |} in
  let res := Some {| res_ok := true;
                     json := [("status", JOther (VString "ok"));
                              ("customers", JArray [[("name", VString "Ann")]])] |} in
  exists schema st',
    introspectEntity_settle (H := ascii_case) st 1000 "selling" "list-customers" res
      = (Some schema, st')
    /\ introspectEntity_call st' 2000 "selling" "list-customers" = (Cached schema, st').
Proof.
  intros st res.
  pose proof (introspection_cache_round_trip (H := ascii_case) st 1000
                "selling" "list-customers" res) as Hrt.
  destruct (introspectEntity_settle st 1000 "selling" "list-customers" res)
    as [[schema|] st'] eqn:E.
  - exists schema, st'. split; [reflexivity|].
    destruct Hrt as (_ & _ & _ & Hfresh & _). apply Hfresh. reflexivity.
  - exfalso. unfold introspectEntity_settle in E. cbn in E. discriminate E.
Defined.

(** At most one request per key is in flight.  A call answers from the
    cache only with an entry younger than the TTL, and joins the pending
    request when there is one; a call that starts a request registers it,
    so that until it settles every later call (the clock not running
    backwards) joins it instead of asking again, and settling removes the
    registration, whatever the outcome. *)
Theorem concurrent_requests_shared `{CaseOps} (st : Store) (now : Z)
    (skill listAction : string) :
  let key := cacheKey skill listAction in
  match introspectEntity_call st now skill listAction with
  | (Cached schema, st') =>
      st' = st /\ cache st !! key = Some schema
      /\ now - cachedAt schema < CACHE_TTL
  | (Shared, st') => st' = st /\ key ∈ pendingRequests st
  | (Fetching, st') =>
      (key ∉ pendingRequests st) /\ cache st' = cache st
      /\ (forall now', now <= now' ->
            introspectEntity_call st' now' skill listAction = (Shared, st'))
      /\ (forall now' res,
            pendingRequests (snd (introspectEntity_settle st' now' skill listAction res))
            = pendingRequests st)
  end.
Proof.
  intros key. unfold introspectEntity_call. fold key.
  assert (Hmiss : forall stale : (forall c, cache st !! key = Some c ->
                                            CACHE_TTL <= now - cachedAt c),
    match (if decide (key ∈ pendingRequests st) then (Shared, st)
           else (Fetching, {| cache := cache st;
                              pendingRequests := {[key]} ∪ pendingRequests st |}))
    with
    | (Cached schema, st') =>
        st' = st /\ cache st !! key = Some schema /\ now - cachedAt schema < CACHE_TTL
    | (Shared, st') => st' = st /\ key ∈ pendingRequests st
    | (Fetching, st') =>
        (key ∉ pendingRequests st) /\ cache st' = cache st
        /\ (forall now', now <= now' ->
              introspectEntity_call st' now' skill listAction = (Shared, st'))
        /\ (forall now' res,
              pendingRequests (snd (introspectEntity_settle st' now' skill listAction res))
              = pendingRequests st)
    end).
  { intros stale. destruct (decide (key ∈ pendingRequests st)) as [Hin|Hout].
    - now split.
    - split; [exact Hout|]. split; [reflexivity|]. split.
      + intros now' Hle. unfold introspectEntity_call. fold key.
        cbn [cache pendingRequests].
        assert (Hp : key ∈ ({[key]} ∪ pendingRequests st : gset string))
          by (apply elem_of_union_l; now apply elem_of_singleton).
        destruct (decide _) as [_|Hn]; [|now elim Hn].
        destruct (cache st !! key) as [c|] eqn:Hc; [|reflexivity].
        specialize (stale c eq_refl).
        assert (Hold : (now' - cachedAt c <? CACHE_TTL) = false)
          by (apply Z.ltb_ge; lia).
        now rewrite Hold.
      + intros now' res. unfold introspectEntity_settle. fold key.
        destruct (doIntrospect _ _ _ _) as [answer c]. cbn [snd pendingRequests cache].
        apply set_eq. intros x.
        rewrite elem_of_difference, elem_of_union, !elem_of_singleton.
        split; [intros [[->|Hx] Hne]; [now elim Hne | exact Hx]|].
        intros Hx. split; [now right|]. intros ->. now elim Hout. }
  destruct (cache st !! key) as [c|] eqn:Hc.
  - destruct (now - cachedAt c <? CACHE_TTL) eqn:Hf.
    + apply Z.ltb_lt in Hf. now repeat split.
    + apply Hmiss. intros c' [= <-]. now apply Z.ltb_ge.
  - apply Hmiss. intros c' [=].
Qed.

Lemma concurrent_requests_shared_witness :
  let st := {| cache := ∅; pendingRequests := ∅ |} in
  exists st',
    introspectEntity_call st 1000 "selling" "list-customers" = (Fetching, st')
    /\ introspectEntity_call st' 1500 "selling" "list-customers" = (Shared, st').
Proof.
  intros st.
  pose proof (concurrent_requests_shared (H := ascii_case) st 1000
                "selling" "list-customers") as Hd.
  cbv zeta in Hd.
  destruct (introspectEntity_call st 1000 "selling" "list-customers")
    as [[schema| |] st'] eqn:E.
  - exfalso. destruct Hd as (_ & Hc & _). subst st. cbn [cache] in Hc.
    rewrite lookup_empty in Hc. discriminate Hc.
  - exfalso. destruct Hd as (_ & Hin). subst st. cbn [pendingRequests] in Hin.
    now apply not_elem_of_empty in Hin.
  - exists st'. split; [reflexivity|].
    destruct Hd as (_ & _ & Hshared & _). apply Hshared. discriminate.
Defined.

Lemma includes_cons (c : ascii) (s p : string) :
  includes (String c s) p = false ->
  String.prefix p (String c s) = false /\ includes s p = false.
Proof.
  intros Hi. change (String.prefix p (String c s) || includes s p = false) in Hi.
  now apply orb_false_iff in Hi.
Qed.

Lemma string_append_assoc (a b c : string) : a +:+ (b +:+ c) = (a +:+ b) +:+ c.
Proof.
  induction a as [|x a IH]; [reflexivity|].
  change (String x (a +:+ (b +:+ c)) = String x ((a +:+ b) +:+ c)). now rewrite IH.
Qed.

Lemma append_nil (t : string) : "" +:+ t = t.
Proof. reflexivity. Qed.

Lemma append_cons (c : ascii) (s t : string) : String c s +:+ t = String c (s +:+ t).
Proof. reflexivity. Qed.

Lemma prefix_nil (s : string) : String.prefix "" s = true.
Proof. now destruct s. Qed.

Lemma prefix_cons (a b : ascii) (s1 s2 : string) :
  String.prefix (String a s1) (String b s2)
  = if Ascii.ascii_dec a b then String.prefix s1 s2 else false.
Proof. reflexivity. Qed.

(** A skill name is the part of a cache key before its first slash. *)
Lemma cacheKey_prefix (s s2 la : string) :
  includes s "/" = false -> includes s2 "/" = false ->
  startsWith (cacheKey s2 la) (s +:+ "/") = true -> s2 = s.
Proof.
  unfold startsWith, cacheKey. revert s2.
  induction s as [|c s IH]; intros s2 Hs Hs2.
  - destruct s2 as [|c2 s2]; [reflexivity|].
    apply includes_cons in Hs2 as [Hs2 _]. revert Hs2.
    rewrite append_nil, append_cons, !prefix_cons, !prefix_nil.
    destruct (Ascii.ascii_dec "/" c2) as [_|_]; intros H1 H2; discriminate.
  - apply includes_cons in Hs as [Hc Hs]. revert Hc.
    destruct s2 as [|c2 s2].
    + rewrite append_nil, !append_cons, !prefix_cons, !prefix_nil.
      destruct (Ascii.ascii_dec "/" c) as [<-|Hne]; [intros Hc; discriminate Hc|].
      intros _. destruct (Ascii.ascii_dec c "/") as [->|_]; [now elim Hne|].
      intros Hp; discriminate Hp.
    + intros _. apply includes_cons in Hs2 as [_ Hs2].
      rewrite !append_cons, prefix_cons.
      destruct (Ascii.ascii_dec c c2) as [->|]; [|intros Hp; discriminate Hp].
      intros Hp. f_equal. now apply IH.
Qed.

(** Clearing the cache for a skill drops every entry of that skill and
    keeps the entries of all the others, when skill names hold no slash;
    with no skill, or the empty name, everything goes. *)
Theorem clear_cache_by_skill (skill : string) (c : gmap string IntrospectedSchema) :
  skill <> "" -> includes skill "/" = false ->
  (forall la, clearIntrospectionCache (Some skill) c !! cacheKey skill la = None)
  /\ (forall s la, includes s "/" = false -> s <> skill ->
        clearIntrospectionCache (Some skill) c !! cacheKey s la = c !! cacheKey s la)
  /\ clearIntrospectionCache None c = ∅
  /\ clearIntrospectionCache (Some "") c = ∅.
Proof.
  intros Hne Hskill. unfold clearIntrospectionCache.
  assert (Ht : truthy_str (Some skill) = true) by (destruct skill; [now elim Hne | reflexivity]).
  assert (Ho : or_str (Some skill) "" = skill) by (destruct skill; reflexivity).
  rewrite Ht, Ho. split; [|split; [|split; reflexivity]].
  - intros la. apply map_lookup_filter_None. right. intros x _. cbn [fst].
    unfold cacheKey. rewrite string_append_assoc.
    now rewrite UiYamlShape.startsWith_append.
  - intros s la Hs Hdiff.
    destruct (c !! cacheKey s la) as [x|] eqn:Hx.
    + apply map_lookup_filter_Some. split; [exact Hx|]. cbn [fst].
      destruct (startsWith (cacheKey s la) (skill +:+ "/")) eqn:Hp; [|reflexivity].
      elim Hdiff. now apply (cacheKey_prefix skill s la).
    + apply map_lookup_filter_None. now left.
Qed.

Lemma clear_cache_by_skill_witness :
  let schema := schemaOfRow (H := ascii_case) "rows" 0 [("name", VString "Ann")] in
  let c : gmap string IntrospectedSchema :=
    <[cacheKey "buying" "list-suppliers" := schema]>
      (<[cacheKey "selling" "list-customers" := schema]> ∅) in
  clearIntrospectionCache (Some "selling") c !! cacheKey "selling" "list-customers" = None
  /\ clearIntrospectionCache (Some "selling") c !! cacheKey "buying" "list-suppliers"
     = c !! cacheKey "buying" "list-suppliers".
Proof.
  intros schema c.
  destruct (clear_cache_by_skill "selling" c) as (Hdrop & Hkeep & _);
    [discriminate | reflexivity |].
  split; [apply Hdrop | apply Hkeep; [reflexivity | discriminate]].
Defined.

Import UiConfigCache.

(** A configuration that was fetched is cached with the version it
    carries: from then on the skill counts as stale exactly for versions
    other than that one, however old the entry is, while the hook takes
    the entry at once only for the five minutes after the fetch and goes
    back to loading, keeping the config it shows, after that.  Entries of
    other skills are not touched, a failed fetch changes nothing, and
    after an invalidation the skill is stale for every version and the
    hook loads again. *)
Theorem ui_config_cache_round_trip (cache : gmap string Entry) (skill : string)
    (now : Z) (res : option (bool * ConfigDoc)) :
  match fetchUIConfig_settle cache skill now res with
  | (Some doc, cache') =>
      (forall v, isConfigStale cache' skill v = false <-> v = skill_version doc)
      /\ (forall now' h, now' - now < CACHE_TTL ->
            useUIConfig_effect cache' skill now' h
            = {| SkillPage.config := Some (doc_config doc); SkillPage.loading := false |})
      /\ (forall now' h, CACHE_TTL <= now' - now ->
            useUIConfig_effect cache' skill now' h
            = {| SkillPage.config := SkillPage.config h; SkillPage.loading := true |})
      /\ (forall other, other <> skill -> cache' !! other = cache !! other)
      /\ (forall v now' h,
            isConfigStale (invalidateUICache skill cache') skill v = true
            /\ SkillPage.loading
                 (useUIConfig_effect (invalidateUICache skill cache') skill now' h) = true)
  | (None, cache') => cache' = cache
  end.
Proof.
  unfold fetchUIConfig_settle. destruct res as [[[|] doc]|]; try reflexivity.
  split; [|split; [|split; [|split]]].
  - intros v. unfold isConfigStale. rewrite lookup_insert_eq. cbn [version].
    rewrite negb_false_iff, String.eqb_eq. split; intros E; now symmetry.
  - intros now' h Hfresh. unfold useUIConfig_effect, fresh.
    rewrite lookup_insert_eq. cbn [fetchedAt entry_config].
    apply Z.ltb_lt in Hfresh. now rewrite Hfresh.
  - intros now' h Hold. unfold useUIConfig_effect, fresh.
    rewrite lookup_insert_eq. cbn [fetchedAt entry_config].
    apply Z.ltb_ge in Hold. now rewrite Hold.
  - intros other Hne. now apply lookup_insert_ne.
  - intros v now' h. unfold isConfigStale, useUIConfig_effect, fresh, invalidateUICache.
    rewrite lookup_delete_eq. now split.
Qed.

Lemma ui_config_cache_round_trip_witness :
  let c := Examples.selling_config in
  let h := SkillPage.hook_initial in
  let doc := {| doc_config := c; skill_version := "1.2.0" |} in
  exists cache',
    fetchUIConfig_settle ∅ "selling" 1000 (Some (true, doc)) = (Some doc, cache')
    /\ useUIConfig_effect cache' "selling" 2000 h
       = {| SkillPage.config := Some c; SkillPage.loading := false |}.
Proof.
  intros c h doc.
  pose proof (ui_config_cache_round_trip ∅ "selling" 1000 (Some (true, doc))) as Hrt.
  destruct (fetchUIConfig_settle ∅ "selling" 1000 (Some (true, doc)))
    as [[d|] cache'] eqn:E.
  - injection E as <- _. exists cache'. split; [reflexivity|].
    destruct Hrt as (_ & Hfresh & _). apply Hfresh. reflexivity.
  - discriminate E.
Defined.

End CacheFacts.

(* ================================================================== *)
(** * The form component: validation and the request it sends          *)
(* ================================================================== *)

Module FormFacts.
Import Js FormSpecTypes DynamicForm.

Lemma first_error_None {A : Type} (check : A -> option ValidationError) (l : list A) :
  first_error check l = None <-> (forall x, In x l -> check x = None).
Proof.
  induction l as [|x l IH]; cbn [first_error].
  - split; [intros _ x [] | reflexivity].
  - destruct (check x) as [e|] eqn:Hx.
    + split; [discriminate|]. intros Hall.
      rewrite <- Hx. apply Hall. now left.
    + rewrite IH. split.
      * intros Hall y [<-|Hy]; [exact Hx | now apply Hall].
      * intros Hall y Hy. apply Hall. now right.
Qed.

Lemma first_error_Some {A : Type} (check : A -> option ValidationError) (l : list A)
    (e : ValidationError) :
  first_error check l = Some e -> exists x, In x l /\ check x = Some e.
Proof.
  induction l as [|x l IH]; cbn [first_error]; [discriminate|].
  destruct (check x) as [e'|] eqn:Hx.
  - intros [= <-]. exists x. split; [now left | exact Hx].
  - intros He. destruct (IH He) as (y & Hy & Hc). exists y. split; [now right | exact Hc].
Qed.

(** A field passes when it is not required or has a non-empty value. *)
Lemma missing_false (field : FormFieldSpec) (values : gmap string string) :
  missing field values = false
  <-> (required field = Some true -> truthy_str (values !! key field) = true).
Proof.
  unfold missing, truthy_bool.
  destruct (required field) as [[|]|]; cbn [andb].
  - rewrite negb_false_iff. split; [intros Ht _; exact Ht | intros Ht; now apply Ht].
  - split; [discriminate | reflexivity].
  - split; [discriminate | reflexivity].
Qed.

Lemma fields_pass (mk : FormFieldSpec -> ValidationError)
    (values : gmap string string) (fs : list FormFieldSpec) :
  first_error (fun field => if missing field values then Some (mk field) else None) fs
  = None
  <-> (forall field, In field fs -> required field = Some true ->
         truthy_str (values !! key field) = true).
Proof.
  rewrite first_error_None. split.
  - intros Hall field Hin. apply missing_false. specialize (Hall field Hin).
    now destruct (missing field values).
  - intros Hall field Hin.
    now rewrite (proj2 (missing_false field values) (Hall field Hin)).
Qed.

Lemma missing_true (field : FormFieldSpec) (values : gmap string string) :
  missing field values = true ->
  required field = Some true /\ truthy_str (values !! key field) = false.
Proof.
  unfold missing, truthy_bool. destruct (required field) as [[|]|]; cbn [andb];
    try discriminate.
  intros Hm. apply negb_true_iff in Hm. now split.
Qed.

Lemma fields_fail (mk : FormFieldSpec -> ValidationError)
    (values : gmap string string) (fs : list FormFieldSpec) (e : ValidationError) :
  first_error (fun field => if missing field values then Some (mk field) else None) fs
  = Some e ->
  exists field, In field fs /\ e = mk field /\ required field = Some true
                /\ truthy_str (values !! key field) = false.
Proof.
  intros He. apply first_error_Some in He as (field & Hin & Hc).
  destruct (missing field values) eqn:Hm; [|discriminate Hc].
  injection Hc as <-. apply missing_true in Hm as [Hr Hv]. now exists field.
Qed.

Lemma validate_rows_Some (section : FormSectionSpec) (i : nat) (rows : list Row)
    (e : ValidationError) :
  validate_rows section i rows = Some e ->
  exists (j : nat) row field,
    nth_error rows j = Some row /\ In field (fields section)
    /\ e = RowRequired (section_label section) (i + j + 1) (label field)
    /\ required field = Some true /\ truthy_str (row !! key field) = false.
Proof.
  revert i. induction rows as [|row rows IH]; intros i; cbn [validate_rows];
    [discriminate|].
  destruct (first_error _ (fields section)) as [e'|] eqn:Hrow.
  - intros [= <-].
    apply (fields_fail (fun field => RowRequired (section_label section) (i + 1)
                                       (label field)))
      in Hrow as (field & Hin & -> & Hr & Hv).
    exists 0%nat, row, field. rewrite Nat.add_0_r. now repeat split.
  - intros He. apply IH in He as (j & r & field & Hn & Hin & -> & Hr & Hv).
    exists (S j), r, field. repeat split; try assumption.
    f_equal. lia.
Qed.

Lemma validate_rows_None (section : FormSectionSpec) (i : nat) (rows : list Row) :
  validate_rows section i rows = None
  <-> (forall row, In row rows ->
       forall field, In field (fields section) -> required field = Some true ->
         truthy_str (row !! key field) = true).
Proof.
  revert i. induction rows as [|row rows IH]; intros i; cbn [validate_rows].
  - split; [intros _ row [] | reflexivity].
  - destruct (first_error _ (fields section)) as [e|] eqn:Hrow.
    + split; [discriminate|]. intros Hall.
      assert (Hnone : first_error
                (fun field => if missing field row
                              then Some (RowRequired (section_label section) (i + 1)
                                           (label field))
                              else None) (fields section) = None)
        by (apply fields_pass; intros field Hin Hr;
            apply (Hall row); [now left | exact Hin | exact Hr]).
      congruence.
    + pose proof (proj1 (fields_pass
                      (fun field => RowRequired (section_label section) (i + 1)
                                      (label field)) row (fields section)) Hrow)
        as Hpass.
      rewrite IH. split.
      * intros Hall r [<-|Hr]; [exact Hpass | now apply Hall].
      * intros Hall r Hr. apply Hall. now right.
Qed.

(** What a section needs for [validate] to pass it. *)
Lemma validate_section_None (st : FormState) (section : FormSectionSpec) :
  validate_section st section = None
  <-> if is_repeatable section
      then ((0 < or_num (min_rows section) 0)%Q -> rows_of st section <> [])
           /\ (forall row, In row (rows_of st section) ->
               forall field, In field (fields section) -> required field = Some true ->
                 truthy_str (row !! key field) = true)
      else forall field, In field (fields section) -> required field = Some true ->
             truthy_str (field_values st !! key field) = true.
Proof.
  unfold validate_section. destruct (is_repeatable section);
    [|apply (fields_pass (fun field => Required (label field)))].
  destruct (negb (Qle_bool (or_num (min_rows section) 0) 0)) eqn:Hmin.
  - apply negb_true_iff in Hmin.
    assert (Hpos : (0 < or_num (min_rows section) 0)%Q).
    { apply Qnot_le_lt. intros Hle. apply Qle_bool_iff in Hle. congruence. }
    destruct (rows_of st section) as [|row rows] eqn:Hrows; cbn [List.length Nat.eqb andb].
    + split; [discriminate|]. intros [Hne _]. now elim (Hne Hpos).
    + rewrite validate_rows_None. split; [intros Hall; split; [discriminate | exact Hall]|].
      now intros [_ Hall].
  - cbn [andb]. apply negb_false_iff, Qle_bool_iff in Hmin.
    rewrite validate_rows_None. split; [|now intros [_ Hall]].
    intros Hall. split; [|exact Hall]. intros Hpos.
    now elim (Qlt_not_le _ _ Hpos).
Qed.

(** The calls [handleSubmit] makes once the outcome of the request is
    known hold no further request. *)
Lemma handleSubmit_valid (onSuccess : bool) (skill : string) (spec : FormSpec)
    (st : FormState) (outcome : Outcome) :
  validate spec st = None ->
  exists reaction,
    handleSubmit onSuccess skill spec st outcome
    = ([SetSubmitting true; PostAction skill (submit_action spec) (submitParams st)]
       ++ reaction ++ [SetSubmitting false])%list
    /\ forall s a p, ~ In (PostAction s a p) reaction.
Proof.
  intros Hv. unfold handleSubmit. rewrite Hv. eexists. split; [reflexivity|].
  intros s a p Hin. destruct outcome as [|message|e].
  - destruct Hin as [Hin|Hin]; [discriminate Hin|].
    destruct onSuccess; [destruct Hin as [Hin|[]]; discriminate Hin | destruct Hin].
  - destruct Hin as [Hin|[]]. discriminate Hin.
  - destruct Hin as [Hin|[]]. discriminate Hin.
Qed.

Lemma posted_request (onSuccess : bool) (skill : string) (spec : FormSpec)
    (st : FormState) (outcome : Outcome) (s a : string)
    (p : gmap string ParamValue) :
  In (PostAction s a p) (handleSubmit onSuccess skill spec st outcome)
  <-> validate spec st = None
      /\ s = skill /\ a = submit_action spec /\ p = submitParams st.
Proof.
  split.
  - intros Hin. destruct (validate spec st) as [e|] eqn:Hv.
    + unfold handleSubmit in Hin. rewrite Hv in Hin.
      destruct Hin as [Hin|[]]. discriminate Hin.
    + destruct (handleSubmit_valid onSuccess skill spec st outcome Hv)
        as (reaction & Heq & Hno).
      rewrite Heq in Hin. cbn [app] in Hin.
      destruct Hin as [Hin|[Hin|Hin]]; [discriminate Hin | |].
      * injection Hin as <- <- <-. now repeat split.
      * apply in_app_or in Hin as [Hin|[Hin|[]]]; [now elim (Hno s a p) |].
        discriminate Hin.
  - intros (Hv & -> & -> & ->).
    destruct (handleSubmit_valid onSuccess skill spec st outcome Hv)
      as (reaction & Heq & _).
    rewrite Heq. right. left. reflexivity.
Qed.

(** For a form none of whose keys names a member every object inherits:
    a request is sent exactly when every required field has a value (in
    a repeatable group with a key, in every row of it, and the group has
    a row when it asks for one; in any other section, among the scalar
    fields); it is then the one request of the call, to the action of
    the form with the parameters built from the state, between the two
    changes of the submitting flag.  Otherwise the only thing that
    happens is one error toast, about a required field that is empty or
    a group without rows. *)
Theorem submit_needs_required_values (onSuccess : bool) (skill : string)
    (spec : FormSpec) (st : FormState) (outcome : Outcome) :
  (forall section, In section (sections spec) ->
     has (or_str (section_key section) "") Object_prototype_keys = false
     /\ forall field, In field (fields section) ->
          has (key field) Object_prototype_keys = false) ->
  (forall s a p,
     In (PostAction s a p) (handleSubmit onSuccess skill spec st outcome)
     <-> s = skill /\ a = submit_action spec /\ p = submitParams st
         /\ (forall section, In section (sections spec) ->
               if is_repeatable section
               then ((0 < or_num (min_rows section) 0)%Q -> rows_of st section <> [])
                    /\ (forall row, In row (rows_of st section) ->
                        forall field, In field (fields section) ->
                          required field = Some true ->
                          truthy_str (row !! key field) = true)
               else forall field, In field (fields section) ->
                      required field = Some true ->
                      truthy_str (field_values st !! key field) = true))
  /\ (validate spec st = None ->
      exists reaction,
        handleSubmit onSuccess skill spec st outcome
        = ([SetSubmitting true;
            PostAction skill (submit_action spec) (submitParams st)]
           ++ reaction ++ [SetSubmitting false])%list
        /\ forall s a p, ~ In (PostAction s a p) reaction)
  /\ (forall e, validate spec st = Some e ->
        handleSubmit onSuccess skill spec st outcome = [ShowToast "error" (OfError e) None]
        /\ exists section, In section (sections spec)
             /\ match e with
                | AtLeastRows l n =>
                    l = section_label section /\ rows_of st section = [] /\ (0 < n)%Q
                | RowRequired l i f =>
                    l = section_label section
                    /\ exists row field,
                         nth_error (rows_of st section) (i - 1)%nat = Some row
                         /\ In field (fields section) /\ f = label field
                         /\ required field = Some true
                         /\ truthy_str (row !! key field) = false
                | Required f =>
                    exists field, In field (fields section) /\ f = label field
                      /\ required field = Some true
                      /\ truthy_str (field_values st !! key field) = false
                end).
Proof.
  intros _. split; [|split].
  - intros s a p. rewrite posted_request. unfold validate. rewrite first_error_None.
    split.
    + intros (Hall & -> & -> & ->). repeat split.
      intros section Hin. apply validate_section_None. now apply Hall.
    + intros (-> & -> & -> & Hall). repeat split.
      intros section Hin. apply validate_section_None. now apply Hall.
  - apply handleSubmit_valid.
  - intros e He. split; [unfold handleSubmit; now rewrite He|].
    unfold validate in He. apply first_error_Some in He as (section & Hin & He).
    exists section. split; [exact Hin|]. unfold validate_section in He.
    destruct (is_repeatable section).
    + destruct (negb (Qle_bool (or_num (min_rows section) 0) 0)) eqn:Hmin.
      * destruct (rows_of st section) as [|row rows] eqn:Hrows;
          cbn [List.length Nat.eqb andb] in He.
        -- injection He as <-. repeat split.
           apply negb_true_iff in Hmin. apply Qnot_le_lt. intros Hle.
           apply Qle_bool_iff in Hle. congruence.
        -- apply validate_rows_Some in He as (j & r & field & Hn & Hf & -> & Hr & Hv).
           split; [reflexivity|]. exists r, field.
           replace (0 + j + 1 - 1)%nat with j by lia. now repeat split.
      * cbn [andb] in He.
        apply validate_rows_Some in He as (j & r & field & Hn & Hf & -> & Hr & Hv).
        split; [reflexivity|]. exists r, field.
        replace (0 + j + 1 - 1)%nat with j by lia. now repeat split.
    + apply (fields_fail (fun field => Required (label field)))
        in He as (field & Hf & -> & Hr & Hv).
      now exists field.
Qed.

Lemma demo_plain_keys :
  forall section, In section (sections DEMO_add_sales_invoice) ->
    has (or_str (section_key section) "") Object_prototype_keys = false
    /\ forall field, In field (fields section) ->
         has (key field) Object_prototype_keys = false.
Proof.
  intros section [<-|[<-|[<-|[]]]]; (split; [reflexivity|]).
  - intros field [<-|[<-|[<-|[]]]]; reflexivity.
  - intros field [<-|[<-|[<-|[]]]]; reflexivity.
  - intros field [<-|[]]; reflexivity.
Qed.

Lemma submit_needs_required_values_witness :
  In (PostAction "erpclaw-selling" "add-sales-invoice" (submitParams invoice_state))
     (handleSubmit true "erpclaw-selling" DEMO_add_sales_invoice invoice_state Ok).
Proof.
  apply (proj1 (submit_needs_required_values true "erpclaw-selling"
                  DEMO_add_sales_invoice invoice_state Ok demo_plain_keys)).
  repeat split.
  intros section [<-|[<-|[<-|[]]]].
  - intros field [<-|[<-|[<-|[]]]]; intros Hr; try discriminate Hr; reflexivity.
  - split; [intros _; discriminate|].
    intros row [<-|[]] field [<-|[<-|[<-|[]]]] Hr; reflexivity.
  - intros field [<-|[]] Hr. discriminate Hr.
Defined.

Lemma assign_lookup (i k : string) (p : ParamValue) (params : gmap string ParamValue) :
  k <> "__proto__" ->
  assign i p params !! k = if decide (i = k) then Some p else params !! k.
Proof.
  intros Hk. unfold assign. destruct (decide (i = k)) as [->|Hne].
  - apply String.eqb_neq in Hk. rewrite Hk. apply lookup_insert_eq.
  - destruct (String.eqb i "__proto__"); [reflexivity|]. now apply lookup_insert_ne.
Qed.

Lemma assign_proto (i : string) (p : ParamValue) (params : gmap string ParamValue) :
  params !! "__proto__" = None -> assign i p params !! "__proto__" = None.
Proof.
  intros Hn. unfold assign. destruct (String.eqb i "__proto__") eqn:E; [exact Hn|].
  apply String.eqb_neq in E. now rewrite lookup_insert_ne.
Qed.

Lemma scalars_lookup (m : gmap string string) (k : string) :
  k <> "__proto__" ->
  map_fold (fun k v (params : gmap string ParamValue) =>
              match scalarParam v with
              | Some p => assign k p params
              | None => params
              end) ∅ m !! k
  = m !! k ≫= scalarParam.
Proof.
  intros Hk.
  apply (map_fold_weak_ind
           (fun (r : gmap string ParamValue) (m : gmap string string) =>
              r !! k = m !! k ≫= scalarParam)).
  - now rewrite !lookup_empty.
  - intros i x m' r Hnone IH. destruct (decide (i = k)) as [->|Hne].
    + rewrite lookup_insert_eq. cbn. destruct (scalarParam x) as [p|] eqn:Hx.
      * rewrite (assign_lookup k k p r Hk). now destruct (decide (k = k)).
      * now rewrite IH, Hnone.
    + rewrite (lookup_insert_ne m' i k x Hne).
      destruct (scalarParam x) as [p|]; [|apply IH].
      rewrite (assign_lookup i k p r Hk). now destruct (decide (i = k)).
Qed.

Lemma scalars_proto (m : gmap string string) :
  map_fold (fun k v (params : gmap string ParamValue) =>
              match scalarParam v with
              | Some p => assign k p params
              | None => params
              end) ∅ m !! "__proto__" = None.
Proof.
  apply (map_fold_weak_ind
           (fun (r : gmap string ParamValue) (_ : gmap string string) =>
              r !! "__proto__" = None)).
  - apply lookup_empty.
  - intros i x m' r _ IH. destruct (scalarParam x); [now apply assign_proto | exact IH].
Qed.

Lemma groups_lookup (base : gmap string ParamValue) (m : gmap string (list Row))
    (k : string) :
  k <> "__proto__" ->
  map_fold (fun k rows (params : gmap string ParamValue) =>
              match rows with
              | [] => params
              | _ :: _ => assign k (PRows rows) params
              end) base m !! k
  = match m !! k with
    | Some (row :: rows) => Some (PRows (row :: rows))
    | _ => base !! k
    end.
Proof.
  intros Hk.
  apply (map_fold_weak_ind
           (fun (r : gmap string ParamValue) (m : gmap string (list Row)) =>
              r !! k = match m !! k with
                       | Some (row :: rows) => Some (PRows (row :: rows))
                       | _ => base !! k
                       end)).
  - now rewrite lookup_empty.
  - intros i x m' r Hnone IH. destruct (decide (i = k)) as [->|Hne].
    + rewrite lookup_insert_eq. destruct x as [|row rows].
      * now rewrite IH, Hnone.
      * rewrite (assign_lookup k k _ r Hk). now destruct (decide (k = k)).
    + rewrite (lookup_insert_ne m' i k x Hne).
      destruct x as [|row rows]; [apply IH|].
      rewrite (assign_lookup i k _ r Hk). now destruct (decide (i = k)).
Qed.

Lemma groups_proto (base : gmap string ParamValue) (m : gmap string (list Row)) :
  base !! "__proto__" = None ->
  map_fold (fun k rows (params : gmap string ParamValue) =>
              match rows with
              | [] => params
              | _ :: _ => assign k (PRows rows) params
              end) base m !! "__proto__" = None.
Proof.
  intros Hb.
  apply (map_fold_weak_ind
           (fun (r : gmap string ParamValue) (_ : gmap string (list Row)) =>
              r !! "__proto__" = None)).
  - exact Hb.
  - intros i x m' r _ IH. destruct x; [exact IH | now apply assign_proto].
Qed.

Lemma submitParams_lookup (st : FormState) (k : string) :
  k <> "__proto__" ->
  submitParams st !! k
  = match repeatables st !! k with
    | Some (row :: rows) => Some (PRows (row :: rows))
    | _ => field_values st !! k ≫= scalarParam
    end.
Proof.
  intros Hk. unfold submitParams. rewrite (groups_lookup _ _ k Hk).
  destruct (repeatables st !! k) as [[|row rows]|]; try reflexivity;
    now apply scalars_lookup.
Qed.

Lemma submitParams_proto (st : FormState) : submitParams st !! "__proto__" = None.
Proof. unfold submitParams. apply groups_proto, scalars_proto. Qed.

Lemma scalarParam_Some (v : string) (p : ParamValue) :
  scalarParam v = Some p ->
  match p with
  | PString s => s = v /\ v <> "" /\ v <> "true" /\ v <> "false"
  | PBoolean b => v = if b then "true" else "false"
  | PRows _ => False
  end.
Proof.
  unfold scalarParam.
  destruct (String.eqb v "") eqn:E0; [discriminate|].
  destruct (String.eqb v "true") eqn:E1;
    [intros [= <-]; now apply String.eqb_eq in E1|].
  destruct (String.eqb v "false") eqn:E2;
    [intros [= <-]; now apply String.eqb_eq in E2|].
  intros [= <-]. apply String.eqb_neq in E0, E1, E2. now repeat split.
Qed.

(** What a request carries, whichever request [handleSubmit] sends.  A
    group that has rows is sent under its key, whatever scalar field has
    the same key; under any other key the value of the scalar field is
    sent: not at all when it is empty, as a boolean when it is the text
    of one, as it is otherwise.  Nothing else is sent: a string
    parameter is the value of a scalar field, a boolean comes from a
    field holding its text, a group from the rows of that key; and no
    parameter is ever named [__proto__]. *)
Theorem request_params (onSuccess : bool) (skill : string) (spec : FormSpec)
    (st : FormState) (outcome : Outcome) (s a : string)
    (params : gmap string ParamValue) :
  In (PostAction s a params) (handleSubmit onSuccess skill spec st outcome) ->
  (forall k row rows, k <> "__proto__" ->
     repeatables st !! k = Some (row :: rows) ->
     params !! k = Some (PRows (row :: rows)))
  /\ (forall k, k <> "__proto__" ->
        repeatables st !! k = None \/ repeatables st !! k = Some [] ->
        params !! k
        = match field_values st !! k with
          | None | Some "" => None
          | Some "true" => Some (PBoolean true)
          | Some "false" => Some (PBoolean false)
          | Some v => Some (PString v)
          end)
  /\ (forall k p, params !! k = Some p ->
        match p with
        | PString v =>
            field_values st !! k = Some v /\ v <> "" /\ v <> "true" /\ v <> "false"
        | PBoolean b => field_values st !! k = Some (if b then "true" else "false")
        | PRows rows => repeatables st !! k = Some rows /\ rows <> []
        end)
  /\ params !! "__proto__" = None.
Proof.
  intros Hin. apply posted_request in Hin as (_ & _ & _ & ->).
  split; [|split; [|split]].
  - intros k row rows Hk Hr. now rewrite (submitParams_lookup st k Hk), Hr.
  - intros k Hk Hr. rewrite (submitParams_lookup st k Hk).
    assert (Hs : field_values st !! k ≫= scalarParam
                 = match field_values st !! k with
                   | None | Some "" => None
                   | Some "true" => Some (PBoolean true)
                   | Some "false" => Some (PBoolean false)
                   | Some v => Some (PString v)
                   end).
    { destruct (field_values st !! k) as [v|]; [|reflexivity]. cbn.
      unfold scalarParam.
      destruct (String.eqb v "") eqn:E0;
        [apply String.eqb_eq in E0; now subst v|].
      destruct (String.eqb v "true") eqn:E1;
        [apply String.eqb_eq in E1; now subst v|].
      destruct (String.eqb v "false") eqn:E2;
        [apply String.eqb_eq in E2; now subst v|].
      apply String.eqb_neq in E0, E1, E2.
      repeat match goal with
             | |- context [match ?x with _ => _ end] =>
                 is_var x; destruct x; try congruence
             | |- context [match ?x with _ => _ end] =>
                 lazymatch type of x with
                 | ascii => destruct x as [[] [] [] [] [] [] [] []]; try congruence
                 | bool => destruct x; try congruence
                 end
             end; reflexivity. }
    destruct Hr as [-> | ->]; exact Hs.
  - intros k p Hp.
    destruct (String.eqb k "__proto__") eqn:Ek.
    { apply String.eqb_eq in Ek. subst k. rewrite submitParams_proto in Hp.
      discriminate Hp. }
    apply String.eqb_neq in Ek. rewrite (submitParams_lookup st k Ek) in Hp.
    assert (Hscalar : field_values st !! k ≫= scalarParam = Some p ->
              match p with
              | PString v =>
                  field_values st !! k = Some v /\ v <> "" /\ v <> "true" /\ v <> "false"
              | PBoolean b => field_values st !! k = Some (if b then "true" else "false")
              | PRows rows => repeatables st !! k = Some rows /\ rows <> []
              end).
    { destruct (field_values st !! k) as [v|]; cbn; [|discriminate].
      intros Hq. apply scalarParam_Some in Hq. destruct p as [b|v'|rows].
      - now subst v.
      - destruct Hq as (-> & Hrest). now split.
      - destruct Hq. }
    destruct (repeatables st !! k) as [[|row rows]|]; try (now apply Hscalar).
    injection Hp as <-. now split.
  - apply submitParams_proto.
Qed.

Lemma request_params_witness :
  submitParams invoice_state !! "items"
  = Some (PRows [ <["item-id" := "ITEM-1"]>
                    (<["qty" := "1"]> (<["rate" := "9.50"]> ∅)) ]).
Proof.
  assert (Hin : In (PostAction "erpclaw-selling" "add-sales-invoice"
                      (submitParams invoice_state))
                   (handleSubmit true "erpclaw-selling" DEMO_add_sales_invoice
                      invoice_state Ok)) by (right; left; reflexivity).
  destruct (request_params true "erpclaw-selling" DEMO_add_sales_invoice
              invoice_state Ok _ _ _ Hin) as (Hrows & _).
  apply Hrows; [discriminate | reflexivity].
Defined.

Import AutoFormSpec.

(** The first section of a generated auto form holds the field of every
    required parameter that is auto-hidden. *)
Lemma hidden_field_in_first_section `{CaseOps} (skill action : string)
    (ps : ActionParamSchema) (cts : option ChildTableSchema) (spec : FormSpec)
    (p : ParamField) (s0 : FormSectionSpec) (rest : list FormSectionSpec) :
  generateAutoFormSpec skill action ps cts = Some spec ->
  In p (required_params ps) -> is_auto_hidden p = true ->
  sections spec = s0 :: rest ->
  In (paramToField p skill) (fields s0).
Proof.
  unfold generateAutoFormSpec.
  destruct (negb (has (action_type ps) formActions)); [discriminate|].
  destruct (required_params ps ++ optional_params ps)%list; [discriminate|].
  intros [= <-] Hin Hhid. cbn [sections].
  assert (Hf : In p (List.filter is_auto_hidden (required_params ps)))
    by (apply filter_In; now split).
  destruct (List.filter is_auto_hidden (required_params ps)) as [|hp hps];
    [destruct Hf|].
  destruct (baseSections skill action ps cts) as [|b0 brest]; [discriminate|].
  rewrite AutoFormFacts.fold_unshift_map,
    (AutoFormFacts.unshiftFirst_fold _ _ b0 brest eq_refl).
  intros [= <- _]. cbn [fields]. apply in_or_app. left.
  apply in_or_app. destruct Hf as [<-|Hf]; [right; now left | left].
  apply (proj1 (List.in_rev _ _)).
  now apply (List.in_map (fun hp => paramToField hp skill)).
Qed.

(** A form generated for an action that requires the company id is not
    sent before the company id has a value: among the scalar fields, or,
    when the first section is a repeatable group, in each of its rows. *)
Theorem company_id_must_be_given `{CaseOps} (skill action : string)
    (ps : ActionParamSchema) (cts : option ChildTableSchema) (spec : FormSpec)
    (p : ParamField) (s0 : FormSectionSpec) (rest : list FormSectionSpec)
    (st : FormState) :
  generateAutoFormSpec skill action ps cts = Some spec ->
  In p (required_params ps) -> name p = "company-id" -> pf_required p = true ->
  sections spec = s0 :: rest ->
  validate spec st = None ->
  if is_repeatable s0
  then forall row, In row (rows_of st s0) -> truthy_str (row !! "company-id") = true
  else truthy_str (field_values st !! "company-id") = true.
Proof.
  intros Hgen Hin Hname Hreq Hsec Hval.
  assert (Hhid : is_auto_hidden p = true) by (unfold is_auto_hidden; now rewrite Hname).
  pose proof (hidden_field_in_first_section skill action ps cts spec p s0 rest
                Hgen Hin Hhid Hsec) as Hfield.
  destruct (AutoFormShape.paramToField_key_type p skill) as (Hkey & _ & Hr).
  rewrite Hname in Hkey. rewrite Hreq in Hr.
  unfold validate in Hval. rewrite Hsec in Hval.
  pose proof (proj1 (first_error_None (validate_section st) (s0 :: rest)) Hval s0
                (or_introl eq_refl)) as Hs0.
  apply validate_section_None in Hs0.
  destruct (is_repeatable s0).
  - destruct Hs0 as [_ Hrows]. intros row Hrow.
    rewrite <- Hkey. now apply (Hrows row Hrow _ Hfield).
  - rewrite <- Hkey. now apply Hs0.
Qed.

Lemma company_id_must_be_given_witness :
  truthy_str (field_values customer_state !! "company-id") = true.
Proof.
  pose proof (fun spec s0 rest =>
                company_id_must_be_given (H := ascii_case) "erpclaw-selling"
                  "add-customer" Examples.add_customer_params None spec
                  Examples.company_id_param s0 rest customer_state) as Hw.
  specialize (Hw _ _ _ eq_refl (or_introl eq_refl) eq_refl eq_refl eq_refl eq_refl).
  exact Hw.
Defined.

End FormFacts.

(* ================================================================== *)
(** * The skill page: action groups, detail and add actions            *)
(* ================================================================== *)

Module PageActionFacts.
Import Js JsFacts SkillPageActions.



Section Partition.
Context {A : Type} (f : A -> string).




End Partition.






(** ** Plural and singular action names *)

Lemma replace_first_unfold (pat rep s : string) :
  DynamicForm.replace_first pat rep s
  = if String.prefix pat s then rep +:+ slice_from (String.length pat) s
    else match s with
         | EmptyString => EmptyString
         | String c r => String c (DynamicForm.replace_first pat rep r)
         end.
Proof. destruct s; reflexivity. Qed.

Lemma slice_from_append (p x : string) : slice_from (String.length p) (p +:+ x) = x.
Proof. induction p as [|c p IH]; [reflexivity | exact IH]. Qed.

Lemma strip_list_prefix (p x : string) :
  DynamicForm.replace_first p "" (p +:+ x) = x.
Proof.
  rewrite replace_first_unfold.
  change (String.prefix p (p +:+ x)) with (startsWith (p +:+ x) p).
  rewrite UiYamlShape.startsWith_append, slice_from_append. reflexivity.
Qed.

Lemma append_empty (s : string) : s +:+ "" = s.
Proof.
  induction s as [|c s IH]; [reflexivity|].
  change (String c (s +:+ "") = String c s). now rewrite IH.
Qed.

Lemma rev_onto_acc (s acc : string) : rev_onto s acc = reverse s +:+ acc.
Proof.
  unfold reverse. revert acc. induction s as [|c s IH]; intros acc; [reflexivity|].
  cbn [rev_onto]. rewrite IH, (IH (String c EmptyString)).
  now rewrite <- CacheFacts.string_append_assoc.
Qed.

Lemma endsWith_append (x p : string) : endsWith (x +:+ p) p = true.
Proof.
  unfold endsWith. unfold reverse at 2. rewrite rev_onto_app.
  fold (reverse x). rewrite rev_onto_acc.
  apply UiYamlShape.startsWith_append.
Qed.

Lemma drop_suffix (x p : string) :
  Nat.iter (String.length p) drop_last (x +:+ p) = x.
Proof.
  revert x. induction p as [|c p IH]; intros x; [apply append_empty|].
  change (drop_last (Nat.iter (String.length p) drop_last
                       (x +:+ (String c EmptyString +:+ p))) = x).
  rewrite CacheFacts.string_append_assoc, IH. apply drop_last_snoc.
Qed.

Lemma replace_suffix_hit (x suf rep : string) :
  replace_suffix suf rep (x +:+ suf) = x +:+ rep.
Proof. unfold replace_suffix. now rewrite endsWith_append, drop_suffix. Qed.


Lemma snoc_cases (s : string) :
  s = "" \/ exists x c, s = x +:+ String c EmptyString.
Proof.
  induction s as [|d s IH]; [now left|]. right.
  destruct IH as [->|(x & c & ->)].
  - now exists EmptyString, d.
  - now exists (String d x), c.
Qed.

Lemma endsWith_char_inv (s : string) (c : ascii) :
  endsWith s (String c EmptyString) = true ->
  exists x, s = x +:+ String c EmptyString.
Proof.
  destruct (snoc_cases s) as [->|(x & d & ->)]; [discriminate|].
  rewrite endsWith_snoc. intros E. apply Ascii.eqb_eq in E. subst d. now exists x.
Qed.



(** The entity name is among the singular forms tried for the plural
    the list action is built from. *)
Lemma singular_among_candidates (kebab : string) :
  In kebab
     (candidates (if endsWith kebab "s" then kebab
                  else if endsWith kebab "y" then drop_last kebab +:+ "ies"
                  else kebab +:+ "s")).
Proof.
  destruct (endsWith kebab "s") eqn:Es; [now left|].
  destruct (endsWith kebab "y") eqn:Ey.
  - right. left. apply endsWith_char_inv in Ey as [x ->].
    rewrite drop_last_snoc. apply replace_suffix_hit.
  - do 5 right. left. rewrite replace_suffix_hit. apply append_empty.
Qed.

Lemma find_has_some (cands all : list string) (c : string) :
  In c cands -> has ("get-" +:+ c) all = true ->
  exists c', find (fun c => has ("get-" +:+ c) all) cands = Some c'.
Proof.
  intros Hin Hhas.
  destruct (find (fun c => has ("get-" +:+ c) all) cands) as [c'|] eqn:Hf;
    [now exists c'|].
  pose proof (find_none _ _ Hf c Hin) as Hn. cbn beta in Hn. congruence.
Qed.

(** The detail action opened for a row is an action of the skill named
    get-..., and only list actions have one.  For the list action
    inferred for an entity whose name is not that of a member every
    object inherits, one is found whenever the skill has a get action
    named after the entity. *)
Theorem detail_action (allActions : list string) :
  (forall listAction g, deriveGetAction listAction allActions = Some g ->
     startsWith listAction "list-" = true /\ In g allActions
     /\ startsWith g "get-" = true)
  /\ (forall e, e <> "" -> has e Object_prototype_keys = false ->
        lookup e UiYamlToForm.ENTITY_ACTION_OVERRIDES = None ->
        In ("get-" +:+ replace_char "_" "-" e) allActions ->
        exists listAction g,
          UiYamlToForm.inferSearchAction (Some e) = Some listAction
          /\ deriveGetAction listAction allActions = Some g).
Proof.
  split.
  - intros listAction g. unfold deriveGetAction.
    destruct (startsWith listAction "list-"); [|discriminate]. cbn [negb].
    destruct (find _ _) as [c|] eqn:Hf; [|discriminate].
    intros [= <-]. apply find_some in Hf as [_ Hf].
    split; [reflexivity|]. split; [now apply ConfirmationFacts.has_In|].
    apply (UiYamlShape.startsWith_append "get-" c).
  - intros e He _ Hov Hget.
    rewrite (UiYamlFacts.inferSearchAction_plural e He Hov).
    apply ConfirmationFacts.has_In in Hget.
    destruct (find_has_some _ allActions _
                (singular_among_candidates (replace_char "_" "-" e)) Hget)
      as [c' Hc'].
    match goal with
    | |- context [Some ("list-" +:+ ?P) = _] =>
        exists ("list-" +:+ P), ("get-" +:+ c')
    end.
    split; [reflexivity|]. unfold deriveGetAction.
    rewrite UiYamlShape.startsWith_append. cbn [negb].
    rewrite strip_list_prefix, Hc'. reflexivity.
Qed.

Lemma detail_action_witness :
  exists listAction g,
    UiYamlToForm.inferSearchAction (Some "sales_order") = Some listAction
    /\ deriveGetAction listAction ["list-sales-orders"; "get-sales-order"] = Some g.
Proof.
  apply (proj2 (detail_action ["list-sales-orders"; "get-sales-order"]) "sales_order");
    [discriminate | reflexivity | reflexivity | right; left; reflexivity].
Defined.






End PageActionFacts.

(* ================================================================== *)
(** * The confirmation card: edits                                     *)
(* ================================================================== *)

Module CardEditFacts.
Import Js JsFacts ConfirmationCard CardEdits.






End CardEditFacts.

(* ================================================================== *)
(** * The calendar: month navigation                                   *)
(* ================================================================== *)

Module CalendarFacts.
Import CalendarView.

(** From a month of the year, the two buttons move by exactly one month
    and stay within the twelve months, so each undoes the other. *)
Theorem month_navigation (d : MonthOfYear) :
  0 <= month d <= 11 ->
  (0 <= month (nextMonth d) <= 11
   /\ 12 * year (nextMonth d) + month (nextMonth d) = 12 * year d + month d + 1)
  /\ (0 <= month (prevMonth d) <= 11
      /\ 12 * year (prevMonth d) + month (prevMonth d) = 12 * year d + month d - 1)
  /\ prevMonth (nextMonth d) = d
  /\ nextMonth (prevMonth d) = d.
Proof.
  intros Hm. destruct d as [y m]. cbn [month year] in Hm.
  assert (Hnext : nextMonth {| year := y; month := m |}
                  = if Z.eq_dec m 11 then {| year := y + 1; month := 0 |}
                    else {| year := y; month := m + 1 |}).
  { unfold nextMonth. cbn [month year]. destruct (Z.eq_dec m 11) as [->|Hne];
      [reflexivity|]. apply Z.eqb_neq in Hne. now rewrite Hne. }
  assert (Hprev : prevMonth {| year := y; month := m |}
                  = if Z.eq_dec m 0 then {| year := y - 1; month := 11 |}
                    else {| year := y; month := m - 1 |}).
  { unfold prevMonth. cbn [month year]. destruct (Z.eq_dec m 0) as [->|Hne];
      [reflexivity|]. apply Z.eqb_neq in Hne. now rewrite Hne. }
  rewrite Hnext, Hprev. split; [|split; [|split]].
  - destruct (Z.eq_dec m 11); cbn [month year]; lia.
  - destruct (Z.eq_dec m 0); cbn [month year]; lia.
  - destruct (Z.eq_dec m 11) as [->|Hne]; unfold prevMonth; cbn [month year].
    + change (0 =? 0) with true. cbv iota. f_equal. lia.
    + assert (H1 : (m + 1 =? 0) = false) by (apply Z.eqb_neq; lia).
      rewrite H1. f_equal. lia.
  - destruct (Z.eq_dec m 0) as [->|Hne]; unfold nextMonth; cbn [month year].
    + change (11 =? 11) with true. cbv iota. f_equal. lia.
    + assert (H1 : (m - 1 =? 11) = false) by (apply Z.eqb_neq; lia).
      rewrite H1. f_equal. lia.
Qed.

Lemma month_navigation_witness :
  prevMonth (nextMonth {| year := 2025; month := 11 |}) = {| year := 2025; month := 11 |}.
Proof.
  apply (month_navigation {| year := 2025; month := 11 |}). cbn. lia.
Defined.

End CalendarFacts.

(* ================================================================== *)
(** * The API client: the common prefix of skill names                 *)
(* ================================================================== *)

Module ApiFacts.
Import Js ApiHelpers.

Lemma indexOf_split (c : ascii) (s : string) (i : nat) :
  indexOf c s = Some i ->
  exists a b, s = a +:+ String c b /\ String.length a = i /\ indexOf c a = None.
Proof.
  revert i. induction s as [|d r IH]; intros i; cbn [indexOf]; [discriminate|].
  destruct (Ascii.eqb d c) eqn:E.
  - apply Ascii.eqb_eq in E. subst d. intros [= <-]. now exists EmptyString, r.
  - destruct (indexOf c r) as [j|]; [|discriminate]. intros [= <-].
    destruct (IH j eq_refl) as (a & b & -> & Hl & Hn).
    exists (String d a), b. repeat split.
    + cbn [String.length]. now rewrite Hl.
    + cbn [indexOf]. now rewrite E, Hn.
Qed.

Lemma indexOf_first (c : ascii) (a b : string) :
  indexOf c a = None -> indexOf c (a +:+ String c b) = Some (String.length a).
Proof.
  induction a as [|d a IH]; intros Hn.
  - change ("" +:+ String c b) with (String c b). cbn [indexOf String.length].
    now rewrite Ascii.eqb_refl.
  - cbn [indexOf] in Hn. destruct (Ascii.eqb d c) eqn:E; [discriminate|].
    change (String d a +:+ String c b) with (String d (a +:+ String c b)).
    cbn [indexOf String.length]. rewrite E.
    destruct (indexOf c a); [discriminate|]. now rewrite IH.
Qed.

Lemma slice_to_first (c : ascii) (a b : string) :
  slice_to (String.length a + 1) (a +:+ String c b) = a +:+ String c EmptyString.
Proof.
  induction a as [|d a IH]; [reflexivity|].
  change (String d a +:+ String c b) with (String d (a +:+ String c b)).
  change (String d a +:+ String c "") with (String d (a +:+ String c "")).
  cbn [String.length Nat.add slice_to]. now rewrite IH.
Qed.

Lemma startsWith_inv (n p : string) :
  startsWith n p = true -> exists x, n = p +:+ x.
Proof.
  unfold startsWith. revert n. induction p as [|c p IH]; intros n.
  - intros _. now exists n.
  - destruct n as [|d n]; [discriminate|]. rewrite CacheFacts.prefix_cons.
    destruct (Ascii.ascii_dec c d) as [<-|]; [|discriminate].
    intros Hp. destruct (IH n Hp) as [x ->]. now exists x.
Qed.

(** The common prefix of the skill names, when there is one, is what the
    first name has up to and with its first hyphen, and every name
    starts with it; there is none for fewer than two names.  And when
    two names or more all start with the same hyphen-free word and a
    hyphen, that is the prefix found. *)
Theorem common_prefix (names : list string) :
  (findCommonPrefix names <> "" ->
     (2 <= List.length names)%nat
     /\ (forall n, In n names -> startsWith n (findCommonPrefix names) = true)
     /\ exists q, findCommonPrefix names = q +:+ "-" /\ indexOf "-" q = None)
  /\ (forall q, indexOf "-" q = None -> (2 <= List.length names)%nat ->
        (forall n, In n names -> startsWith n (q +:+ "-") = true) ->
        findCommonPrefix names = q +:+ "-").
Proof.
  unfold findCommonPrefix. split.
  - destruct (Nat.ltb (List.length names) 2) eqn:Hlen; [intros Hne; now elim Hne|].
    apply Nat.ltb_ge in Hlen.
    destruct names as [|first rest]; [intros Hne; now elim Hne|].
    destruct (indexOf "-" first) as [idx|] eqn:Hidx; [|intros Hne; now elim Hne].
    cbv zeta.
    destruct (forallb _ (first :: rest)) eqn:Hall; [|intros Hne; now elim Hne].
    intros _. split; [exact Hlen|]. split.
    + intros n Hin. exact (proj1 (forallb_forall _ _) Hall n Hin).
    + apply indexOf_split in Hidx as (a & b & -> & <- & Hn).
      exists a. now rewrite slice_to_first.
  - intros q Hq Hlen Hall.
    assert (Hlt : Nat.ltb (List.length names) 2 = false) by now apply Nat.ltb_ge.
    rewrite Hlt. destruct names as [|first rest]; [cbn in Hlen; lia|].
    destruct (startsWith_inv first (q +:+ "-") (Hall first (or_introl eq_refl)))
      as [x Hfirst].
    rewrite <- CacheFacts.string_append_assoc in Hfirst.
    change ("-" +:+ x) with (String "-" x) in Hfirst.
    subst first. rewrite (indexOf_first "-" q x Hq).
    cbv zeta. rewrite slice_to_first.
    assert (Hf : forallb (fun n => startsWith n (q +:+ "-"))
                   ((q +:+ String "-" x) :: rest) = true)
      by (apply forallb_forall; exact Hall).
    now rewrite Hf.
Qed.

Lemma common_prefix_witness :
  findCommonPrefix ["erpclaw-gl"; "erpclaw-selling"; "erpclaw-hr"] = "erpclaw-".
Proof.
  apply (proj2 (common_prefix ["erpclaw-gl"; "erpclaw-selling"; "erpclaw-hr"]) "erpclaw").
  - reflexivity.
  - cbn. lia.
  - intros n [<-|[<-|[<-|[]]]]; reflexivity.
Defined.

End ApiFacts.

(* ================================================================== *)
(** * Auto forms: the form buttons                                     *)
(* ================================================================== *)

Module ButtonFacts.
Import Js JsFacts FormSpecTypes AutoFormSpec AutoFormButtons.




End ButtonFacts.
